(** * TikToker: the batch ingestion pipeline

    A shallow embedding of the plugin's main module (the version with the
    mobile transport, [Platform.isMobile]): URL discovery, redirect
    expansion, metadata resolution with its fallback chain, the note writer
    and the bulk processing loop, followed by the properties the
    specification states about them.

    JavaScript strings are sequences of UTF-16 code units; they are modelled
    as lists of code units, so that the character ranges of the source's
    regular expressions can be written as they are. *)

From Stdlib Require Import ZArith NArith Ascii String List Lia.
From Stdlib Require Import DecimalN.
From stdpp Require Import base list sorting gmap.

(** ** Strings *)

Definition jsstring : Type := list N.

(** An ASCII literal of the source. *)
Definition lit (s : string) : jsstring :=
  map N_of_ascii (list_ascii_of_string s).

Definition chr (a : ascii) : N := N_of_ascii a.

Definition inRange (lo hi c : N) : bool := ((lo <=? c) && (c <=? hi))%N.

(** [\d] *)
Definition isDigit (c : N) : bool := inRange 48 57 c.

(** [\w], that is [A-Za-z0-9_] *)
Definition isWordChar (c : N) : bool :=
  inRange 65 90 c || inRange 97 122 c || isDigit c || (c =? 95)%N.

(** [\s]: the WhiteSpace and LineTerminator code units of ECMAScript; also
    the set that [String.prototype.trim] strips. *)
Definition isSpace (c : N) : bool :=
  inRange 9 13 c || (c =? 32)%N || (c =? 160)%N || (c =? 5760)%N
  || inRange 8192 8202 c || (c =? 8232)%N || (c =? 8233)%N
  || (c =? 8239)%N || (c =? 8287)%N || (c =? 12288)%N || (c =? 65279)%N.

(** Case canonicalisation of a regular expression with the [i] flag and
    without the [u] flag, on ASCII: upper-casing. A code unit from 128 on
    never canonicalises to an ASCII one, so for comparisons against the ASCII
    characters of a pattern it can be left as it is. *)
Definition canonicalize (c : N) : N :=
  if inRange 97 122 c then (c - 32)%N else c.

Definition toLowerAscii (c : N) : N :=
  if inRange 65 90 c then (c + 32)%N else c.

(** [String.prototype.toLowerCase], as far as its caller observes it: the
    result is only searched for the words of [detectPrivateVideo]. Outside
    ASCII two code units lower-case to a string with an ASCII letter, U+212A
    to k and U+0130 to i followed by U+0307; no word searched holds a k, or
    an i as its last letter, so neither can take part in a match and both
    are left as they are. *)
Definition toLowerCase (s : jsstring) : jsstring := map toLowerAscii s.

Fixpoint stripPrefix (pre s : jsstring) : option jsstring :=
  match pre, s with
  | [], _ => Some s
  | p :: pre', c :: s' => if (p =? c)%N then stripPrefix pre' s' else None
  | _ :: _, [] => None
  end.

Definition startsWith (pre s : jsstring) : bool :=
  match stripPrefix pre s with Some _ => true | None => false end.

(** [s.includes(pat)] *)
Fixpoint includes (pat s : jsstring) : bool :=
  startsWith pat s ||
  match s with
  | [] => false
  | _ :: s' => includes pat s'
  end.

Fixpoint takeWhile (p : N → bool) (s : jsstring) : jsstring :=
  match s with
  | c :: s' => if p c then c :: takeWhile p s' else []
  | [] => []
  end.

Fixpoint dropWhile (p : N → bool) (s : jsstring) : jsstring :=
  match s with
  | c :: s' => if p c then dropWhile p s' else s
  | [] => []
  end.

(** [s.trim()] *)
Definition trim (s : jsstring) : jsstring :=
  rev (dropWhile isSpace (rev (dropWhile isSpace s))).

(** [s.replace(c, '')] for a one-character string pattern: the first
    occurrence only. *)
Fixpoint removeFirst (c : N) (s : jsstring) : jsstring :=
  match s with
  | x :: s' => if (x =? c)%N then s' else x :: removeFirst c s'
  | [] => []
  end.

Fixpoint digitsOfUint (d : Decimal.uint) : jsstring :=
  match d with
  | Decimal.Nil => []
  | Decimal.D0 d => 48%N :: digitsOfUint d
  | Decimal.D1 d => 49%N :: digitsOfUint d
  | Decimal.D2 d => 50%N :: digitsOfUint d
  | Decimal.D3 d => 51%N :: digitsOfUint d
  | Decimal.D4 d => 52%N :: digitsOfUint d
  | Decimal.D5 d => 53%N :: digitsOfUint d
  | Decimal.D6 d => 54%N :: digitsOfUint d
  | Decimal.D7 d => 55%N :: digitsOfUint d
  | Decimal.D8 d => 56%N :: digitsOfUint d
  | Decimal.D9 d => 57%N :: digitsOfUint d
  end.

(** A number interpolated into a template string: [`${n}`]. *)
Definition decimal (n : N) : jsstring := digitsOfUint (N.to_uint n).

(** The value of a string of decimal digits, most significant first. *)
Definition digitsValue (s : jsstring) : Z :=
  fold_left (λ acc c, 10 * acc + (Z.of_N c - 48))%Z s 0%Z.

(** ** Regular expressions

    A pattern is a function from the text at the current position to the
    texts that may remain after a match there, in the order in which a
    backtracking engine tries them; the engine's match is the first. *)

Module Regex.

Definition Matcher : Type := jsstring → list jsstring.

Definition eps : Matcher := λ s, [s].

Definition one (p : N → bool) : Matcher := λ s,
  match s with
  | c :: s' => if p c then [s'] else []
  | [] => []
  end.

Definition seq (m1 m2 : Matcher) : Matcher := λ s, flat_map m2 (m1 s).

Definition alt (m1 m2 : Matcher) : Matcher := λ s, m1 s ++ m2 s.

(** [m?], greedy *)
Definition opt (m : Matcher) : Matcher := alt m eps.

(** A literal, compared code unit by code unit. *)
Fixpoint str (l : jsstring) : Matcher :=
  match l with
  | [] => eps
  | c :: l' => seq (one (N.eqb c)) (str l')
  end.

(** A literal under the [i] flag. *)
Fixpoint strCI (l : jsstring) : Matcher :=
  match l with
  | [] => eps
  | c :: l' => seq (one (λ x, (canonicalize x =? canonicalize c)%N)) (strCI l')
  end.

(** [[class]*], greedy: the longest run first, then each shorter one. *)
Fixpoint star (p : N → bool) (s : jsstring) : list jsstring :=
  match s with
  | c :: s' => if p c then star p s' ++ [s] else [s]
  | [] => [[]]
  end.

(** [[class]+], greedy *)
Definition plus (p : N → bool) : Matcher := seq (one p) (star p).

(** [regex.test(s)] for a pattern anchored with [^]. *)
Definition testAnchored (m : Matcher) (s : jsstring) : bool :=
  match m s with [] => false | _ :: _ => true end.

(** The matches of a global ([g]) pattern with the position of each, scanning
    from left to right; after a match the scan resumes where it ended (the
    patterns of this program match at least one code unit). [skip] counts the
    code units of the current match still to be passed over; [pos] is the
    index of the head of [s] in the whole text. *)
Fixpoint scan (m : Matcher) (pos skip : nat) (s : jsstring)
  : list (nat * jsstring) :=
  match s with
  | [] => []
  | _ :: s' =>
      match skip with
      | S k => scan m (S pos) k s'
      | O =>
          match head (m s) with
          | Some rest =>
              let n := (length s - length rest)%nat in
              (pos, take n s) :: scan m (S pos) (n - 1) s'
          | None => scan m (S pos) 0 s'
          end
      end
  end.

Definition occurrences (m : Matcher) (s : jsstring) : list (nat * jsstring) :=
  scan m 0 0 s.

(** [s.match(regex) || []] for a global pattern. *)
Definition matchAll (m : Matcher) (s : jsstring) : list jsstring :=
  map snd (occurrences m s).

(** [s.match(/pre(class+)post/)] for a pattern without the [g] flag: the
    capture group of the first position at which the pattern matches. [post]
    begins with no character of the class, so the group is the whole run. *)
Fixpoint capture (pre : jsstring) (cls : N → bool) (post : jsstring)
    (s : jsstring) : option jsstring :=
  let next := match s with [] => None | _ :: s' => capture pre cls post s' end in
  match stripPrefix pre s with
  | Some r =>
      match takeWhile cls r with
      | [] => next
      | g => if startsWith post (dropWhile cls r) then Some g else next
      end
  | None => next
  end.

End Regex.

(** ** URL discovery *)

(** The complement class of the URL pattern: anything but white space, a
    closing square bracket or parenthesis, a double or single quote, and the
    angle brackets. *)
Definition isUrlBodyChar (c : N) : bool :=
  negb (isSpace c || (c =? chr "]")%N || (c =? chr ")")%N || (c =? 34)%N
        || (c =? chr "'")%N || (c =? chr "<")%N || (c =? chr ">")%N).

(** [/https?:\/\/(?:www\.)?(tiktok\.com|vm\.tiktok\.com)\/C+/gi], with [C]
    the class above. *)
Definition urlPattern : Regex.Matcher :=
  Regex.seq (Regex.strCI (lit "http"))
  (Regex.seq (Regex.opt (Regex.strCI (lit "s")))
  (Regex.seq (Regex.strCI (lit "://"))
  (Regex.seq (Regex.opt (Regex.strCI (lit "www.")))
  (Regex.seq (Regex.alt (Regex.strCI (lit "tiktok.com"))
                        (Regex.strCI (lit "vm.tiktok.com")))
  (Regex.seq (Regex.strCI (lit "/"))
             (Regex.plus isUrlBodyChar)))))).

Definition schemeAndHost (host : Regex.Matcher) : Regex.Matcher :=
  Regex.seq (Regex.str (lit "http"))
  (Regex.seq (Regex.opt (Regex.str (lit "s")))
  (Regex.seq (Regex.str (lit "://")) host)).

(** [/^https?:\/\/(www\.)?(tiktok\.com|vm\.tiktok\.com)/],
    [/^https?:\/\/tiktok\.com\/t\//] and
    [/^https?:\/\/(www\.)?tiktok\.com\/@[\w.-]+\/video\/\d+/] *)
Definition tikTokPatterns : list Regex.Matcher :=
  [ schemeAndHost
      (Regex.seq (Regex.opt (Regex.str (lit "www.")))
                 (Regex.alt (Regex.str (lit "tiktok.com"))
                            (Regex.str (lit "vm.tiktok.com"))));
    schemeAndHost (Regex.str (lit "tiktok.com/t/"));
    schemeAndHost
      (Regex.seq (Regex.opt (Regex.str (lit "www.")))
      (Regex.seq (Regex.str (lit "tiktok.com/@"))
      (Regex.seq (Regex.plus (λ c, isWordChar c || (c =? chr ".")%N
                                   || (c =? chr "-")%N))
      (Regex.seq (Regex.str (lit "/video/")) (Regex.plus isDigit))))) ].

Definition isTikTokUrl (url : jsstring) : bool :=
  existsb (λ pattern, Regex.testAnchored pattern (trim url)) tikTokPatterns.

(** [new Set(matches)] then spread: a [Set] keeps its elements in insertion
    order and ignores the insertion of an element it already holds. *)
Definition setAdd (acc : list jsstring) (x : jsstring) : list jsstring :=
  if bool_decide (x ∈ acc) then acc else acc ++ [x].

Definition uniqueInOrder (l : list jsstring) : list jsstring :=
  fold_left setAdd l [].

Definition extractTikTokUrls (text : jsstring) : list jsstring :=
  let matches := Regex.matchAll urlPattern text in
  let uniqueUrls := uniqueInOrder matches in
  filter (λ url, isTikTokUrl url = true) uniqueUrls.

(** The position of the first of the given matches that reads [u]. *)
Definition firstIn (l : list (nat * jsstring)) (u : jsstring) : option nat :=
  fst <$> List.find (λ o, bool_decide (o.2 = u)) l.

(** The position in [text] of the first match of the URL pattern that reads
    [url]. *)
Definition firstMatchPos (text url : jsstring) : option nat :=
  firstIn (Regex.occurrences urlPattern text) url.

(** ** Exceptions *)

(** A thrown value, as far as the handlers look at it: [error.message] when
    it is a string, and [error.status]. *)
Record Error : Type := mkError {
  message : option jsstring;
  status : option Z
}.

(** [new Error(msg)] *)
Definition newError (msg : jsstring) : Error :=
  {| message := Some msg; status := None |}.

Inductive Res (A : Type) : Type :=
| Ok (a : A)
| Throw (e : Error).
Arguments Ok {A} a.
Arguments Throw {A} e.

(** ** Dates

    A [Date] holds a time value, milliseconds since the epoch, or is invalid
    ([None]). The calendar is the proleptic Gregorian one, in UTC, as
    [toISOString] prints it. *)

Module JsDate.

Local Open Scope Z_scope.

Definition msPerDay : Z := 86400000.

(** The range of time values ([TimeClip]): 100,000,000 days either side of
    the epoch. *)
Definition maxTime : Z := 8640000000000000.

Definition validTime (t : Z) : Prop := - maxTime <= t <= maxTime.

(** [new Date(value)] for a number. *)
Definition ofTime (t : Z) : option Z :=
  if (- maxTime <=? t) && (t <=? maxTime) then Some t else None.

(** Year, month (1 to 12) and day of the month of a day number counted from
    1970-01-01, by eras of 400 years that begin on a 1st of March. *)
Definition civilOfEra (era doe : Z) : Z * Z * Z :=
  let yoe := (doe - doe / 1460 + doe / 36524 - doe / 146096) / 365 in
  let doy := doe - (365 * yoe + yoe / 4 - yoe / 100) in
  let mp := (5 * doy + 2) / 153 in
  let d := doy - (153 * mp + 2) / 5 + 1 in
  let m := if mp <? 10 then mp + 3 else mp - 9 in
  (yoe + era * 400 + (if m <=? 2 then 1 else 0), m, d).

Definition civil (day : Z) : Z * Z * Z :=
  let z := day + 719468 in
  let era := z / 146097 in
  civilOfEra era (z - era * 146097).

Definition yearOfTime (t : Z) : Z := (civil (t / msPerDay)).1.1.

(** The character of the last decimal digit of [n]. *)
Definition digitN (n : Z) : N := Z.to_N (48 + n mod 10).

(** The last [width] decimal digits of [n], most significant first: [n]
    padded with zeros when [0 <= n < 10 ^ width]. *)
Fixpoint pad (width : nat) (n : Z) : jsstring :=
  match width with
  | O => []
  | S w => pad w (n / 10) ++ [digitN n]
  end.

(** Four digits for the years 0 to 9999, a sign and six digits otherwise. *)
Definition yearString (y : Z) : jsstring :=
  if (0 <=? y) && (y <=? 9999) then pad 4 y
  else (if y <? 0 then chr "-" else chr "+") :: pad 6 (Z.abs y).

Definition dateString (t : Z) : jsstring :=
  let '(y, m, d) := civil (t / msPerDay) in
  yearString y ++ lit "-" ++ pad 2 m ++ lit "-" ++ pad 2 d.

Definition timeString (t : Z) : jsstring :=
  let ms := t mod msPerDay in
  pad 2 (ms / 3600000) ++ lit ":" ++ pad 2 ((ms / 60000) mod 60) ++ lit ":"
  ++ pad 2 ((ms / 1000) mod 60) ++ lit "." ++ pad 3 (ms mod 1000).

(** [date.toISOString()]: a [RangeError] for an invalid date. *)
Definition toISOString (date : option Z) : Res jsstring :=
  match date with
  | Some t => Ok (dateString t ++ lit "T" ++ timeString t ++ lit "Z")
  | None => Throw (newError (lit "Invalid time value"))
  end.

(** [s.split('T')[0]] *)
Definition beforeT (s : jsstring) : jsstring :=
  takeWhile (λ c, negb (c =? chr "T")%N) s.

(** [date.toISOString().split('T')[0]] *)
Definition isoDay (date : option Z) : Res jsstring :=
  match toISOString date with
  | Ok s => Ok (beforeT s)
  | Throw e => Throw e
  end.

(** *** Well-formed calendar dates *)

Definition isLeap (y : Z) : bool :=
  ((y mod 4 =? 0) && negb (y mod 100 =? 0)) || (y mod 400 =? 0).

Definition daysInMonth (y m : Z) : Z :=
  if m =? 2 then (if isLeap y then 29 else 28)
  else if (m =? 4) || (m =? 6) || (m =? 9) || (m =? 11) then 30
  else 31.

Definition validDay (y m d : Z) : bool :=
  (1 <=? m) && (m <=? 12) && (1 <=? d) && (d <=? daysInMonth y m).

(** An ISO 8601 calendar date in the extended format: [YYYY-MM-DD], or with
    the expanded year of the ECMAScript date-time format, a sign and six
    digits; the month and the day must exist in the calendar. *)
Definition isIsoDate (s : jsstring) : bool :=
  match s with
  | [y1; y2; y3; y4; h1; m1; m2; h2; d1; d2] =>
      forallb isDigit [y1; y2; y3; y4; m1; m2; d1; d2]
      && (h1 =? chr "-")%N && (h2 =? chr "-")%N
      && validDay (digitsValue [y1; y2; y3; y4]) (digitsValue [m1; m2])
                  (digitsValue [d1; d2])
  | [sg; y1; y2; y3; y4; y5; y6; h1; m1; m2; h2; d1; d2] =>
      forallb isDigit [y1; y2; y3; y4; y5; y6; m1; m2; d1; d2]
      && (h1 =? chr "-")%N && (h2 =? chr "-")%N
      && (if (sg =? chr "+")%N
          then validDay (digitsValue [y1; y2; y3; y4; y5; y6])
                        (digitsValue [m1; m2]) (digitsValue [d1; d2])
          else (sg =? chr "-")%N
               && validDay (- digitsValue [y1; y2; y3; y4; y5; y6])
                           (digitsValue [m1; m2]) (digitsValue [d1; d2]))
  | _ => false
  end.

(** The plain form [YYYY-MM-DD]. *)
Definition isFourDigitYearDate (s : jsstring) : bool :=
  isIsoDate s && bool_decide (length s = 10%nat).

End JsDate.

(** ** Settings, host and effects *)

Inductive PrivatePolicy : Type := CreateEmpty | Skip | ShowError.

Inductive DuplicateAction : Type := Replace | Duplicate | SkipFile.

(** The fields of [TikTokerSettings] that the pipeline reads outside the
    templates. *)
Record Settings : Type := mkSettings {
  outputFolder : jsstring;
  handlePrivateVideos : PrivatePolicy;
  urlTimeout : Z;
  enableBulkProcessing : bool;
  bypassModalForSingle : bool;
  showBulkProcessingProgress : bool
}.

Inductive Method : Type := GET | HEAD.

(** A request handed to the transport. [req_timer] is the delay of the timer
    that the caller arms to abort its [AbortController]; [req_signal] tells
    whether the controller's signal is passed on to the transport, which
    alone makes the timer effective. *)
Record Request : Type := mkRequest {
  req_method : Method;
  req_url : jsstring;
  req_timer : Z;
  req_signal : bool
}.

Inductive HeadOutcome : Type :=
| HeadFails (e : Error)
| HeadResponds (finalUrl : jsstring) (lastModified : option jsstring).

(** A property of a JSON body as the resolver reads it: a string, a falsy
    value (the property is absent, [null], [false] or [0]; the empty string
    is falsy too), or a truthy value that is not a string. *)
Inductive JsonValue : Type :=
| JString (s : jsstring)
| JFalsy
| JTruthy.

(** The JSON body of the metadata endpoint. [author_name] and
    [thumbnail_url] go into the record as they are; they are strings when
    present, as the endpoint has them. *)
Record OembedData : Type := mkOembedData {
  author_name : option jsstring;
  title : JsonValue;
  thumbnail_url : option jsstring;
  html : JsonValue
}.

(** The GET of the metadata endpoint: the request is rejected (network
    failure, abort) or its body cannot be read ([json()] rejects, or the
    body is [null], whose properties cannot be read), with the error thrown;
    or the response is not [ok]; or the body is read. *)
Inductive GetOutcome : Type :=
| GetThrows (e : Error)
| GetNotOk (statusCode : N)
| GetData (d : OembedData).

(** The environment of a run: the platform, and what each consultation of
    the network, the clock, the user and the file store yields. The
    consultations of a run are numbered in the order they occur. *)
Record Env : Type := mkEnv {
  isMobile : bool;
  headAt : nat → HeadOutcome;
  getAt : nat → GetOutcome;
  clockAt : nat → Z;
  promptAt : nat → DuplicateAction;
  vaultFaultAt : nat → option Error;
  (** [Date.parse], [None] for [NaN] *)
  dateParse : jsstring → option Z;
  (** [encodeURIComponent], which throws on a lone surrogate *)
  encodeURIComponent : jsstring → Res jsstring;
  (** the code units from 128 on that the [i] flag adds to the class of the
      hashtag pattern, by the case tables of the engine *)
  foldsIntoTagClass : N → bool
}.

Inductive Entry : Type :=
| File (content : jsstring)
| Folder.

Inductive Event : Type :=
| Notice (text : jsstring)
| Requested (r : Request)
| PromptedDuplicate (fileName noteTitle : jsstring)
| OpenedBulkModal (urls : list jsstring).

Record World : Type := mkWorld {
  vault : gmap jsstring Entry;
  events : list Event;
  tick : nat
}.

Definition logEvent (ev : Event) (w : World) : World :=
  {| vault := vault w; events := events w ++ [ev]; tick := tick w |}.

Definition nextTick (w : World) : World :=
  {| vault := vault w; events := events w; tick := S (tick w) |}.

Definition setVault (v : gmap jsstring Entry) (w : World) : World :=
  {| vault := v; events := events w; tick := tick w |}.

(** The result of running a computation from a world: it returns or throws
    in a new world, or is still inside a loop when the fuel runs out. *)
Inductive Outcome (A : Type) : Type :=
| Done (r : Res A) (w : World)
| OutOfFuel.
Arguments Done {A} r w.
Arguments OutOfFuel {A}.

Definition M (A : Type) : Type := World → Outcome A.

Definition ret {A} (a : A) : M A := λ w, Done (Ok a) w.

Definition throw {A} (e : Error) : M A := λ w, Done (Throw e) w.

Definition bind {A B} (m : M A) (f : A → M B) : M B := λ w,
  match m w with
  | Done (Ok a) w' => f a w'
  | Done (Throw e) w' => Done (Throw e) w'
  | OutOfFuel => OutOfFuel
  end.

(** [try { m } catch (e) { handler e }] *)
Definition tryCatch {A} (m : M A) (handler : Error → M A) : M A := λ w,
  match m w with
  | Done (Ok a) w' => Done (Ok a) w'
  | Done (Throw e) w' => handler e w'
  | OutOfFuel => OutOfFuel
  end.

Definition liftRes {A} (r : Res A) : M A := λ w, Done r w.

Notation "'let!' x ':=' m 'in' k" := (bind m (λ x, k))
  (at level 10, x name, m at level 100, k at level 200).

Definition when (b : bool) (m : M unit) : M unit := if b then m else ret tt.

(** [value || fallback] for a string that may be absent: the empty string is
    falsy too. *)
Definition orElse (value : option jsstring) (fallback : jsstring) : jsstring :=
  match value with
  | Some (c :: s) => c :: s
  | _ => fallback
  end.

Definition truthy (value : option jsstring) : bool :=
  match value with
  | Some (_ :: _) => true
  | _ => false
  end.

Definition jsonTruthy (value : JsonValue) : bool :=
  match value with
  | JString (_ :: _) => true
  | JString [] => false
  | JFalsy => false
  | JTruthy => true
  end.

(** [new TypeError(...)], for a method that a value does not have. *)
Definition typeError : Error :=
  {| message := Some (lit "is not a function"); status := None |}.

Section Host.

Variable env : Env.

(** [new Notice(text)] *)
Definition notice (text : jsstring) : M unit := λ w,
  Done (Ok tt) (logEvent (Notice text) w).

(** [new Date()], the current time *)
Definition now : M (option Z) := λ w,
  Done (Ok (JsDate.ofTime (clockAt env (tick w)))) (nextTick w).

(** [new Date(text)] *)
Definition dateOfString (text : jsstring) : option Z :=
  match dateParse env text with
  | Some t => JsDate.ofTime t
  | None => None
  end.

(** [new Date().toISOString().split('T')[0]] *)
Definition today : M jsstring :=
  let! date := now in liftRes (JsDate.isoDay date).

Definition transportHead (r : Request) : M HeadOutcome := λ w,
  Done (Ok (headAt env (tick w))) (nextTick (logEvent (Requested r) w)).

Definition transportGet (r : Request) : M GetOutcome := λ w,
  Done (Ok (getAt env (tick w))) (nextTick (logEvent (Requested r) w)).

(** What [makeHeadRequest] resolves with. *)
Record HeadResponse : Type := mkHeadResponse {
  resp_url : jsstring;
  resp_lastModified : option jsstring
}.

(** [makeHeadRequest(url, { signal, ... })], [timer] being the delay after
    which the caller aborts the signal. On mobile the request goes through
    [requestUrl], which is given no signal, reports the original URL, and
    turns a failure into a response without headers; on desktop through
    [fetch], which rejects on failure or abort. *)
Definition makeHeadRequest (url : jsstring) (timer : Z) : M HeadResponse :=
  if isMobile env then
    let! outcome := transportHead
      {| req_method := HEAD; req_url := url; req_timer := timer;
         req_signal := false |} in
    match outcome with
    | HeadResponds _ lastModified =>
        ret {| resp_url := url;
               resp_lastModified :=
                 if truthy lastModified then lastModified else None |}
    | HeadFails _ => ret {| resp_url := url; resp_lastModified := None |}
    end
  else
    let! outcome := transportHead
      {| req_method := HEAD; req_url := url; req_timer := timer;
         req_signal := true |} in
    match outcome with
    | HeadResponds finalUrl lastModified =>
        ret {| resp_url := finalUrl; resp_lastModified := lastModified |}
    | HeadFails e => throw e
    end.

(** *** The vault

    The file store of the host: a map from paths to files and folders. Every
    mutating operation may fail for a reason of the host's. *)

(** [this.app.vault.getAbstractFileByPath(path)] *)
Definition getAbstractFileByPath (path : jsstring) : M (option Entry) := λ w,
  Done (Ok (vault w !! path)) w.

Definition vaultOp (change : gmap jsstring Entry → Res (gmap jsstring Entry))
  : M unit := λ w,
  match vaultFaultAt env (tick w) with
  | Some e => Done (Throw e) (nextTick w)
  | None =>
      match change (vault w) with
      | Ok v => Done (Ok tt) (nextTick (setVault v w))
      | Throw e => Done (Throw e) (nextTick w)
      end
  end.

(** [this.app.vault.createFolder(path)] *)
Definition createFolder (path : jsstring) : M unit :=
  vaultOp (λ v,
    match v !! path with
    | Some _ => Throw (newError (lit "Folder already exists."))
    | None => Ok (<[path := Folder]> v)
    end).

(** [this.app.vault.create(path, content)] *)
Definition create (path content : jsstring) : M unit :=
  vaultOp (λ v,
    match v !! path with
    | Some _ => Throw (newError (lit "File already exists."))
    | None => Ok (<[path := File content]> v)
    end).

(** [this.app.vault.delete(file)], for the file found at [path] *)
Definition delete_ (path : jsstring) : M unit :=
  vaultOp (λ v, Ok (delete path v)).

(** [handleDuplicateFile(fileName, noteTitle)]: opens the duplicate-file
    dialog and waits for the user's choice. *)
Definition handleDuplicateFile (fileName noteTitle : jsstring)
  : M DuplicateAction := λ w,
  Done (Ok (promptAt env (tick w)))
       (nextTick (logEvent (PromptedDuplicate fileName noteTitle) w)).

End Host.

(** ** Redirect resolver and metadata resolver *)

(** The object that [fetchTikTokData] resolves with. [isSlideshow] and
    [isPrivate] are read for their truth value only, so a property that a
    branch leaves out is [false]. *)
Record TikTokData : Type := mkTikTokData {
  author : jsstring;
  description : jsstring;
  hashtags : list jsstring;
  url : jsstring;
  expandedUrl : jsstring;
  embedHtml : jsstring;
  thumbnailUrl : option jsstring;
  videoId : option jsstring;
  createdDate : jsstring;
  postedDate : jsstring;
  oembedFailed : bool;
  isSlideshow : bool;
  isPrivate : bool
}.

(** A double quote inside a template string. *)
Definition dq : jsstring := [34%N].

(** [url.match(/\/video\/(\d+)/)], group 1 or [null] *)
Definition extractVideoId (url : jsstring) : option jsstring :=
  Regex.capture (lit "/video/") isDigit [] url.

(** [url.match(/@([^\/]+)/)] *)
Definition extractAuthorFromUrl (url : jsstring) : jsstring :=
  match Regex.capture (lit "@") (λ c, negb (c =? chr "/")%N) [] url with
  | Some name => lit "@" ++ name
  | None => lit "Unknown"
  end.

Definition createObsidianCompatibleEmbed (videoId : option jsstring)
    (url : jsstring) : jsstring :=
  if truthy videoId then
    lit "<iframe width=" ++ dq ++ lit "325" ++ dq ++ lit " height=" ++ dq
    ++ lit "760" ++ dq ++ lit " src=" ++ dq
    ++ lit "https://www.tiktok.com/embed/v2/" ++ orElse videoId [] ++ dq
    ++ lit "></iframe>"
  else
    lit "<p>TikTok video: <a href=" ++ dq ++ url ++ dq ++ lit " target=" ++ dq
    ++ lit "_blank" ++ dq ++ lit ">" ++ url ++ lit "</a></p>".

Definition detectPrivateVideo (error : Error) : bool :=
  match message error with
  | Some text =>
      let errorMessage := toLowerCase text in
      includes (lit "403") errorMessage
      || includes (lit "forbidden") errorMessage
      || includes (lit "private") errorMessage
      || includes (lit "not available") errorMessage
      || includes (lit "access denied") errorMessage
      || includes (lit "restricted") errorMessage
  | None => false
  end
  || bool_decide (status error = Some 403%Z).

(** [BigInt(text)] for a string of decimal digits, the only strings that the
    patterns [\d+] of the callers capture; any other string is taken to be a
    [SyntaxError]. *)
Definition BigInt (text : jsstring) : Res Z :=
  if forallb isDigit text then Ok (digitsValue text)
  else Throw (newError (lit "Cannot convert to a BigInt")).

Section Resolver.

Variable settings : Settings.
Variable env : Env.

(** The class of [/#[\w\u00c0-\u024f\u1e00-\u1eff]+/gi]. On ASCII the [i]
    flag adds nothing, [\w] holding both cases of every letter. *)
Definition isTagChar (c : N) : bool :=
  isWordChar c || inRange 192 591 c || inRange 7680 7935 c
  || ((128 <=? c)%N && foldsIntoTagClass env c).

Definition hashtagRegex : Regex.Matcher :=
  Regex.seq (Regex.one (N.eqb (chr "#"))) (Regex.plus isTagChar).

Definition extractHashtags (text : jsstring) : list jsstring :=
  Regex.matchAll hashtagRegex text.

Definition expandUrl (url : jsstring) : M jsstring :=
  if includes (lit "vm.tiktok.com") url || includes (lit "tiktok.com/t/") url
  then
    tryCatch
      (let! response := makeHeadRequest env url (urlTimeout settings * 1000) in
       ret (resp_url response))
      (λ _, ret url)
  else ret url.

(** The timestamp read from the identifier, when it is accepted.
    [Number(shifted)] is exact below 2^53 and above the window beyond, so
    the comparisons are those of the integers. *)
Definition timestampOfVideoId (videoId : option jsstring) : M (option Z) :=
  match videoId with
  | Some id =>
      if truthy videoId && bool_decide (19 ≤ length id) then
        let! videoIdBig := liftRes (BigInt id) in
        let timestamp := Z.shiftr videoIdBig 32 in
        if ((1262304000 <? timestamp) && (timestamp <? 1893456000))%Z
        then ret (Some timestamp)
        else ret None
      else ret None
  | None => ret None
  end.

(** The body of the outer [try] of [extractTikTokPostedDate]: the date it
    returns, or [None] when control leaves the [try] without returning. *)
Definition postedDateAttempt (url : jsstring) (videoId : option jsstring)
  : M (option jsstring) :=
  let! accepted := timestampOfVideoId videoId in
  match accepted with
  | Some timestamp =>
      let! day := liftRes (JsDate.isoDay (JsDate.ofTime (timestamp * 1000))) in
      ret (Some day)
  | None =>
      tryCatch
        (let! response := makeHeadRequest env url 5000 in
         if truthy (resp_lastModified response) then
           let! day := liftRes (JsDate.isoDay
                         (dateOfString env (orElse (resp_lastModified response) []))) in
           ret (Some day)
         else ret None)
        (λ _, ret None)
  end.

Definition extractTikTokPostedDate (url : jsstring) (videoId : option jsstring)
  : M jsstring :=
  let! found := tryCatch (postedDateAttempt url videoId) (λ _, ret None) in
  match found with
  | Some day => ret day
  | None => today env
  end.

Definition handlePrivateVideo (url : jsstring) (videoId : option jsstring)
    (isBulkProcessing : bool) : M (option TikTokData) :=
  let author := extractAuthorFromUrl url in
  let! postedDate := extractTikTokPostedDate url videoId in
  match handlePrivateVideos settings with
  | Skip => ret None
  | ShowError =>
      let! _ := when (negb isBulkProcessing)
        (notice (lit "Cannot access private TikTok video: " ++ url)) in
      let! createdDate := today env in
      ret (Some
        {| author := author;
           description := lit "Private TikTok Video - Access Denied";
           hashtags := [];
           url := url;
           expandedUrl := url;
           embedHtml :=
             lit "<p><strong>" ++ [9888%N; 65039%N]
             ++ lit " Private Video</strong></p><p>This TikTok video is private and cannot be accessed.</p><p>Original URL: <a href="
             ++ dq ++ url ++ dq ++ lit " target=" ++ dq ++ lit "_blank" ++ dq
             ++ lit ">" ++ url ++ lit "</a></p>";
           thumbnailUrl := None;
           videoId := videoId;
           createdDate := createdDate;
           postedDate := postedDate;
           oembedFailed := true;
           isSlideshow := false;
           isPrivate := true |})
  | CreateEmpty =>
      let! createdDate := today env in
      ret (Some
        {| author := author;
           description := lit "Private TikTok Video";
           hashtags := [];
           url := url;
           expandedUrl := url;
           embedHtml :=
             lit "<p>TikTok video (private): <a href=" ++ dq ++ url ++ dq
             ++ lit " target=" ++ dq ++ lit "_blank" ++ dq ++ lit ">" ++ url
             ++ lit "</a></p>";
           thumbnailUrl := None;
           videoId := videoId;
           createdDate := createdDate;
           postedDate := postedDate;
           oembedFailed := true;
           isSlideshow := false;
           isPrivate := true |})
  end.

Definition handleSlideshowUrl (url : jsstring) (videoId : option jsstring)
    (isBulkProcessing : bool) : M TikTokData :=
  let authorWithAt := extractAuthorFromUrl url in
  let author := removeFirst (chr "@") authorWithAt in
  let! postedDate := extractTikTokPostedDate url videoId in
  let title := lit "TikTok photo slideshow by " ++ authorWithAt in
  let embedHtml := lit "![" ++ title ++ lit "](" ++ url ++ lit ")" in
  let! createdDate := today env in
  ret {| author := author;
         description := lit "TikTok Photo Slideshow";
         hashtags := [];
         url := url;
         expandedUrl := url;
         embedHtml := embedHtml;
         thumbnailUrl := None;
         videoId := videoId;
         createdDate := createdDate;
         postedDate := postedDate;
         oembedFailed := false;
         isSlideshow := true;
         isPrivate := false |}.

Definition fetchTikTokDataMobile (url : jsstring) (isBulkProcessing : bool)
  : M (option TikTokData) :=
  let! expandedUrl := expandUrl url in
  let videoId := extractVideoId expandedUrl in
  if includes (lit "/photo/") expandedUrl then
    let! data := handleSlideshowUrl expandedUrl videoId isBulkProcessing in
    ret (Some data)
  else
    let authorWithAt := extractAuthorFromUrl expandedUrl in
    let author := removeFirst (chr "@") authorWithAt in
    if bool_decide (author = lit "Unknown") || negb (truthy videoId) then
      handlePrivateVideo expandedUrl videoId isBulkProcessing
    else
      let! postedDate := extractTikTokPostedDate expandedUrl videoId in
      let embedHtml := createObsidianCompatibleEmbed videoId expandedUrl in
      let description := lit "TikTok from " ++ authorWithAt in
      let markdownFallback :=
        [10%N; 10%N] ++ lit "![" ++ description ++ lit "](" ++ expandedUrl
        ++ lit ")" in
      let finalEmbedHtml := embedHtml ++ markdownFallback in
      let! createdDate := today env in
      ret (Some
        {| author := author;
           description := description;
           hashtags := [];
           url := url;
           expandedUrl := expandedUrl;
           embedHtml := finalEmbedHtml;
           thumbnailUrl := None;
           videoId := videoId;
           createdDate := createdDate;
           postedDate := postedDate;
           oembedFailed := true;
           isSlideshow := false;
           isPrivate := false |}).

(** The end of the [try] block of the desktop branch of [fetchTikTokData],
    once the identifier is settled: the posted date is looked up and the
    record is built. A [title] that is truthy but no string makes
    [extractHashtags] throw while the record is being built. *)
Definition oembedRecord (url : jsstring) (oembedData : OembedData)
    (finalVideoId : option jsstring) : M (option TikTokData) :=
  let workingEmbed := createObsidianCompatibleEmbed finalVideoId url in
  let! postedDate := extractTikTokPostedDate url finalVideoId in
  match title oembedData with
  | JTruthy => throw typeError
  | titleValue =>
      let titleText :=
        match titleValue with JString text => Some text | _ => None end in
      let! createdDate := today env in
      ret (Some
        {| author := orElse (author_name oembedData) (lit "Unknown");
           description := orElse titleText (lit "TikTok Video");
           hashtags := extractHashtags (orElse titleText []);
           url := url;
           expandedUrl := url;
           embedHtml := workingEmbed;
           thumbnailUrl := thumbnail_url oembedData;
           videoId := finalVideoId;
           createdDate := createdDate;
           postedDate := postedDate;
           oembedFailed := false;
           isSlideshow := false;
           isPrivate := false |})
  end.

(** The [try] block of the desktop branch of [fetchTikTokData]. A [html]
    that is truthy but no string has no [match] method. *)
Definition fetchViaOembed (url : jsstring) (videoId : option jsstring)
  : M (option TikTokData) :=
  let! encoded := liftRes (encodeURIComponent env url) in
  let oembedUrl := lit "https://www.tiktok.com/oembed?url=" ++ encoded in
  let! response := transportGet env
    {| req_method := GET; req_url := oembedUrl;
       req_timer := urlTimeout settings * 1000; req_signal := true |} in
  match response with
  | GetThrows e => throw e
  | GetNotOk statusCode =>
      throw (newError (lit "oEmbed request failed: " ++ decimal statusCode))
  | GetData oembedData =>
      let! finalVideoId :=
        if negb (truthy videoId) && jsonTruthy (html oembedData) then
          match html oembedData with
          | JString markup =>
              ret (Regex.capture (lit "data-video-id=" ++ dq) isDigit dq markup)
          | _ => throw typeError
          end
        else ret videoId in
      oembedRecord url oembedData finalVideoId
  end.

(** The [catch] block of the desktop branch. *)
Definition fetchFallback (url : jsstring) (videoId : option jsstring)
    (isBulkProcessing : bool) (error : Error) : M (option TikTokData) :=
  if detectPrivateVideo error then
    handlePrivateVideo url videoId isBulkProcessing
  else
    let! _ := when (negb isBulkProcessing)
      (notice (lit "oEmbed failed, using fallback embed method")) in
    let! postedDate := extractTikTokPostedDate url videoId in
    let isSlideshow := includes (lit "/photo/") url in
    let authorWithAt := extractAuthorFromUrl url in
    let author := removeFirst (chr "@") authorWithAt in
    if isSlideshow then
      let title := lit "TikTok photo slideshow by " ++ authorWithAt in
      let! createdDate := today env in
      ret (Some
        {| author := author;
           description := lit "TikTok Photo Slideshow";
           hashtags := [];
           url := url;
           expandedUrl := url;
           embedHtml := lit "![" ++ title ++ lit "](" ++ url ++ lit ")";
           thumbnailUrl := None;
           videoId := videoId;
           createdDate := createdDate;
           postedDate := postedDate;
           oembedFailed := true;
           isSlideshow := true;
           isPrivate := false |})
    else
      let! createdDate := today env in
      ret (Some
        {| author := author;
           description := lit "TikTok Post";
           hashtags := [];
           url := url;
           expandedUrl := url;
           embedHtml := createObsidianCompatibleEmbed videoId url;
           thumbnailUrl := None;
           videoId := videoId;
           createdDate := createdDate;
           postedDate := postedDate;
           oembedFailed := true;
           isSlideshow := false;
           isPrivate := false |}).

Definition fetchTikTokData (url : jsstring) (isBulkProcessing : bool)
  : M (option TikTokData) :=
  if isMobile env then fetchTikTokDataMobile url isBulkProcessing
  else
    let videoId := extractVideoId url in
    if includes (lit "/photo/") url then
      let! data := handleSlideshowUrl url videoId isBulkProcessing in
      ret (Some data)
    else
      tryCatch (fetchViaOembed url videoId)
               (fetchFallback url videoId isBulkProcessing).

End Resolver.

(** ** The bulk processing loop *)

(** What [processTikTokUrlBulk] resolves with. A property that is left
    undefined is read by the callers for its truth value only. *)
Record ItemOutcome : Type := mkItemOutcome {
  o_success : bool;
  o_duplicate : bool;
  o_fileName : option jsstring;
  o_noteTitle : option jsstring;
  o_oembedFailed : bool;
  o_isSlideshow : bool;
  o_isPrivate : bool
}.

(** An entry of [results]. *)
Record BulkResult : Type := mkBulkResult {
  r_url : jsstring;
  r_success : bool;
  r_error : option jsstring;
  r_outcome : option ItemOutcome
}.

Record BulkState : Type := mkBulkState {
  processingQueue : list jsstring;
  results : list BulkResult;
  processed : nat;
  iteration : nat
}.

Section BulkLoop.

(** What [Promise.race([processUrlPromise, timeoutPromise])] settles with in
    the iteration of the given number for the given URL: the outcome of
    [processTikTokUrlBulk], the error it throws, or, when the timer of
    [urlTimeout + 5] seconds fires first, [new Error('Processing timeout')].
    Which of the two comes first is decided by the network and the clock. *)
Variable race : nat → jsstring → Res ItemOutcome.

(** The initial worklist, [urls]. *)
Variable urls : list jsstring.

Definition timeoutError : Error := newError (lit "Processing timeout").

Definition isProcessingTimeout (e : Error) : bool :=
  bool_decide (message e = Some (lit "Processing timeout")).

(** One pass through the body of the [while] loop, for a non-empty queue:
    [url] has been shifted off the queue, [rest] is what remains. *)
Definition bulkIteration (st : BulkState) (url : jsstring)
    (rest : list jsstring) : BulkState :=
  match race (iteration st) url with
  | Ok result =>
      {| processingQueue := rest;
         results := results st ++
           [ {| r_url := url; r_success := o_success result;
                r_error := None; r_outcome := Some result |} ];
         processed := S (processed st);
         iteration := S (iteration st) |}
  | Throw error =>
      if isProcessingTimeout error
         && bool_decide (length rest < length urls * 2)
      then
        {| processingQueue := rest ++ [url];
           results := results st;
           processed := processed st;
           iteration := S (iteration st) |}
      else
        {| processingQueue := rest;
           results := results st ++
             [ {| r_url := url; r_success := false;
                  r_error := message error; r_outcome := None |} ];
           processed := S (processed st);
           iteration := S (iteration st) |}
  end.

(** The [while (processingQueue.length > 0)] loop, run for at most [fuel]
    iterations: [Some] of the final [results] when the queue empties within
    them, [None] when it does not. *)
Fixpoint bulkLoop (fuel : nat) (st : BulkState) : option (list BulkResult) :=
  match processingQueue st with
  | [] => Some (results st)
  | url :: rest =>
      match fuel with
      | O => None
      | S fuel' => bulkLoop fuel' (bulkIteration st url rest)
      end
  end.

Definition bulkStart : BulkState :=
  {| processingQueue := urls; results := []; processed := 0; iteration := 0 |}.

(** [processBulkTikToks(urls)] up to the end of its loop: the [results] that
    go to the summary (none are gathered for an empty worklist, for which the
    function returns at once). *)
Definition processBulkTikToks (fuel : nat) : option (list BulkResult) :=
  match urls with
  | [] => Some []
  | _ => bulkLoop fuel bulkStart
  end.

End BulkLoop.

(** The run in which every race is lost to the timer. *)
Definition alwaysTimeout : nat → jsstring → Res ItemOutcome :=
  λ _ _, Throw timeoutError.

(** ** Note writer *)

(** What [createTikTokNote] resolves with. *)
Record NoteResult : Type := mkNoteResult {
  n_success : bool;
  n_duplicate : bool;
  n_fileName : option jsstring;
  n_noteTitle : option jsstring
}.

Definition isNonEmpty (s : jsstring) : bool :=
  match s with [] => false | _ :: _ => true end.

(** [folderPath ? `${folderPath}/${name}.md` : `${name}.md`] *)
Definition notePath (folderPath name : jsstring) : jsstring :=
  if isNonEmpty folderPath then folderPath ++ lit "/" ++ name ++ lit ".md"
  else name ++ lit ".md".

Section NoteWriter.

Variable settings : Settings.
Variable env : Env.

(** The template engine: [generateFileName], [generateNoteTitle] and
    [generateNoteContent] are functions of the record and of the settings
    alone; the note writer uses nothing else of them. *)
Variable generateFileName : TikTokData → jsstring.
Variable generateNoteTitle : TikTokData → jsstring.
Variable generateNoteContent : TikTokData → jsstring.

(** The [do ... while] loop of the [duplicate] choice, entered with
    [counter]: it returns the first path it finds free. *)
Fixpoint probeDuplicate (fuel : nat) (folderPath fileName : jsstring)
    (counter : N) : M jsstring :=
  match fuel with
  | O => λ _, OutOfFuel
  | S fuel' =>
      let newFileName := fileName ++ lit "-" ++ decimal counter in
      let filePath := notePath folderPath newFileName in
      let! found := getAbstractFileByPath filePath in
      match found with
      | Some _ => probeDuplicate fuel' folderPath fileName (counter + 1)
      | None => ret filePath
      end
  end.

(** The final [try] of [createTikTokNote]. [existingFile] tells whether a
    file was found at [original], the path first resolved. *)
Definition writeNote (existingFile : bool) (original filePath : jsstring)
    (fileName noteTitle noteContent : jsstring) (isBulkProcessing : bool)
  : M NoteResult :=
  tryCatch
    (let! _ :=
       if existingFile && bool_decide (filePath = original) then
         let! _ := delete_ env original in
         let! _ := create env filePath noteContent in
         when (negb isBulkProcessing) (notice (lit "Replaced: " ++ noteTitle))
       else
         let! _ := create env filePath noteContent in
         when (negb isBulkProcessing) (notice (lit "Created: " ++ noteTitle)) in
     ret {| n_success := true; n_duplicate := false;
            n_fileName := Some fileName; n_noteTitle := Some noteTitle |})
    (λ _,
       let! _ := when (negb isBulkProcessing)
                      (notice (lit "Failed to create note")) in
       ret {| n_success := false; n_duplicate := false;
              n_fileName := None; n_noteTitle := None |}).

(** [createTikTokNote(data, isBulkProcessing)]. [data] is [None] when the
    caller passes the [null] of a skipped private video: reading its
    properties throws. *)
Definition createTikTokNote (fuel : nat) (data : option TikTokData)
    (isBulkProcessing : bool) : M NoteResult :=
  match data with
  | None => throw (newError (lit "Cannot read properties of null"))
  | Some data =>
      let fileName := generateFileName data in
      let noteTitle := generateNoteTitle data in
      let noteContent := generateNoteContent data in
      let folderPath := outputFolder settings in
      let! _ :=
        if isNonEmpty folderPath then
          let! folder := getAbstractFileByPath folderPath in
          when (negb (bool_decide (is_Some folder))) (createFolder env folderPath)
        else ret tt in
      let original := notePath folderPath fileName in
      let! existingFile := getAbstractFileByPath original in
      match existingFile with
      | Some _ =>
          if isBulkProcessing then
            ret {| n_success := false; n_duplicate := true;
                   n_fileName := Some fileName; n_noteTitle := Some noteTitle |}
          else
            let! action := handleDuplicateFile env fileName noteTitle in
            match action with
            | SkipFile =>
                let! _ := notice (lit "File creation skipped") in
                ret {| n_success := false; n_duplicate := false;
                       n_fileName := None; n_noteTitle := None |}
            | Duplicate =>
                let! filePath := probeDuplicate fuel folderPath fileName 1 in
                writeNote true original filePath fileName noteTitle
                          noteContent isBulkProcessing
            | Replace =>
                writeNote true original original fileName noteTitle
                          noteContent isBulkProcessing
            end
      | None =>
          writeNote false original original fileName noteTitle noteContent
                    isBulkProcessing
      end
  end.

(** ** Single and bulk entry points *)

Definition processTikTokUrl (fuel : nat) (url : jsstring) : M unit :=
  tryCatch
    (let! expandedUrl := expandUrl settings env url in
     let! _ := notice (lit "Fetching TikTok data...") in
     let! tikTokData := fetchTikTokData settings env expandedUrl false in
     let! _ := createTikTokNote fuel tikTokData false in
     ret tt)
    (λ _, notice (lit "Failed to process TikTok URL")).

Definition processTikTokUrlBulk (fuel : nat) (url : jsstring) : M ItemOutcome :=
  let! expandedUrl := expandUrl settings env url in
  let! tikTokData := fetchTikTokData settings env expandedUrl true in
  match tikTokData with
  | None =>
      ret {| o_success := false; o_duplicate := false; o_fileName := None;
             o_noteTitle := None; o_oembedFailed := false;
             o_isSlideshow := false; o_isPrivate := true |}
  | Some data =>
      let! result := createTikTokNote fuel (Some data) true in
      ret {| o_success := n_success result;
             o_duplicate := n_duplicate result;
             o_fileName := n_fileName result;
             o_noteTitle := n_noteTitle result;
             o_oembedFailed := oembedFailed data;
             o_isSlideshow := isSlideshow data;
             o_isPrivate := isPrivate data |}
  end.

Definition shouldShowBulkModal (urls : list jsstring) : bool :=
  if negb (enableBulkProcessing settings) then false
  else if bool_decide (length urls ≤ 1) && bypassModalForSingle settings
  then false
  else bool_decide (1 < length urls).

(** [processTikTokFromClipboard()], [clipboard] being what
    [navigator.clipboard.readText()] settles with. Opening the bulk dialog
    ends the action; the dialog starts the bulk run later, from its
    callback. *)
Definition processTikTokFromClipboard (fuel : nat) (clipboard : Res jsstring)
  : M unit :=
  tryCatch
    (let! clipboardText := liftRes clipboard in
     let tikTokUrls := extractTikTokUrls clipboardText in
     match tikTokUrls with
     | [] => notice (lit "Clipboard does not contain any valid TikTok URLs")
     | first :: _ =>
         if shouldShowBulkModal tikTokUrls then
           λ w, Done (Ok tt) (logEvent (OpenedBulkModal tikTokUrls) w)
         else
           let! _ := notice (lit "Processing TikTok URL...") in
           processTikTokUrl fuel first
     end)
    (λ _, notice (lit "Failed to read clipboard or process TikTok URL")).

End NoteWriter.

(** ** The shape of a vault *)

(** The folders that a path lies in: its non-empty prefixes that end just
    before a slash. [done] is the part of the path already read. *)
Fixpoint foldersFrom (done rest : jsstring) : list jsstring :=
  match rest with
  | [] => []
  | c :: rest' =>
      (if (c =? chr "/")%N && isNonEmpty done then [done] else [])
      ++ foldersFrom (done ++ [c]) rest'
  end.

Definition parentFolders (path : jsstring) : list jsstring :=
  foldersFrom [] path.

(** A vault is a tree: whatever lies at a path lies in folders that
    exist. *)
Definition hierarchical (v : gmap jsstring Entry) : Prop :=
  map_Forall (λ path _, Forall (λ dir, is_Some (v !! dir)) (parentFolders path)) v.

#[global] Instance hierarchical_dec (v : gmap jsstring Entry) :
  Decision (hierarchical v).
Proof. unfold hierarchical. apply _. Defined.

(** The path probed by the [duplicate] choice for the counter [k]. *)
Definition candidatePath (folderPath fileName : jsstring) (k : N) : jsstring :=
  notePath folderPath (fileName ++ lit "-" ++ decimal k).

(** ** Notions used to state the properties *)

(** The settings with another private-video policy, or with bulk processing
    switched. *)
Definition withPolicy (policy : PrivatePolicy) (s : Settings) : Settings :=
  {| outputFolder := outputFolder s;
     handlePrivateVideos := policy;
     urlTimeout := urlTimeout s;
     enableBulkProcessing := enableBulkProcessing s;
     bypassModalForSingle := bypassModalForSingle s;
     showBulkProcessingProgress := showBulkProcessingProgress s |}.

Definition withBulkProcessing (enabled : bool) (s : Settings) : Settings :=
  {| outputFolder := outputFolder s;
     handlePrivateVideos := handlePrivateVideos s;
     urlTimeout := urlTimeout s;
     enableBulkProcessing := enabled;
     bypassModalForSingle := bypassModalForSingle s;
     showBulkProcessingProgress := showBulkProcessingProgress s |}.

(** Every reading of the clock is a time value that a [Date] can hold, as
    [new Date()] guarantees. *)
Definition clockValid (env : Env) : Prop :=
  ∀ n, JsDate.validTime (clockAt env n).


(** [u] is first matched before [v] is. *)
Definition before (occ : list (nat * jsstring)) (u v : jsstring) : Prop :=
  ∃ p q, firstIn occ u = Some p ∧ firstIn occ v = Some q ∧ p < q.

(** The characters that the class of the hashtag pattern lists. *)
Definition isWrittenTagChar (c : N) : bool :=
  isWordChar c || inRange 192 591 c || inRange 7680 7935 c.

(** A hashtag as the pattern reads it: the marker and at least one character
    of the class. *)
Definition isPlainTag (tag : jsstring) : bool :=
  match tag with
  | c :: body => (c =? chr "#")%N && isNonEmpty body
                 && forallb isWrittenTagChar body
  | [] => false
  end.

(** The hashtag that begins at the position [p] of [text], if one does: a
    [#] followed by at least one character of the class, together with the
    whole run of such characters that follows it. *)
Definition hashtagAt (env : Env) (text : jsstring) (p : nat)
  : option jsstring :=
  match drop p text with
  | c :: rest =>
      if (c =? chr "#")%N then
        match takeWhile (isTagChar env) rest with
        | [] => None
        | body => Some (c :: body)
        end
      else None
  | [] => None
  end.

(** [tags.join(' ')] *)
Fixpoint joinSpace (tags : list jsstring) : jsstring :=
  match tags with
  | [] => []
  | [tag] => tag
  | tag :: rest => tag ++ chr " " :: joinSpace rest
  end.

(** The short-link forms that [expandUrl] expands. *)
Definition isShortLink (url : jsstring) : bool :=
  includes (lit "vm.tiktok.com") url || includes (lit "tiktok.com/t/") url.

(** The HEAD request that [makeHeadRequest] hands to the transport. *)
Definition headRequest (env : Env) (url : jsstring) (timer : Z) : Request :=
  {| req_method := HEAD; req_url := url; req_timer := timer;
     req_signal := negb (isMobile env) |}.

(** The world after that request. *)
Definition afterHead (env : Env) (url : jsstring) (timer : Z) (w : World)
  : World :=
  nextTick (logEvent (Requested (headRequest env url timer)) w).

(** The window of the timestamps that [extractTikTokPostedDate] accepts. *)
Definition inAcceptedRange (timestamp : Z) : bool :=
  ((1262304000 <? timestamp) && (timestamp <? 1893456000))%Z.

(** The day that the last-modified header of a response denotes, if any. *)
Definition lastModifiedDay (env : Env) (outcome : HeadOutcome)
  : option jsstring :=
  match outcome with
  | HeadResponds _ lastModified =>
      if truthy lastModified then
        match dateOfString env (orElse lastModified []) with
        | Some t => Some (JsDate.dateString t)
        | None => None
        end
      else None
  | HeadFails _ => None
  end.



(** Where the date strings of a record come from: a reading of the clock, a
    timestamp accepted from the identifier, or a last-modified header that
    parses to a date. *)
Definition dateSource (env : Env) (day : jsstring) : Prop :=
  (∃ n, day = JsDate.dateString (clockAt env n))
  ∨ (∃ timestamp, inAcceptedRange timestamp = true
                  ∧ day = JsDate.dateString (timestamp * 1000))
  ∨ (∃ header t, dateParse env header = Some t ∧ JsDate.validTime t
                 ∧ day = JsDate.dateString t).

Definition datesFrom (env : Env) (data : TikTokData) : Prop :=
  dateSource env (createdDate data) ∧ dateSource env (postedDate data).

(** What the [try] block of the resolver may end with: an error, or a record
    that is not private and whose dates come from these sources. *)
Definition publicOrThrown (env : Env) (r : Res (option TikTokData)) : Prop :=
  match r with
  | Throw _ => True
  | Ok (Some data) => isPrivate data = false ∧ datesFrom env data
  | Ok None => False
  end.

(** The clock and the headers that parse stay within the years 0 to 9999. *)
Definition fourDigitYears (env : Env) : Prop :=
  (∀ n, 0 ≤ JsDate.yearOfTime (clockAt env n) ≤ 9999)%Z
  ∧ (∀ header t, dateParse env header = Some t →
                 0 ≤ JsDate.yearOfTime t ≤ 9999)%Z.

(** The signal on which a resolution is handed to the private-content
    handling. On desktop, for an address that is no slideshow: the lookup at
    the metadata endpoint ends in an error in which [detectPrivateVideo]
    finds an indicator of private content. On mobile, where the address is
    never expanded: the address is no slideshow and shows no author or no
    identifier. *)
Definition privateSignal (settings : Settings) (env : Env) (url : jsstring)
    (w : World) : bool :=
  negb (includes (lit "/photo/") url)
  && if isMobile env then
       bool_decide (removeFirst (chr "@") (extractAuthorFromUrl url)
                    = lit "Unknown")
       || negb (truthy (extractVideoId url))
     else
       match fetchViaOembed settings env url (extractVideoId url) w with
       | Done (Throw error) _ => detectPrivateVideo error
       | _ => false
       end.

(** The two ways a resolution can go, whatever the private-video policy: it
    hands over to the private-content handling, or it builds a record that is
    not private. *)
Definition routedToPrivate (settings : Settings) (env : Env) (url : jsstring)
    (isBulkProcessing : bool) (w : World) : Prop :=
  ∃ u videoId w1, ∀ policy,
    fetchTikTokData (withPolicy policy settings) env url isBulkProcessing w
    = handlePrivateVideo (withPolicy policy settings) env u videoId
                         isBulkProcessing w1.

Definition resolvedPublic (settings : Settings) (env : Env) (url : jsstring)
    (isBulkProcessing : bool) (w : World) : Prop :=
  ∃ data w', isPrivate data = false ∧ datesFrom env data ∧ ∀ policy,
    fetchTikTokData (withPolicy policy settings) env url isBulkProcessing w
    = Done (Ok (Some data)) w'.

(** ** Sample inputs *)

(** The world before anything happened: an empty vault. *)
Definition startWorld : World := {| vault := ∅; events := []; tick := 0 |}.

(** [DEFAULT_SETTINGS], for the fields modelled. *)
Definition DEFAULT_SETTINGS : Settings :=
  {| outputFolder := lit "TikToks";
     handlePrivateVideos := CreateEmpty;
     urlTimeout := 10;
     enableBulkProcessing := true;
     bypassModalForSingle := true;
     showBulkProcessingProgress := true |}.

(** A desktop on which every network call fails, the user answers
    [duplicate], the file store never fails of its own, and the clock stands
    at 2023-11-14T22:13:20Z. *)
Definition offlineEnv : Env :=
  {| isMobile := false;
     headAt := λ _, HeadFails (newError (lit "Failed to fetch"));
     getAt := λ _, GetThrows (newError (lit "Failed to fetch"));
     clockAt := λ _, 1700000000000%Z;
     promptAt := λ _, Duplicate;
     vaultFaultAt := λ _, None;
     dateParse := λ _, None;
     encodeURIComponent := λ s, Ok s;
     foldsIntoTagClass := λ _, false |}.

(** The same with a metadata endpoint that answers every request with the
    given body. *)
Definition envWithOembed (d : OembedData) : Env :=
  {| isMobile := false;
     headAt := headAt offlineEnv;
     getAt := λ _, GetData d;
     clockAt := clockAt offlineEnv;
     promptAt := promptAt offlineEnv;
     vaultFaultAt := vaultFaultAt offlineEnv;
     dateParse := dateParse offlineEnv;
     encodeURIComponent := encodeURIComponent offlineEnv;
     foldsIntoTagClass := foldsIntoTagClass offlineEnv |}.

(** An environment like [offlineEnv] in which the user answers the
    duplicate-file dialog with [action] and the file store fails as told by
    [faults]. *)
Definition envAnswering (action : DuplicateAction)
    (faults : nat → option Error) : Env :=
  {| isMobile := false;
     headAt := headAt offlineEnv;
     getAt := getAt offlineEnv;
     clockAt := clockAt offlineEnv;
     promptAt := λ _, action;
     vaultFaultAt := faults;
     dateParse := dateParse offlineEnv;
     encodeURIComponent := encodeURIComponent offlineEnv;
     foldsIntoTagClass := foldsIntoTagClass offlineEnv |}.

(** A record as the fallback branch builds it. *)
Definition sampleData : TikTokData :=
  {| author := lit "abc";
     description := lit "TikTok Post";
     hashtags := [];
     url := lit "https://www.tiktok.com/@abc/video/1";
     expandedUrl := lit "https://www.tiktok.com/@abc/video/1";
     embedHtml := lit "<p>TikTok video</p>";
     thumbnailUrl := None;
     videoId := Some (lit "1");
     createdDate := lit "2023-11-14";
     postedDate := lit "2023-11-14";
     oembedFailed := true;
     isSlideshow := false;
     isPrivate := false |}.

(** Stand-ins for the three templates. *)
Definition sampleFileName (data : TikTokData) : jsstring :=
  lit "TikTok by " ++ author data.

Definition sampleNoteTitle (data : TikTokData) : jsstring :=
  createdDate data ++ lit " Tiktok by " ++ author data.

Definition sampleNoteContent (data : TikTokData) : jsstring :=
  embedHtml data.

(** A vault that already holds the note of [sampleData] and a first
    duplicate of it. *)
Definition vaultWithNote : gmap jsstring Entry :=
  <[lit "TikToks/TikTok by abc-1.md" := File (lit "first duplicate")]>
  (<[lit "TikToks/TikTok by abc.md" := File (lit "the note")]>
  (<[lit "TikToks" := Folder]> ∅)).

Definition worldWithNote : World :=
  {| vault := vaultWithNote; events := []; tick := 0 |}.

(** A clipboard text with two URLs. *)
Definition twoUrlsText : jsstring :=
  lit "https://www.tiktok.com/@a/video/1 and https://www.tiktok.com/@b/video/2".

(** An identifier whose upper bits hold 1900000000, a second of
    2030-03-17. *)
Definition idOfMarch2030 : jsstring := lit "8160437862400000000".

(** An oEmbed answer whose title repeats a hashtag. *)
Definition repeatedTagAnswer : OembedData :=
  {| author_name := Some (lit "abc");
     title := JString (lit "Dance #fun #fun");
     thumbnail_url := None;
     html := JFalsy |}.



(** The file store fails at the consultation numbered 2 of the run: after
    the dialog and the deletion, at the creation. *)
Definition failSecondOperation : nat → option Error :=
  λ n, if Nat.eqb n 2 then Some (newError (lit "disk full")) else None.

(** A race that the timer wins in the first iteration only. *)
Definition timeoutOnce : nat → jsstring → Res ItemOutcome :=
  λ n _, match n with
         | O => Throw timeoutError
         | _ => Ok {| o_success := true; o_duplicate := false;
                      o_fileName := None; o_noteTitle := None;
                      o_oembedFailed := false; o_isSlideshow := false;
                      o_isPrivate := false |}
         end.

(** ** The templates *)

(** The fields of [TikTokerSettings] that the templates read. *)
Record TemplateSettings : Type := mkTemplateSettings {
  fileNamingPattern : jsstring;
  noteTitleTemplate : jsstring;
  noteContentTemplate : jsstring;
  enableProperties : bool;
  includeAuthor : bool;
  includeDateCreated : bool;
  includeUrl : bool;
  includeExpandedUrl : bool;
  includeTagsFromHashtags : bool
}.

(** [GetSubstitution] for a pattern without capture groups: in a replacement
    text a dollar sign followed by a dollar sign stands for one dollar sign,
    followed by an ampersand for the match, by a grave accent for the text
    before the match, and by an apostrophe for the text after it. Any other
    code unit stands for itself; so does a dollar sign before a digit, as
    there is no group to refer to. *)
Fixpoint getSubstitution (matched before after replacement : jsstring)
  : jsstring :=
  match replacement with
  | [] => []
  | c :: rest =>
      if (c =? chr "$")%N then
        match rest with
        | d :: rest' =>
            if (d =? chr "$")%N then
              chr "$" :: getSubstitution matched before after rest'
            else if (d =? chr "`")%N then
              before ++ getSubstitution matched before after rest'
            else if (d =? chr "&")%N then
              matched ++ getSubstitution matched before after rest'
            else if (d =? chr "'")%N then
              after ++ getSubstitution matched before after rest'
            else c :: getSubstitution matched before after rest
        | [] => [c]
        end
      else c :: getSubstitution matched before after rest
  end.

(** The text put together from the matches of a global pattern, as
    [RegExp.prototype[Symbol.replace]] does: what lies between two matches is
    kept, each match gives way to its substitution. [from] is the position
    up to which [text] has been dealt with. *)
Fixpoint substitute (text : jsstring) (from : nat)
    (matches : list (nat * jsstring)) (replacement : jsstring) : jsstring :=
  match matches with
  | [] => drop from text
  | (pos, matched) :: matches' =>
      take (pos - from) (drop from text)
      ++ getSubstitution matched (take pos text)
           (drop (pos + length matched) text) replacement
      ++ substitute text (pos + length matched) matches' replacement
  end.

(** [text.replace(pattern, replacement)] for a pattern with the [g] flag and
    a replacement that is a string. *)
Definition replaceAll (pattern : Regex.Matcher) (replacement text : jsstring)
  : jsstring :=
  substitute text 0 (Regex.occurrences pattern text) replacement.

(** [parts.join(separator)] *)
Fixpoint joinWith (separator : jsstring) (parts : list jsstring) : jsstring :=
  match parts with
  | [] => []
  | [part] => part
  | part :: rest => part ++ separator ++ joinWith separator rest
  end.

(** The pattern of a template variable, two opening braces, the name and two
    closing braces: outside the [u] flag a brace that opens no quantifier
    stands for itself. *)
Definition placeholder (name : string) : Regex.Matcher :=
  Regex.str (lit "{{" ++ lit name ++ lit "}}").

(** [/[@#]/]: one of the two signs. *)
Definition isAtOrHash (c : N) : bool := (c =? chr "@")%N || (c =? chr "#")%N.

(** [/[^\w\s-]/]: anything but a word character, white space or a hyphen. *)
Definition isUnsafeForName (c : N) : bool :=
  negb (isWordChar c || isSpace c || (c =? chr "-")%N).

(** [value || fallback] for a string that is always there. *)
Definition textOr (value fallback : jsstring) : jsstring :=
  orElse (Some value) fallback.

Section Templates.

Variable ts : TemplateSettings.
Variable env : Env.

(** The upper-case form of a code unit from 128 on, when it is a single code
    unit, by the case tables of the engine. *)
Variable upperUnit : N → option N.

(** [data.createdDate || data.date || new Date().toISOString().split('T')[0]]:
    no record of this program has a property [date], and the clock is read
    only when [createdDate] is empty. *)
Definition recordDate (data : TikTokData) : M jsstring :=
  if isNonEmpty (createdDate data) then ret (createdDate data) else today env.

(** The file name, once the date is known. *)
Definition fileNameWith (date : jsstring) (data : TikTokData) : jsstring :=
  replaceAll (placeholder "title")
    (replaceAll (Regex.one isUnsafeForName) []
       (take 50 (textOr (description data) (lit "tiktok"))))
  (replaceAll (placeholder "description")
    (trim (replaceAll (Regex.one isUnsafeForName) []
       (take 100 (textOr (description data) (lit "TikTok Video")))))
  (replaceAll (placeholder "videoId") (orElse (videoId data) (lit "unknown"))
  (replaceAll (placeholder "date") date
  (replaceAll (placeholder "author")
    (replaceAll (Regex.one isAtOrHash) []
       (textOr (author data) (lit "unknown")))
    (fileNamingPattern ts))))).

(** [generateFileName(data)] *)
Definition generateFileName (data : TikTokData) : M jsstring :=
  let! date := recordDate data in
  ret (fileNameWith date data).

(** The note title, once the date is known. *)
Definition noteTitleWith (date : jsstring) (data : TikTokData) : jsstring :=
  replaceAll (placeholder "author") (textOr (author data) (lit "Unknown"))
  (replaceAll (placeholder "description")
    (textOr (description data) (lit "Unknown"))
  (replaceAll (placeholder "date") date (noteTitleTemplate ts))).

(** [generateNoteTitle(data)] *)
Definition generateNoteTitle (data : TikTokData) : M jsstring :=
  let! date := recordDate data in
  ret (noteTitleWith date data).

(** The lines of the frontmatter between the date of creation and the
    closing rule. *)
Definition propertiesAfterCreated (data : TikTokData) : jsstring :=
  (if isNonEmpty (postedDate data)
      && negb (bool_decide (postedDate data = createdDate data))
   then lit "posted: " ++ postedDate data ++ [10%N] else [])
  ++ (if includeUrl ts then lit "url: " ++ url data ++ [10%N] else [])
  ++ (if includeExpandedUrl ts && isNonEmpty (expandedUrl data)
         && negb (bool_decide (expandedUrl data = url data))
      then lit "expanded_url: " ++ expandedUrl data ++ [10%N] else [])
  ++ lit "source: " ++ dq ++ lit "#tiktoker" ++ dq ++ [10%N]
  ++ (if includeTagsFromHashtags ts then
        let hashtagTags := map (removeFirst (chr "#")) (hashtags data) in
        let allTags := lit "tiktoker" :: lit "unreviewed" :: hashtagTags in
        lit "tags: [" ++ joinWith (lit ", ") allTags ++ lit "]" ++ [10%N]
      else lit "tags: [tiktoker, unreviewed]" ++ [10%N])
  ++ lit "---" ++ [10%N; 10%N].

(** The frontmatter, once the date is known. *)
Definition propertiesWith (date : jsstring) (data : TikTokData) : jsstring :=
  if enableProperties ts then
    lit "---" ++ [10%N]
    ++ (if includeAuthor ts then lit "author: " ++ author data ++ [10%N]
        else [])
    ++ (if includeDateCreated ts then lit "created: " ++ date ++ [10%N]
        else [])
    ++ propertiesAfterCreated data
  else [].

(** The frontmatter: the date is looked for only when the settings ask for
    it. *)
Definition properties (data : TikTokData) : M jsstring :=
  if enableProperties ts && includeDateCreated ts then
    let! date := recordDate data in
    ret (propertiesWith date data)
  else ret (propertiesWith [] data).

(** [Canonicalize] under the [i] flag, without the [u] flag: the upper-case
    form when it is a single code unit, unless that would turn a code unit
    from 128 on into an ASCII one. *)
Definition canonicalizeUnit (c : N) : N :=
  if (c <? 128)%N then canonicalize c
  else match upperUnit c with
       | Some u => if (u <? 128)%N then c else u
       | None => c
       end.

(** The pattern that [new RegExp] builds from a hashtag in which every
    syntax character has been escaped: the hashtag itself, code unit by code
    unit, under the [i] flag. *)
Fixpoint hashtagPattern (hashtag : jsstring) : Regex.Matcher :=
  match hashtag with
  | [] => Regex.eps
  | c :: rest =>
      Regex.seq (Regex.one (λ x, (canonicalizeUnit x =? canonicalizeUnit c)%N))
                (hashtagPattern rest)
  end.

(** The description without its hashtags: each hashtag of the record is
    removed wherever it occurs and the text trimmed, one hashtag after the
    other; then every run of white space becomes one blank. *)
Definition cleanDescription (data : TikTokData) : jsstring :=
  match hashtags data with
  | [] => description data
  | _ :: _ =>
      let removed :=
        fold_left (λ text hashtag,
                     trim (replaceAll (hashtagPattern hashtag) [] text))
                  (hashtags data) (description data) in
      trim (replaceAll (Regex.plus isSpace) (lit " ") removed)
  end.

(** The body of the note: the content template with its variables replaced
    one after the other. *)
Definition noteBody (data : TikTokData) : jsstring :=
  let embed := textOr (embedHtml data) (lit "TikTok video embed not available") in
  let tags := joinWith (lit " ") (hashtags data ++ [lit "#tiktoker"]) in
  replaceAll (placeholder "transcription") []
  (replaceAll (placeholder "hashtags") tags
  (replaceAll (placeholder "description") (cleanDescription data)
  (replaceAll (placeholder "iframe") embed (noteContentTemplate ts)))).

(** [generateNoteContent(data)] *)
Definition generateNoteContent (data : TikTokData) : M jsstring :=
  let! content := properties data in
  ret (content ++ noteBody data).

End Templates.

(** ** The progress and the summary of a bulk run *)

Section BulkProgress.

Variable race : nat → jsstring → Res ItemOutcome.
Variable urls : list jsstring.

(** The values of [processed + 1] that the loop hands to
    [modal.updateProgress], one at the head of each iteration, for at most
    [fuel] iterations. The dialog was built for [urls.length] items. *)
Fixpoint progressShown (fuel : nat) (st : BulkState) : list nat :=
  match processingQueue st with
  | [] => []
  | url :: rest =>
      match fuel with
      | O => []
      | S fuel' =>
          S (processed st) :: progressShown fuel' (bulkIteration race urls st url rest)
      end
  end.

End BulkProgress.

(** The entry that an iteration pushes to [results] when it does not put the
    URL back into the queue. *)
Definition recorded (url : jsstring) (settled : Res ItemOutcome) : BulkResult :=
  match settled with
  | Ok result =>
      {| r_url := url; r_success := o_success result;
         r_error := None; r_outcome := Some result |}
  | Throw error =>
      {| r_url := url; r_success := false;
         r_error := message error; r_outcome := None |}
  end.

(** The properties of an entry of [results] that the summary reads: an entry
    pushed after an error has none of them, and [undefined] is falsy. *)
Definition flagOf (flag : ItemOutcome → bool) (r : BulkResult) : bool :=
  match r_outcome r with
  | Some result => flag result
  | None => false
  end.

(** The six lists that [showBulkProcessingResults] filters out of
    [results], which are also the fields of the detailed dialog. *)
Record ResultGroups : Type := mkResultGroups {
  successful : list BulkResult;
  failed : list BulkResult;
  duplicates : list BulkResult;
  oembedFailedResults : list BulkResult;
  slideshows : list BulkResult;
  skippedPrivate : list BulkResult
}.

Definition groupResults (results : list BulkResult) : ResultGroups :=
  {| successful := List.filter r_success results;
     failed := List.filter
       (λ r, negb (r_success r) && negb (flagOf o_duplicate r)
             && negb (flagOf o_isPrivate r)) results;
     skippedPrivate := List.filter (flagOf o_isPrivate) results;
     duplicates := List.filter (flagOf o_duplicate) results;
     oembedFailedResults := List.filter
       (λ r, r_success r && flagOf o_oembedFailed r
             && negb (flagOf o_isSlideshow r)) results;
     slideshows := List.filter
       (λ r, r_success r && flagOf o_isSlideshow r) results |}.

(** One part of the summary: the label and the length of the group, when
    the group is not empty. *)
Definition summaryPart (label : jsstring) (group : list BulkResult)
  : list jsstring :=
  if bool_decide (0 < length group)
  then [label ++ decimal (N.of_nat (length group))]
  else [].

Definition summaryParts (g : ResultGroups) : list jsstring :=
  summaryPart (9989%N :: lit " Created: ") (successful g)
  ++ summaryPart ([9888%N; 65039%N] ++ lit " Duplicates: ") (duplicates g)
  ++ summaryPart ([55357%N; 56568%N] ++ lit " Slideshows: ") (slideshows g)
  ++ summaryPart ([55357%N; 56580%N] ++ lit " Fallback: ") (oembedFailedResults g)
  ++ summaryPart ([55357%N; 56594%N] ++ lit " Private: ") (skippedPrivate g)
  ++ summaryPart (10060%N :: lit " Failed: ") (failed g).

(** The condition under which the detailed dialog is opened. *)
Definition needsDetails (g : ResultGroups) : bool :=
  bool_decide (0 < length (duplicates g))
  || bool_decide (0 < length (failed g))
  || bool_decide (0 < length (oembedFailedResults g))
  || bool_decide (0 < length (slideshows g))
  || bool_decide (0 < length (skippedPrivate g)).

(** [showBulkProcessingResults(results)]: the one notice of the summary,
    and the detailed dialog, which is returned when it is opened. What the
    buttons of the dialog do, a further bulk run for the failed addresses
    among it, belongs to the dialog. *)
Definition showBulkProcessingResults (results : list BulkResult)
  : M (option ResultGroups) :=
  let g := groupResults results in
  let! _ := notice (joinWith [32%N; 8226%N; 32%N] (summaryParts g)) in
  if needsDetails g then ret (Some g) else ret None.

(** A result that needs no further look: a note created from the answer of
    the metadata endpoint for a public video. *)
Definition plainSuccess (r : BulkResult) : bool :=
  r_success r && negb (flagOf o_duplicate r) && negb (flagOf o_oembedFailed r)
  && negb (flagOf o_isSlideshow r) && negb (flagOf o_isPrivate r).

(** [DEFAULT_SETTINGS], for the fields that the templates read. *)
Definition DEFAULT_TEMPLATE_SETTINGS : TemplateSettings :=
  {| fileNamingPattern := lit "TikTok by {{author}} on {{description}}";
     noteTitleTemplate := lit "{{date}} Tiktok on {{description}} by {{author}}";
     noteContentTemplate :=
       lit "{{iframe}}" ++ [10%N; 10%N] ++ lit "## Description" ++ [10%N]
       ++ lit "{{description}}" ++ [10%N; 10%N] ++ lit "## Hashtags" ++ [10%N]
       ++ lit "{{hashtags}}" ++ [10%N; 10%N] ++ lit "{{transcription}}";
     enableProperties := true;
     includeAuthor := true;
     includeDateCreated := true;
     includeUrl := true;
     includeExpandedUrl := false;
     includeTagsFromHashtags := true |}.

(** ** The dialog of the results *)

(** The three actions as the dialog names them. *)
Definition actionName (action : DuplicateAction) : jsstring :=
  match action with
  | Replace => lit "replace"
  | Duplicate => lit "duplicate"
  | SkipFile => lit "skip"
  end.

Section ResultsDialog.

Variable settings : Settings.
Variable env : Env.

(** The templates, as in the note writer. *)
Variable generateFileName : TikTokData → jsstring.
Variable generateNoteTitle : TikTokData → jsstring.
Variable generateNoteContent : TikTokData → jsstring.

(** Whether [plugins.getPlugin('tiktoker')] finds the plugin. *)
Variable pluginFound : bool.

(** What the [duplicates] list is without the entries of an address. *)
Definition withoutAddress (address : jsstring) (duplicates : list BulkResult)
  : list BulkResult :=
  List.filter (λ item, negb (bool_decide (r_url item = address))) duplicates.

(** [handleDuplicateAction(url, action)] of the dialog, with the list
    [this.duplicates] passed in and returned. After a success the dialog is
    drawn again from the new list. *)
Definition handleDuplicateAction (fuel : nat) (duplicates : list BulkResult)
    (address : jsstring) (action : DuplicateAction) : M (list BulkResult) :=
  match List.find (λ item, bool_decide (r_url item = address)) duplicates with
  | None => ret duplicates
  | Some _ =>
      tryCatch
        (if pluginFound then
           let! _ := notice (lit "Processing duplicate: " ++ actionName action) in
           let! expanded := expandUrl settings env address in
           let! tikTokData := fetchTikTokData settings env expanded false in
           let! _ :=
             match action with
             | Replace =>
                 match tikTokData with
                 | None => throw (newError (lit "Cannot read properties of null"))
                 | Some data =>
                     let folderPath := outputFolder settings in
                     let fileName := generateFileName data in
                     let filePath := notePath folderPath fileName in
                     let! existingFile := getAbstractFileByPath filePath in
                     let! _ :=
                       match existingFile with
                       | Some _ => delete_ env filePath
                       | None => ret tt
                       end in
                     let noteContent := generateNoteContent data in
                     let! _ := create env filePath noteContent in
                     notice (lit "File replaced")
                 end
             | Duplicate =>
                 let! _ := createTikTokNote settings env generateFileName
                             generateNoteTitle generateNoteContent fuel
                             tikTokData false in
                 notice (lit "Duplicate file created")
             | SkipFile => ret tt
             end in
           ret (withoutAddress address duplicates)
         else ret duplicates)
        (λ _,
           let! _ := notice (lit "Failed to process duplicate") in
           ret duplicates)
  end.

(** The loop of [handleBulkDuplicateAction] over the addresses listed when
    it began. *)
Fixpoint handleEachDuplicate (fuel : nat) (addresses : list jsstring)
    (duplicates : list BulkResult) (action : DuplicateAction)
  : M (list BulkResult) :=
  match addresses with
  | [] => ret duplicates
  | address :: rest =>
      let! remaining := handleDuplicateAction fuel duplicates address action in
      handleEachDuplicate fuel rest remaining action
  end.

(** [handleBulkDuplicateAction(action)], for [replace] or [duplicate]: when
    no duplicate is left the dialog says so and closes. *)
Definition handleBulkDuplicateAction (fuel : nat) (duplicates : list BulkResult)
    (action : DuplicateAction) : M (list BulkResult) :=
  let addresses := map r_url duplicates in
  let! remaining := handleEachDuplicate fuel addresses duplicates action in
  let! _ :=
    match remaining with
    | [] =>
        notice (lit "All duplicates "
                ++ match action with
                   | Replace => lit "replaced"
                   | _ => lit "created"
                   end)
    | _ :: _ => ret tt
    end in
  ret remaining.

End ResultsDialog.

(** ** Notions about the effects of a computation *)

Definition isRequest (ev : Event) : bool :=
  match ev with Requested _ => true | _ => false end.

Definition isNotice (ev : Event) : bool :=
  match ev with Notice _ => true | _ => false end.

(** The events that the resolver may add to the log: requests, and notices
    outside batch mode. *)
Definition resolverEvent (isBulkProcessing : bool) (ev : Event) : bool :=
  isRequest ev || (negb isBulkProcessing && isNotice ev).

(** [m] always comes to an end, leaves the vault as it is and adds to the log
    only events that [allowed] admits. *)
Definition confined {A} (allowed : Event → bool) (m : M A) : Prop :=
  ∀ w, ∃ r w' added,
    m w = Done r w' ∧ vault w' = vault w
    ∧ events w' = events w ++ added ∧ forallb allowed added = true.

(** Whatever [m] returns satisfies [P]. *)
Definition yields {A} (P : A → Prop) (m : M A) : Prop :=
  ∀ w a w', m w = Done (Ok a) w' → P a.

(** The error that the resolver throws for a response that is not [ok]. *)
Definition statusError (statusCode : N) : Error :=
  newError (lit "oEmbed request failed: " ++ decimal statusCode).

(** The world after the GET of the metadata endpoint for the encoded
    address. *)
Definition afterOembedRequest (settings : Settings) (encoded : jsstring)
    (w : World) : World :=
  nextTick (logEvent (Requested
    {| req_method := GET;
       req_url := lit "https://www.tiktok.com/oembed?url=" ++ encoded;
       req_timer := urlTimeout settings * 1000;
       req_signal := true |}) w).

(** The beginnings that the first pattern of [isTikTokUrl] accepts: a
    scheme, [www.] or nothing, and one of the two hosts. *)
Definition acceptedBeginnings : list jsstring :=
  scheme ← [lit "http://"; lit "https://"];
  www ← [lit "www."; []];
  host ← [lit "tiktok.com"; lit "vm.tiktok.com"];
  [scheme ++ www ++ host].

(** The output folder is named and the vault lacks it. *)
Definition folderMissing (settings : Settings) (w : World) : bool :=
  isNonEmpty (outputFolder settings)
  && negb (bool_decide (is_Some (vault w !! outputFolder settings))).

(** ** Notions about the templates *)

(** The replacement of the matches in [text] when [text] follows [done] in
    the whole text. *)
Definition replaceFrom (pattern : Regex.Matcher) (replacement done text : jsstring)
  : jsstring :=
  substitute (done ++ text) (length done)
             (Regex.scan pattern (length done) 0 text) replacement.

(** No code unit of [text] is [c]. *)
Definition freeOf (c : N) (text : jsstring) : bool :=
  forallb (λ x, negb (x =? c)%N) text.

(** A value that a template takes as it is: it holds no dollar sign, which a
    replacement text reads as a command, and no opening brace, with which a
    template variable begins. *)
Definition plainValue (text : jsstring) : bool :=
  freeOf (chr "$") text && freeOf (chr "{") text.

(** [text] differs from [literal] at a code unit that both have: [literal]
    does not match at the head of [text], whatever follows [text]. *)
Fixpoint mismatch (literal text : jsstring) : bool :=
  match literal, text with
  | p :: literal', c :: text' =>
      if (p =? c)%N then mismatch literal' text' else true
  | _, _ => false
  end.

(** No match of [literal] begins inside [text], whatever follows [text]. *)
Fixpoint mismatches (literal text : jsstring) : bool :=
  match text with
  | [] => true
  | _ :: text' => mismatch literal text && mismatches literal text'
  end.

(** The code units that [generateFileName] lets through in a description:
    word characters, white space and the hyphen. *)
Definition isSafeForName (c : N) : bool :=
  isWordChar c || isSpace c || (c =? chr "-")%N.

(** [text] without the code units of a class. *)
Definition without (cls : N → bool) (text : jsstring) : jsstring :=
  List.filter (λ c, negb (cls c)) text.

(** The settings with the switch of the expanded address set. *)
Definition withExpandedUrl (enabled : bool) (ts : TemplateSettings)
  : TemplateSettings :=
  {| fileNamingPattern := fileNamingPattern ts;
     noteTitleTemplate := noteTitleTemplate ts;
     noteContentTemplate := noteContentTemplate ts;
     enableProperties := enableProperties ts;
     includeAuthor := includeAuthor ts;
     includeDateCreated := includeDateCreated ts;
     includeUrl := includeUrl ts;
     includeExpandedUrl := enabled;
     includeTagsFromHashtags := includeTagsFromHashtags ts |}.

(** The three templates as functions of the record alone, for a record that
    has its date of creation. *)
Definition fileNameFor (ts : TemplateSettings) (data : TikTokData) : jsstring :=
  fileNameWith ts (createdDate data) data.

Definition noteTitleFor (ts : TemplateSettings) (data : TikTokData) : jsstring :=
  noteTitleWith ts (createdDate data) data.

Definition noteContentFor (ts : TemplateSettings) (upperUnit : N → option N)
    (data : TikTokData) : jsstring :=
  propertiesWith ts (createdDate data) data ++ noteBody ts upperUnit data.

(** [m] always comes to an end and adds to the log only events that
    [allowed] admits; the vault may change. *)
Definition logsOnly {A} (allowed : Event → bool) (m : M A) : Prop :=
  ∀ w, ∃ r w' added,
    m w = Done r w'
    ∧ events w' = events w ++ added ∧ forallb allowed added = true.

(** ** Further sample inputs *)

(** [offlineEnv] on a mobile device. *)
Definition offlineMobileEnv : Env :=
  {| isMobile := true;
     headAt := headAt offlineEnv;
     getAt := getAt offlineEnv;
     clockAt := clockAt offlineEnv;
     promptAt := promptAt offlineEnv;
     vaultFaultAt := vaultFaultAt offlineEnv;
     dateParse := dateParse offlineEnv;
     encodeURIComponent := encodeURIComponent offlineEnv;
     foldsIntoTagClass := foldsIntoTagClass offlineEnv |}.

(** A desktop whose metadata endpoint answers with the given status, which
    is not ok, and on which the user answers the dialog with [action]. *)
Definition envWithStatus (statusCode : N) (action : DuplicateAction) : Env :=
  {| isMobile := false;
     headAt := headAt offlineEnv;
     getAt := λ _, GetNotOk statusCode;
     clockAt := clockAt offlineEnv;
     promptAt := λ _, action;
     vaultFaultAt := vaultFaultAt offlineEnv;
     dateParse := dateParse offlineEnv;
     encodeURIComponent := encodeURIComponent offlineEnv;
     foldsIntoTagClass := foldsIntoTagClass offlineEnv |}.

Definition sampleAddress : jsstring := lit "https://www.tiktok.com/@abc/video/1".

Definition sampleShortLink : jsstring := lit "https://vm.tiktok.com/ZM8abc/".

(** A race that an error of the file store settles, every time. *)
Definition alwaysFails : nat → jsstring → Res ItemOutcome :=
  λ _ _, Throw (newError (lit "Folder already exists.")).

(** The races of a bulk run on the mobile device, each settled by
    [processTikTokUrlBulk] from an empty vault. *)
Definition mobileRace : nat → jsstring → Res ItemOutcome :=
  λ _ address,
    match processTikTokUrlBulk DEFAULT_SETTINGS offlineMobileEnv sampleFileName
            sampleNoteTitle sampleNoteContent 0 address startWorld with
    | Done settled _ => settled
    | OutOfFuel => Throw timeoutError
    end.

(** A record whose description holds two dollar signs in a row. *)
Definition dollarData : TikTokData :=
  {| author := lit "abc";
     description := lit "Win $$ now";
     hashtags := [];
     url := sampleAddress;
     expandedUrl := sampleAddress;
     embedHtml := lit "<p>TikTok video</p>";
     thumbnailUrl := None;
     videoId := Some (lit "1");
     createdDate := lit "2023-11-14";
     postedDate := lit "2023-11-14";
     oembedFailed := false;
     isSlideshow := false;
     isPrivate := false |}.

(** A record whose description is a hashtag and a longer one that begins
    with it. *)
Definition catsData : TikTokData :=
  {| author := lit "abc";
     description := lit "#cat #cats";
     hashtags := [lit "#cat"; lit "#cats"];
     url := sampleAddress;
     expandedUrl := sampleAddress;
     embedHtml := lit "<p>TikTok video</p>";
     thumbnailUrl := None;
     videoId := Some (lit "1");
     createdDate := lit "2023-11-14";
     postedDate := lit "2023-11-14";
     oembedFailed := false;
     isSlideshow := false;
     isPrivate := false |}.

(** No code unit from 128 on has an upper-case form. *)
Definition noUpperCase : N → option N := λ _, None.

(** The list of the duplicates after a bulk run that found the note of
    [sampleAddress] in the vault. *)
Definition sampleDuplicates : list BulkResult :=
  [ recorded sampleAddress
      (Ok {| o_success := false; o_duplicate := true;
             o_fileName := Some (lit "TikTok by abc");
             o_noteTitle := Some (lit "2023-11-14 Tiktok by abc");
             o_oembedFailed := true; o_isSlideshow := false;
             o_isPrivate := false |}) ].

(** * Properties *)

(** ** Strings *)

Lemma takeWhile_app_stop (p : N → bool) (l : jsstring) (c : N) (r : jsstring) :
  Forall (λ x, p x = true) l → p c = false →
  takeWhile p (l ++ c :: r) = l.
Proof.
  intros Hl Hc. induction Hl as [|x l Hx Hl IH]; simpl.
  - rewrite Hc. reflexivity.
  - rewrite Hx, IH. reflexivity.
Qed.

Lemma digitsValue_snoc (l : jsstring) (c : N) :
  digitsValue (l ++ [c]) = (10 * digitsValue l + (Z.of_N c - 48))%Z.
Proof. unfold digitsValue. rewrite fold_left_app. reflexivity. Qed.

(** ** Dates *)

Module JsDateFacts.

Import JsDate.
Local Open Scope Z_scope.

Ltac bool_to_prop :=
  repeat rewrite ?andb_true_iff, ?orb_true_iff, ?andb_false_iff,
    ?orb_false_iff, ?negb_true_iff, ?negb_false_iff, ?Z.leb_le, ?Z.ltb_lt,
    ?Z.eqb_eq, ?Z.leb_gt, ?Z.ltb_ge, ?Z.eqb_neq in *.

Lemma digitN_range n : (48 <= digitN n <= 57)%N.
Proof.
  unfold digitN. pose proof (Z.mod_pos_bound n 10 ltac:(lia)). lia.
Qed.

Lemma digitN_value n : Z.of_N (digitN n) - 48 = n mod 10.
Proof.
  unfold digitN. pose proof (Z.mod_pos_bound n 10 ltac:(lia)). lia.
Qed.

Lemma isDigit_digitN n : isDigit (digitN n) = true.
Proof.
  unfold isDigit, inRange. pose proof (digitN_range n).
  apply andb_true_iff. split; apply N.leb_le; lia.
Qed.

Lemma pad_length w : ∀ n, length (pad w n) = w.
Proof.
  induction w as [|w IH]; intros n; simpl; [reflexivity|].
  rewrite length_app, IH. simpl. lia.
Qed.

Lemma pad_digits w : ∀ n, Forall (λ c, isDigit c = true) (pad w n).
Proof.
  induction w as [|w IH]; intros n; simpl; [constructor|].
  apply Forall_app. split; [apply IH|].
  constructor; [apply isDigit_digitN|constructor].
Qed.

Lemma pad_value w : ∀ n, 0 <= n < 10 ^ Z.of_nat w → digitsValue (pad w n) = n.
Proof.
  induction w as [|w IH]; intros n Hn.
  - simpl in *. unfold digitsValue. simpl. lia.
  - cbn [pad]. rewrite digitsValue_snoc, digitN_value.
    rewrite Nat2Z.inj_succ, Z.pow_succ_r in Hn by lia.
    rewrite IH by (Z.div_mod_to_equations; lia).
    Z.div_mod_to_equations; lia.
Qed.

Lemma civilOfEra_valid era doe :
  0 <= doe <= 146096 →
  let '(y, m, d) := civilOfEra era doe in validDay y m d = true.
Proof.
  intros Hdoe. unfold civilOfEra.
  set (yoe := (doe - doe / 1460 + doe / 36524 - doe / 146096) / 365).
  set (doy := doe - (365 * yoe + yoe / 4 - yoe / 100)).
  set (mp := (5 * doy + 2) / 153).
  assert (Hdoy : 0 <= doy <= 365)
    by (subst doy yoe; Z.div_mod_to_equations; lia).
  assert (Hleap : doy = 365 → isLeap (yoe + era * 400 + 1) = true).
  { intros H365. unfold isLeap.
    assert (((yoe + era * 400 + 1) mod 4 = 0
             ∧ (yoe + era * 400 + 1) mod 100 ≠ 0)
            ∨ (yoe + era * 400 + 1) mod 400 = 0) as [[H4 H100]|H400]
      by (subst doy yoe; Z.div_mod_to_equations; lia).
    - apply Z.eqb_eq in H4. apply Z.eqb_neq in H100.
      rewrite H4, H100. reflexivity.
    - apply Z.eqb_eq in H400. rewrite H400. apply orb_true_r. }
  assert (Hmp : 0 <= mp <= 11) by (subst mp; Z.div_mod_to_equations; lia).
  set (d := doy - (153 * mp + 2) / 5 + 1).
  assert (Hd : 1 <= d <= 31
               ∧ (mp = 1 ∨ mp = 3 ∨ mp = 6 ∨ mp = 8 → d <= 30)
               ∧ (mp = 11 → d <= 29 ∧ (d = 29 → doy = 365))).
  { subst d mp. clearbody doy. clear -Hdoy. Z.div_mod_to_equations. lia. }
  clearbody d mp doy yoe.
  unfold validDay, daysInMonth.
  repeat match goal with
         | |- context [if ?b then _ else _] => destruct b eqn:?
         end;
    bool_to_prop; try lia.
  all: repeat match goal with
              | H : context [if ?b then _ else _] |- _ => destruct b eqn:?
              end;
    bool_to_prop; try lia.
  all: assert (doy ≠ 365) by (intros E; specialize (Hleap E); congruence); lia.
Qed.

Lemma civil_valid day :
  let '(y, m, d) := civil day in validDay y m d = true.
Proof.
  unfold civil. apply civilOfEra_valid.
  Z.div_mod_to_equations; lia.
Qed.

Lemma civil_year_bound t :
  validTime t → -272000 <= yearOfTime t <= 276000.
Proof.
  unfold validTime, maxTime, yearOfTime, civil, civilOfEra, msPerDay.
  intros Ht. cbn [fst].
  match goal with |- context [if ?b then 1 else 0] => destruct b end;
    Z.div_mod_to_equations; lia.
Qed.

Lemma pad_not_T w n : Forall (λ c, negb (c =? chr "T")%N = true) (pad w n).
Proof.
  eapply Forall_impl; [apply pad_digits|].
  intros c Hc. unfold isDigit, inRange in Hc.
  apply andb_true_iff in Hc as [H1 H2].
  apply N.leb_le in H1, H2. apply negb_true_iff, N.eqb_neq.
  change (chr "T") with 84%N. lia.
Qed.

Lemma yearString_not_T y :
  Forall (λ c, negb (c =? chr "T")%N = true) (yearString y).
Proof.
  unfold yearString. destruct ((0 <=? y) && (y <=? 9999)).
  - apply pad_not_T.
  - constructor; [|apply pad_not_T]. destruct (y <? 0); reflexivity.
Qed.

Lemma dateString_not_T t :
  Forall (λ c, negb (c =? chr "T")%N = true) (dateString t).
Proof.
  unfold dateString. destruct (civil (t / msPerDay)) as [[y m] d].
  change (lit "-") with [chr "-"].
  apply Forall_app_2; [apply yearString_not_T|].
  apply Forall_cons_2; [reflexivity|].
  apply Forall_app_2; [apply pad_not_T|].
  apply Forall_cons_2; [reflexivity|].
  apply pad_not_T.
Qed.

(** The day of a valid date is its date string. *)
Lemma isoDay_Some t : isoDay (Some t) = Ok (dateString t).
Proof.
  unfold isoDay, toISOString, beforeT. f_equal.
  change (lit "T") with [chr "T"]. cbn [app].
  apply takeWhile_app_stop; [apply dateString_not_T|].
  reflexivity.
Qed.

Lemma ofTime_valid t : validTime t → ofTime t = Some t.
Proof.
  unfold validTime, ofTime. intros [H1 H2].
  apply Z.leb_le in H1, H2. rewrite H1, H2. reflexivity.
Qed.

Lemma ofTime_Some t t' : ofTime t = Some t' → t' = t ∧ validTime t.
Proof.
  unfold ofTime, validTime.
  destruct ((- maxTime <=? t) && (t <=? maxTime)) eqn:H; [|discriminate].
  intros [= <-]. bool_to_prop. auto.
Qed.

(** What [toISOString] prints before the [T] is a well-formed calendar
    date, for every time value that a [Date] can hold. *)
Lemma dateString_wellformed t : validTime t → isIsoDate (dateString t) = true.
Proof.
  intros Ht. unfold dateString.
  pose proof (civil_valid (t / msPerDay)) as Hv.
  pose proof (civil_year_bound t Ht) as Hy. unfold yearOfTime in Hy.
  destruct (civil (t / msPerDay)) as [[y m] d]. cbn [fst] in Hy.
  assert (Hm : 1 <= m <= 12 ∧ 1 <= d <= 31).
  { unfold validDay, daysInMonth in Hv.
    repeat match goal with
           | H : context [if ?b then _ else _] |- _ => destruct b
           end; bool_to_prop; lia. }
  assert (Hmv : digitsValue (pad 2 m) = m) by (apply pad_value; simpl; lia).
  assert (Hdv : digitsValue (pad 2 d) = d) by (apply pad_value; simpl; lia).
  pose proof (pad_digits 2 m) as Hmd. pose proof (pad_digits 2 d) as Hdd.
  cbn [pad app] in Hmv, Hdv, Hmd, Hdd |- *.
  apply Forall_cons in Hmd as [Hm1 Hmd]. apply Forall_cons in Hmd as [Hm2 _].
  apply Forall_cons in Hdd as [Hd1 Hdd]. apply Forall_cons in Hdd as [Hd2 _].
  change (lit "-") with [chr "-"].
  unfold yearString. destruct ((0 <=? y) && (y <=? 9999)) eqn:Hrange.
  - bool_to_prop.
    assert (Hyv : digitsValue (pad 4 y) = y) by (apply pad_value; simpl; lia).
    pose proof (pad_digits 4 y) as Hyd.
    cbn [pad app] in Hyv, Hyd |- *.
    repeat (apply Forall_cons in Hyd as [? Hyd]).
    cbn [isIsoDate forallb].
    rewrite Hyv, Hmv, Hdv, Hv.
    repeat match goal with H : isDigit _ = true |- _ => rewrite H; clear H end.
    reflexivity.
  - assert (Hyv : digitsValue (pad 6 (Z.abs y)) = Z.abs y)
      by (apply pad_value; simpl; lia).
    pose proof (pad_digits 6 (Z.abs y)) as Hyd.
    cbn [pad app] in Hyv, Hyd |- *.
    repeat (apply Forall_cons in Hyd as [? Hyd]).
    destruct (Z.ltb_spec y 0) as [Hneg|Hpos]; cbn [isIsoDate forallb];
      rewrite Hyv, Hmv, Hdv;
      repeat match goal with H : isDigit _ = true |- _ => rewrite H; clear H end.
    + replace (- Z.abs y) with y by lia. rewrite Hv. reflexivity.
    + replace (Z.abs y) with y by lia. rewrite Hv. reflexivity.
Qed.

(** In the years 0 to 9999 it has the plain form [YYYY-MM-DD]. *)
Lemma dateString_four_digit t :
  validTime t → 0 <= yearOfTime t <= 9999 →
  isFourDigitYearDate (dateString t) = true.
Proof.
  intros Ht Hy. unfold isFourDigitYearDate.
  rewrite dateString_wellformed by exact Ht.
  apply bool_decide_eq_true. unfold dateString, yearOfTime in *.
  destruct (civil (t / msPerDay)) as [[y m] d]. cbn [fst] in Hy.
  unfold yearString.
  replace ((0 <=? y) && (y <=? 9999)) with true
    by (symmetry; bool_to_prop; lia).
  rewrite !length_app, !pad_length. reflexivity.
Qed.

End JsDateFacts.

(** ** URL discovery *)

Section ScanFacts.

Variable m : Regex.Matcher.

Lemma scan_positions_ge (s : jsstring) : ∀ pos skip o,
  o ∈ Regex.scan m pos skip s → pos ≤ o.1.
Proof.
  induction s as [|c s IH]; intros pos skip o Ho; simpl in Ho.
  - inversion Ho.
  - destruct skip as [|k].
    + destruct (head (m (c :: s))) as [rest|].
      * apply elem_of_cons in Ho as [->|Ho]; [simpl; lia|].
        apply IH in Ho. lia.
      * apply IH in Ho. lia.
    + apply IH in Ho. lia.
Qed.

(** The matches are found at strictly increasing positions. *)
Lemma scan_sorted (s : jsstring) : ∀ pos skip,
  StronglySorted (λ a b : nat * jsstring, a.1 < b.1) (Regex.scan m pos skip s).
Proof.
  induction s as [|c s IH]; intros pos skip; simpl.
  - constructor.
  - destruct skip as [|k]; [|apply IH].
    destruct (head (m (c :: s))) as [rest|]; [|apply IH].
    constructor; [apply IH|].
    apply Forall_forall. intros o Ho.
    apply scan_positions_ge in Ho. simpl. lia.
Qed.

(** Each match is the text found at its position. *)
Lemma scan_substring (s : jsstring) : ∀ pos skip o,
  o ∈ Regex.scan m pos skip s →
  take (length o.2) (drop (o.1 - pos) s) = o.2.
Proof.
  induction s as [|c s IH]; intros pos skip o Ho; simpl in Ho.
  - inversion Ho.
  - assert (Htail : ∀ k, o ∈ Regex.scan m (S pos) k s →
                         take (length o.2) (drop (o.1 - pos) (c :: s)) = o.2).
    { intros k Hk. pose proof (scan_positions_ge _ _ _ _ Hk) as Hge.
      destruct o as [q u]. cbn [fst snd] in *.
      replace (q - pos) with (S (q - S pos)) by (clear -Hge; lia).
      simpl drop. exact (IH (S pos) k (q, u) Hk). }
    destruct skip as [|k]; [|eapply Htail, Ho].
    destruct (head (m (c :: s))) as [rest|]; [|eapply Htail, Ho].
    apply elem_of_cons in Ho as [->|Ho]; [|eapply Htail, Ho].
    cbn [fst snd]. rewrite Nat.sub_diag. cbn [drop].
    rewrite length_take. f_equal. cbn [length]. lia.
Qed.

End ScanFacts.

Section FirstOccurrence.

(** The matches of a scan. *)
Variable occ : list (nat * jsstring).
Hypothesis occ_sorted : StronglySorted (λ a b : nat * jsstring, a.1 < b.1) occ.

Lemma firstIn_app l1 l2 u :
  firstIn (l1 ++ l2) u =
  match firstIn l1 u with Some p => Some p | None => firstIn l2 u end.
Proof.
  unfold firstIn. induction l1 as [|o l1 IH]; simpl; [reflexivity|].
  destruct (bool_decide (o.2 = u)); [reflexivity|exact IH].
Qed.

Lemma firstIn_None l u : u ∉ map snd l → firstIn l u = None.
Proof.
  unfold firstIn. induction l as [|o l IH]; simpl; intros Hu; [reflexivity|].
  apply not_elem_of_cons in Hu as [Hne Hu].
  rewrite bool_decide_eq_false_2 by congruence. apply IH, Hu.
Qed.

Lemma firstIn_Some l u : u ∈ map snd l → ∃ p, firstIn l u = Some p ∧ (p, u) ∈ l.
Proof.
  unfold firstIn. induction l as [|[q v] l IH]; simpl; intros Hu.
  - inversion Hu.
  - destruct (bool_decide (v = u)) eqn:Hv.
    + apply bool_decide_eq_true in Hv as ->. exists q. split; [reflexivity|].
      left.
    + apply bool_decide_eq_false in Hv.
      apply elem_of_cons in Hu as [->|Hu]; [done|].
      destruct (IH Hu) as (p & Hp & Hin). exists p. split; [exact Hp|].
      right. exact Hin.
Qed.

(** Adding the strings of the matches to a [Set] in the order of the scan
    keeps them in the order of their first matches. *)
Lemma uniqueInOrder_sorted_from (rest : list (nat * jsstring)) :
  ∀ (done : list (nat * jsstring)) (acc : list jsstring),
  occ = done ++ rest →
  (∀ u, u ∈ acc ↔ u ∈ map snd done) →
  StronglySorted (before occ) acc →
  StronglySorted (before occ) (fold_left setAdd (map snd rest) acc).
Proof.
  induction rest as [|[p u] rest IH]; intros done acc Hocc Hacc Hsorted;
    simpl; [exact Hsorted|].
  assert (Hocc' : occ = (done ++ [(p, u)]) ++ rest)
    by (rewrite <- app_assoc; exact Hocc).
  unfold setAdd at 2. destruct (bool_decide (u ∈ acc)) eqn:Hin.
  - apply bool_decide_eq_true in Hin.
    apply (IH (done ++ [(p, u)])); [exact Hocc'| |exact Hsorted].
    intros v. rewrite map_app, elem_of_app, <- Hacc. simpl.
    rewrite list_elem_of_singleton. split; [auto|].
    intros [Hv| ->]; assumption.
  - apply bool_decide_eq_false in Hin.
    apply (IH (done ++ [(p, u)])); [exact Hocc'| |].
    + intros v. rewrite map_app, !elem_of_app, <- Hacc. simpl.
      rewrite !list_elem_of_singleton. reflexivity.
    + apply StronglySorted_app_2; [|exact Hsorted|repeat constructor].
      intros x y Hx Hy. apply list_elem_of_singleton in Hy as ->.
      apply Hacc in Hx. destruct (firstIn_Some done x Hx) as (q & Hq & Hqin).
      exists q, p. split; [|split].
      * rewrite Hocc, firstIn_app, Hq. reflexivity.
      * rewrite Hocc, firstIn_app, firstIn_None by (rewrite <- Hacc; exact Hin).
        unfold firstIn. simpl. rewrite bool_decide_eq_true_2 by reflexivity.
        reflexivity.
      * rewrite Hocc in occ_sorted.
        apply (StronglySorted_app_1_elem_of _ _ _ (q, x) (p, u) occ_sorted);
          [exact Hqin|left].
Qed.

Lemma uniqueInOrder_sorted :
  StronglySorted (before occ) (uniqueInOrder (map snd occ)).
Proof.
  unfold uniqueInOrder.
  apply (uniqueInOrder_sorted_from occ []); [reflexivity| |constructor].
  intros u. simpl. reflexivity.
Qed.

Lemma setAdd_NoDup (acc : list jsstring) x :
  NoDup acc → NoDup (setAdd acc x).
Proof.
  intros Hacc. unfold setAdd. destruct (bool_decide (x ∈ acc)) eqn:Hin;
    [exact Hacc|].
  apply bool_decide_eq_false in Hin.
  apply NoDup_app. split; [exact Hacc|]. split.
  - intros y Hy Hy'. apply list_elem_of_singleton in Hy' as ->. done.
  - apply NoDup_singleton.
Qed.

Lemma setAdd_subset (acc : list jsstring) x y :
  y ∈ setAdd acc x → y ∈ acc ∨ y = x.
Proof.
  unfold setAdd. destruct (bool_decide (x ∈ acc)); [auto|].
  rewrite elem_of_app, list_elem_of_singleton. auto.
Qed.

End FirstOccurrence.

Lemma uniqueInOrder_NoDup (l : list jsstring) : NoDup (uniqueInOrder l).
Proof.
  unfold uniqueInOrder.
  assert (∀ acc, NoDup acc → NoDup (fold_left setAdd l acc)) as H.
  { induction l as [|x l IH]; intros acc Hacc; simpl; [exact Hacc|].
    apply IH, setAdd_NoDup, Hacc. }
  apply H. constructor.
Qed.

Lemma uniqueInOrder_elem_of (l : list jsstring) u :
  u ∈ uniqueInOrder l → u ∈ l.
Proof.
  unfold uniqueInOrder.
  assert (∀ acc, u ∈ fold_left setAdd l acc → u ∈ acc ∨ u ∈ l) as H.
  { induction l as [|x l IH]; intros acc Hu; simpl in *; [auto|].
    destruct (IH _ Hu) as [Hacc|Hl].
    - destruct (setAdd_subset _ _ _ Hacc) as [?| ->]; [auto|].
      right. left.
    - right. right. exact Hl. }
  intros Hu. destruct (H [] Hu) as [Hnil|Hl]; [inversion Hnil|exact Hl].
Qed.

Lemma StronglySorted_filter {A} (R : relation A) (P : A → Prop)
    `{∀ x, Decision (P x)} (l : list A) :
  StronglySorted R l → StronglySorted R (filter P l).
Proof.
  induction 1 as [|x l Hl IH Hx]; [constructor|].
  rewrite filter_cons. destruct (decide (P x)); [|exact IH].
  constructor; [exact IH|].
  apply Forall_forall. intros y Hy. apply list_elem_of_filter in Hy as [_ Hy].
  rewrite Forall_forall in Hx. apply Hx, Hy.
Qed.

(** C8. URL discovery is a function of the text, so two runs on the same
    text give the same list; the list holds no string twice; and its URLs are
    in the order of their first matches in the text: each is the text found
    at the position of its first match, and these positions increase from
    each URL to the next. *)
Theorem extractTikTokUrls_idempotent_unique_ordered (text : jsstring) :
  (let first := extractTikTokUrls text in
   let second := extractTikTokUrls text in first = second)
  ∧ NoDup (extractTikTokUrls text)
  ∧ ∃ positions : list nat,
      Forall2 (λ url p, firstMatchPos text url = Some p
                        ∧ take (length url) (drop p text) = url)
              (extractTikTokUrls text) positions
      ∧ StronglySorted lt positions.
Proof.
  split; [reflexivity|]. split.
  - unfold extractTikTokUrls. apply NoDup_filter, uniqueInOrder_NoDup.
  - unfold extractTikTokUrls, Regex.matchAll, firstMatchPos.
    set (occ := Regex.occurrences urlPattern text).
    assert (Hocc : StronglySorted (λ a b : nat * jsstring, a.1 < b.1) occ)
      by apply scan_sorted.
    pose proof (StronglySorted_filter _ (λ url, isTikTokUrl url = true) _
                  (uniqueInOrder_sorted occ Hocc)) as Hsorted.
    assert (Hin : ∀ u, u ∈ filter (λ url, isTikTokUrl url = true)
                             (uniqueInOrder (map snd occ)) →
                       u ∈ map snd occ).
    { intros u Hu. apply list_elem_of_filter in Hu as [_ Hu].
      apply uniqueInOrder_elem_of, Hu. }
    induction Hsorted as [|u l Hl IH Hu].
    + exists []. split; constructor.
    + destruct IH as (ps & Hps & Hpsorted).
      { intros v Hv. apply Hin. right. exact Hv. }
      destruct (firstIn_Some occ u (Hin u ltac:(left))) as (p & Hp & Hpin).
      exists (p :: ps). split.
      * constructor; [|exact Hps]. split; [exact Hp|].
        pose proof (scan_substring urlPattern text 0 0 (p, u) Hpin) as Hsub.
        cbn [fst snd] in Hsub. rewrite Nat.sub_0_r in Hsub. exact Hsub.
      * constructor; [exact Hpsorted|].
        clear -Hu Hps Hp. induction Hps as [|v q l ps [Hq _] Hps IH];
          [constructor|].
        apply Forall_cons in Hu as [(p' & q' & Hp' & Hq' & Hlt) Hu].
        constructor; [|apply IH, Hu].
        unfold firstIn in *. rewrite Hp in Hp'. rewrite Hq in Hq'.
        injection Hp' as <-. injection Hq' as <-. exact Hlt.
Qed.

(** ** Hashtags *)

(** C2, as stated, fails: for a title that repeats a hashtag the record
    holds the hashtag twice. *)
Lemma hashtags_repeated_in_title_are_kept :
  match fetchTikTokData DEFAULT_SETTINGS (envWithOembed repeatedTagAnswer)
          (lit "https://www.tiktok.com/@abc/video/1") false startWorld with
  | Done (Ok (Some data)) _ =>
      hashtags data = [lit "#fun"; lit "#fun"] ∧ ¬ NoDup (hashtags data)
  | _ => False
  end.
Proof.
  vm_compute. split; [reflexivity|].
  intros Hnodup. apply NoDup_cons in Hnodup as [Hnotin _].
  apply Hnotin. left.
Qed.

Section HashtagFacts.

Variable env : Env.

Lemma isTagChar_written c : isWrittenTagChar c = true → isTagChar env c = true.
Proof. unfold isTagChar, isWrittenTagChar. intros ->. reflexivity. Qed.

Lemma head_app_Some {A} (l1 l2 : list A) x :
  head l1 = Some x → head (l1 ++ l2) = Some x.
Proof. destruct l1; [discriminate|auto]. Qed.

(** The greedy run of a class stops where the class does. *)
Lemma star_head (p : N → bool) (body rest : jsstring) :
  forallb p body = true →
  match rest with c :: _ => p c = false | [] => True end →
  head (Regex.star p (body ++ rest)) = Some rest.
Proof.
  intros Hbody Hrest. induction body as [|c body IH]; simpl.
  - destruct rest as [|c rest]; [reflexivity|]. simpl. rewrite Hrest.
    reflexivity.
  - simpl in Hbody. apply andb_true_iff in Hbody as [Hc Hbody].
    rewrite Hc. apply head_app_Some, IH, Hbody.
Qed.

Lemma hashtagRegex_tag (tag rest : jsstring) :
  isPlainTag tag = true →
  match rest with c :: _ => isTagChar env c = false | [] => True end →
  head (hashtagRegex env (tag ++ rest)) = Some rest.
Proof.
  intros Htag Hrest. destruct tag as [|c [|b body]]; try discriminate.
  - simpl in Htag. rewrite andb_false_r in Htag. discriminate.
  - cbn [isPlainTag isNonEmpty] in Htag.
    rewrite andb_true_r in Htag. apply andb_true_iff in Htag as [Hc Hbody].
    apply N.eqb_eq in Hc as ->.
    cbn [forallb] in Hbody. apply andb_true_iff in Hbody as [Hb Hbody].
    unfold hashtagRegex, Regex.seq, Regex.plus, Regex.seq, Regex.one.
    cbn [app]. rewrite N.eqb_refl. cbn [flat_map].
    rewrite (isTagChar_written b Hb). cbn [flat_map].
    rewrite !app_nil_r. apply star_head; [|exact Hrest].
    apply forallb_forall. intros x Hx.
    apply isTagChar_written. eapply forallb_forall in Hbody; eauto.
Qed.

Lemma scan_skip (m : Regex.Matcher) (l r : jsstring) : ∀ pos,
  Regex.scan m pos (length l) (l ++ r) = Regex.scan m (pos + length l) 0 r.
Proof.
  induction l as [|c l IH]; intros pos; simpl.
  - rewrite Nat.add_0_r. reflexivity.
  - rewrite IH. f_equal. lia.
Qed.

Lemma scan_tag (tag rest : jsstring) pos :
  isPlainTag tag = true →
  match rest with c :: _ => isTagChar env c = false | [] => True end →
  Regex.scan (hashtagRegex env) pos 0 (tag ++ rest) =
  (pos, tag) :: Regex.scan (hashtagRegex env) (pos + length tag) 0 rest.
Proof.
  intros Htag Hrest.
  pose proof (hashtagRegex_tag tag rest Htag Hrest) as Hhead.
  destruct tag as [|c body]; [discriminate|].
  cbn [app] in *. cbn [Regex.scan]. rewrite Hhead.
  replace (length (c :: body ++ rest) - length rest) with (S (length body))
    by (cbn [length]; rewrite length_app; lia).
  cbn [take]. rewrite take_app_length.
  replace (S (length body) - 1) with (length body) by lia.
  rewrite scan_skip. cbn [length]. do 2 f_equal. lia.
Qed.

Lemma scan_joinSpace (tags : list jsstring) : ∀ pos,
  Forall (λ tag, isPlainTag tag = true) tags →
  map snd (Regex.scan (hashtagRegex env) pos 0 (joinSpace tags)) = tags.
Proof.
  induction tags as [|tag tags IH]; intros pos Htags; [reflexivity|].
  apply Forall_cons in Htags as [Htag Htags].
  destruct tags as [|tag' tags].
  - cbn [joinSpace]. rewrite <- (app_nil_r tag) at 1.
    rewrite scan_tag by (exact Htag || exact I). reflexivity.
  - change (joinSpace (tag :: tag' :: tags))
      with (tag ++ chr " " :: joinSpace (tag' :: tags)).
    rewrite scan_tag by (exact Htag || reflexivity).
    cbn [map snd]. f_equal.
    cbn [Regex.scan]. apply IH, Htags.
Qed.

End HashtagFacts.

Lemma takeWhile_dropWhile p (s : jsstring) : takeWhile p s ++ dropWhile p s = s.
Proof.
  induction s as [|c s IH]; simpl; [reflexivity|].
  destruct (p c); simpl; [rewrite IH|]; reflexivity.
Qed.

Lemma takeWhile_forallb p (s : jsstring) : forallb p (takeWhile p s) = true.
Proof.
  induction s as [|c s IH]; simpl; [reflexivity|].
  destruct (p c) eqn:Hc; simpl; [rewrite Hc, IH|]; reflexivity.
Qed.

Section HashtagOccurrences.

Variable env : Env.

Lemma head_star (p : N → bool) (s : jsstring) :
  head (Regex.star p s) = Some (dropWhile p s).
Proof.
  induction s as [|c s IH]; [reflexivity|]. simpl.
  destruct (p c); [|reflexivity]. apply head_app_Some, IH.
Qed.

Lemma drop_takeWhile (p : N → bool) (s : jsstring) :
  drop (length (takeWhile p s)) s = dropWhile p s.
Proof.
  rewrite <- (takeWhile_dropWhile p s) at 2. apply drop_app_length.
Qed.

Lemma cons_inv {A} (x y : A) (l k : list A) :
  x :: l = y :: k → x = y ∧ l = k.
Proof. intros [= -> ->]. auto. Qed.

Lemma isTagChar_hash : isTagChar env (chr "#") = false.
Proof. reflexivity. Qed.

(** What the pattern matches at the head of a text. *)
Lemma hashtagRegex_head (s : jsstring) :
  head (hashtagRegex env s) =
  match hashtagAt env s 0 with
  | Some tag => Some (drop (length tag) s)
  | None => None
  end.
Proof.
  unfold hashtagAt.
  destruct s as [|c rest]; [reflexivity|]. cbn [drop].
  unfold hashtagRegex, Regex.seq, Regex.one.
  rewrite (N.eqb_sym c). destruct (chr "#" =? c)%N; [|reflexivity].
  cbn [flat_map]. rewrite app_nil_r.
  unfold Regex.plus, Regex.seq, Regex.one.
  destruct rest as [|b rest]; [reflexivity|]. cbn [takeWhile].
  destruct (isTagChar env b); [|reflexivity].
  cbn [flat_map]. rewrite app_nil_r, head_star.
  cbn [length drop]. rewrite drop_takeWhile. reflexivity.
Qed.

Lemma hashtagAt_prefix (s tag : jsstring) :
  hashtagAt env s 0 = Some tag → ∃ body rest,
    tag = chr "#" :: body ∧ s = chr "#" :: body ++ rest
    ∧ forallb (isTagChar env) body = true.
Proof.
  unfold hashtagAt. destruct s as [|c s]; [discriminate|]. cbn [drop].
  destruct (c =? chr "#")%N eqn:Hc; [|discriminate].
  apply N.eqb_eq in Hc as ->.
  destruct (takeWhile (isTagChar env) s) as [|b body] eqn:Hrun; [discriminate|].
  intros [= <-]. exists (b :: body), (dropWhile (isTagChar env) s).
  split; [reflexivity|]. rewrite <- Hrun, takeWhile_dropWhile.
  split; [reflexivity|]. apply takeWhile_forallb.
Qed.

Lemma hashtagAt_tagChar (c : N) (s : jsstring) :
  isTagChar env c = true → hashtagAt env (c :: s) 0 = None.
Proof.
  intros Hc. unfold hashtagAt. cbn [drop].
  destruct (c =? chr "#")%N eqn:Heq; [|reflexivity].
  apply N.eqb_eq in Heq as ->. rewrite isTagChar_hash in Hc. discriminate.
Qed.

(** The scan finds a hashtag at every position where one begins, and
    nowhere else: while it passes over a match it passes over characters of
    the class, where no hashtag begins. *)
Lemma scan_hashtags (s : jsstring) : ∀ pos k q tag,
  forallb (isTagChar env) (take k s) = true →
  (q, tag) ∈ Regex.scan (hashtagRegex env) pos k s ↔
  ∃ i, q = pos + i ∧ hashtagAt env s i = Some tag.
Proof.
  induction s as [|c s IH]; intros pos k q tag Hk.
  - cbn [Regex.scan]. split; [intros H; inversion H|].
    intros (i & _ & H). unfold hashtagAt in H. rewrite drop_nil in H.
    discriminate.
  - destruct k as [|k].
    + cbn [Regex.scan]. rewrite hashtagRegex_head.
      destruct (hashtagAt env (c :: s) 0) as [found|] eqn:Hhead.
      * destruct (hashtagAt_prefix _ _ Hhead) as (body & rest & -> & Hs & Hbody).
        apply cons_inv in Hs as [-> ->].
        replace (length (chr "#" :: body ++ rest)
                 - length (drop (length (chr "#" :: body))
                                (chr "#" :: body ++ rest)))
          with (S (length body)).
        2:{ cbn [length drop]. rewrite drop_app_length, length_app. lia. }
        cbn [take]. rewrite take_app_length.
        replace (S (length body) - 1) with (length body) by lia.
        rewrite elem_of_cons, IH by (rewrite take_app_length; exact Hbody).
        split.
        -- intros [[= -> ->]|(j & -> & H)].
           ++ exists 0. split; [lia|exact Hhead].
           ++ exists (S j). split; [lia|exact H].
        -- intros ([|j] & -> & H).
           ++ left. rewrite Hhead in H. injection H as <-.
              f_equal. lia.
           ++ right. exists j. split; [lia|exact H].
      * rewrite IH by reflexivity. split.
        -- intros (j & -> & H). exists (S j). split; [lia|exact H].
        -- intros ([|j] & -> & H); [congruence|].
           exists j. split; [lia|exact H].
    + cbn [Regex.scan]. cbn [take forallb] in Hk.
      apply andb_true_iff in Hk as [Hc Hk].
      rewrite IH by exact Hk. split.
      * intros (j & -> & H). exists (S j). split; [lia|exact H].
      * intros ([|j] & -> & H).
        -- rewrite hashtagAt_tagChar in H by exact Hc. discriminate.
        -- exists j. split; [lia|exact H].
Qed.

Lemma occurrences_hashtags (text : jsstring) p tag :
  (p, tag) ∈ Regex.occurrences (hashtagRegex env) text
  ↔ hashtagAt env text p = Some tag.
Proof.
  unfold Regex.occurrences. rewrite scan_hashtags by reflexivity. split.
  - intros (i & -> & H). exact H.
  - intros H. exists p. split; [reflexivity|exact H].
Qed.

End HashtagOccurrences.

(** A list of matches at increasing positions repeats no text exactly when
    no text stands at two positions. *)
Lemma NoDup_texts (occ : list (nat * jsstring)) :
  StronglySorted (λ a b : nat * jsstring, a.1 < b.1) occ →
  NoDup (map snd occ) ↔
  ∀ p q tag, (p, tag) ∈ occ → (q, tag) ∈ occ → p = q.
Proof.
  induction 1 as [|[p0 t0] occ Hsorted IH Hlt]; cbn [map snd].
  - split; [intros _ p q tag H; inversion H|constructor].
  - rewrite NoDup_cons, IH. split.
    + intros [Hnew Hrest] p q tag Hp Hq.
      apply elem_of_cons in Hp as [Hp|Hp];
        apply elem_of_cons in Hq as [Hq|Hq].
      * congruence.
      * injection Hp as -> ->. destruct Hnew.
        apply list_elem_of_fmap. exists (q, t0). auto.
      * injection Hq as -> ->. destruct Hnew.
        apply list_elem_of_fmap. exists (p, t0). auto.
      * eauto.
    + intros Hone. split.
      * intros Hin. apply list_elem_of_fmap in Hin as ([q t] & Ht & Hin).
        cbn in Ht. subst t.
        assert (p0 = q) as ->
          by (apply (Hone p0 q t0); [left|right; exact Hin]).
        rewrite Forall_forall in Hlt. apply Hlt in Hin. cbn in Hin. lia.
      * intros p q tag Hp Hq. apply (Hone p q tag); right; assumption.
Qed.

(** *** What a computation returns *)

Lemma yields_ret {A} (P : A → Prop) a : P a → yields P (ret a).
Proof. intros HP w a' w' H. injection H as <- _. exact HP. Qed.

Lemma yields_throw {A} (P : A → Prop) e : yields P (throw e).
Proof. intros w a w' H. discriminate. Qed.

Lemma yields_bind {A B} (Q : A → Prop) (P : B → Prop) (m : M A) (f : A → M B) :
  yields Q m → (∀ a, Q a → yields P (f a)) → yields P (bind m f).
Proof.
  intros Hm Hf w b w' H. unfold bind in H.
  destruct (m w) as [[a|e] w1|] eqn:Hrun; try discriminate.
  exact (Hf a (Hm _ _ _ Hrun) _ _ _ H).
Qed.

Lemma yields_any {A} (m : M A) : yields (λ _, True) m.
Proof. intros w a w' _. exact I. Qed.

Lemma yields_bind_any {A B} (P : B → Prop) (m : M A) (f : A → M B) :
  (∀ a, yields P (f a)) → yields P (bind m f).
Proof. intros Hf. apply (yields_bind (λ _, True)); [apply yields_any | auto]. Qed.

Lemma yields_tryCatch {A} (P : A → Prop) (m : M A) (handler : Error → M A) :
  yields P m → (∀ e, yields P (handler e)) → yields P (tryCatch m handler).
Proof.
  intros Hm Hh w a w' H. unfold tryCatch in H.
  destruct (m w) as [[a1|e] w1|] eqn:Hrun; try discriminate.
  - injection H as <- _. exact (Hm _ _ _ Hrun).
  - exact (Hh e _ _ _ H).
Qed.

(** *** The hashtags of a record *)

Section RecordHashtags.

Variable settings : Settings.
Variable env : Env.

(** A record built without a title: it has no hashtags, and its
    description holds none. *)
Local Notation "'untitled'" :=
  (λ data : TikTokData,
     hashtags data = [] ∧ extractHashtags env (description data) = []).

Ltac untitled_record :=
  apply yields_ret; intros data [= <-]; split; reflexivity.

Lemma handlePrivateVideo_untitled address videoId isBulkProcessing :
  yields (λ r, ∀ data, r = Some data → untitled data)
         (handlePrivateVideo settings env address videoId isBulkProcessing).
Proof.
  unfold handlePrivateVideo. apply yields_bind_any. intros posted.
  destruct (handlePrivateVideos settings).
  - apply yields_bind_any. intros created. untitled_record.
  - apply yields_ret. intros data [=].
  - apply yields_bind_any. intros _. apply yields_bind_any. intros created.
    untitled_record.
Qed.

Lemma handleSlideshowUrl_untitled address videoId isBulkProcessing :
  yields untitled (handleSlideshowUrl env address videoId isBulkProcessing).
Proof.
  unfold handleSlideshowUrl. apply yields_bind_any. intros posted.
  apply yields_bind_any. intros created.
  apply yields_ret. split; reflexivity.
Qed.

Lemma fetchTikTokDataMobile_no_hashtags address isBulkProcessing :
  yields (λ r, ∀ data, r = Some data → hashtags data = [])
         (fetchTikTokDataMobile settings env address isBulkProcessing).
Proof.
  unfold fetchTikTokDataMobile. apply yields_bind_any. intros expanded.
  destruct (includes (lit "/photo/") expanded).
  - eapply yields_bind; [apply handleSlideshowUrl_untitled|].
    intros data' [Hd _]. apply yields_ret. intros data [= <-]. exact Hd.
  - destruct (_ || _).
    + intros w r w' Hrun data ->.
      exact (proj1 (handlePrivateVideo_untitled _ _ _ _ _ _ Hrun data eq_refl)).
    + apply yields_bind_any. intros posted.
      apply yields_bind_any. intros created.
      apply yields_ret. intros data [= <-]. reflexivity.
Qed.

(** On desktop the hashtags of a record are those that the extraction finds
    in its description; on mobile a record has none. *)
Lemma fetchTikTokData_hashtags address isBulkProcessing :
  yields (λ r, ∀ data, r = Some data →
            hashtags data = if isMobile env then []
                            else extractHashtags env (description data))
         (fetchTikTokData settings env address isBulkProcessing).
Proof.
  unfold fetchTikTokData. destruct (isMobile env).
  - apply fetchTikTokDataMobile_no_hashtags.
  - assert (Huntitled : ∀ r : option TikTokData,
              (∀ data, r = Some data → untitled data) →
              ∀ data, r = Some data →
                hashtags data = extractHashtags env (description data)).
    { intros r Hr data Hdata. destruct (Hr data Hdata) as [-> ->].
      reflexivity. }
    destruct (includes (lit "/photo/") address).
    + eapply yields_bind; [apply handleSlideshowUrl_untitled|].
      intros data' [Hnone Hfound]. apply yields_ret. intros data [= <-].
      rewrite Hnone, Hfound. reflexivity.
    + apply yields_tryCatch.
      * unfold fetchViaOembed. apply yields_bind_any. intros encoded.
        apply yields_bind_any. intros [e|statusCode|oembedData];
          try apply yields_throw.
        apply yields_bind_any. intros finalVideoId.
        unfold oembedRecord. apply yields_bind_any. intros posted.
        destruct (title oembedData) as [[|c text]| |];
          try apply yields_throw;
          (apply yields_bind_any; intros created;
           apply yields_ret; intros data [= <-]; reflexivity).
      * intros error. unfold fetchFallback.
        destruct (detectPrivateVideo error).
        -- intros w r w' Hrun. apply Huntitled.
           exact (handlePrivateVideo_untitled _ _ _ _ _ _ Hrun).
        -- apply yields_bind_any. intros _.
           apply yields_bind_any. intros posted.
           destruct (includes (lit "/photo/") address);
             (apply yields_bind_any; intros created;
              apply yields_ret; intros data [= <-]; reflexivity).
Qed.

End RecordHashtags.

(** C2 (amended). The hashtags of a record are the hashtag occurrences of
    the title, one entry per occurrence in the order of the text. For every
    text the extraction returns the hashtags that begin at the positions of
    the text, by increasing position: a hashtag begins where a [#] is followed
    by a character of the class, and reads up to the end of the run of such
    characters. So a hashtag that the text repeats is repeated in the
    sequence, which is free of duplicates exactly when no hashtag begins at
    two positions. On desktop every record that the resolver returns holds
    the hashtags so extracted from its description, which is the title when
    the metadata endpoint gave one; on mobile, where no title is asked for, a
    record holds none. *)
Theorem fetchTikTokData_hashtags_one_per_occurrence settings env :
  (∀ text : jsstring, ∃ occ : list (nat * jsstring),
     extractHashtags env text = map snd occ
     ∧ StronglySorted (λ a b : nat * jsstring, a.1 < b.1) occ
     ∧ (∀ p tag, (p, tag) ∈ occ ↔ hashtagAt env text p = Some tag)
     ∧ (NoDup (extractHashtags env text) ↔
        ∀ p q tag, hashtagAt env text p = Some tag →
                   hashtagAt env text q = Some tag → p = q))
  ∧ ∀ address isBulkProcessing w data w',
      fetchTikTokData settings env address isBulkProcessing w
      = Done (Ok (Some data)) w' →
      hashtags data = if isMobile env then []
                      else extractHashtags env (description data).
Proof.
  split.
  - intros text.
    set (occ := Regex.occurrences (hashtagRegex env) text).
    assert (Hsorted : StronglySorted (λ a b : nat * jsstring, a.1 < b.1) occ)
      by apply scan_sorted.
    exists occ. split; [reflexivity|]. split; [exact Hsorted|]. split.
    + intros p tag. apply occurrences_hashtags.
    + change (extractHashtags env text) with (map snd occ).
      rewrite (NoDup_texts occ Hsorted). unfold occ. split.
      * intros Hone p q tag Hp Hq.
        apply (Hone p q tag); apply occurrences_hashtags; assumption.
      * intros Hone p q tag Hp Hq.
        apply (Hone p q tag); apply occurrences_hashtags; assumption.
  - intros address isBulkProcessing w data w' Hrun.
    exact (fetchTikTokData_hashtags settings env address isBulkProcessing
             w (Some data) w' Hrun data eq_refl).
Qed.

(** ** Redirect resolver *)

Ltac run_monad :=
  unfold bind, tryCatch, ret, throw, liftRes, when, notice, transportHead,
    transportGet, now, getAbstractFileByPath, handleDuplicateFile in *.

(** The window of accepted timestamps in calendar terms: the years 2010 to
    2029, less the first second of 2010. *)
Lemma inAcceptedRange_years (timestamp : Z) :
  inAcceptedRange timestamp = true
  ↔ (timestamp ≠ 1262304000
     ∧ 2010 ≤ JsDate.yearOfTime (timestamp * 1000) ≤ 2029)%Z.
Proof.
  unfold inAcceptedRange, JsDate.yearOfTime, JsDate.civil, JsDate.civilOfEra,
    JsDate.msPerDay.
  cbn [fst]. rewrite andb_true_iff, !Z.ltb_lt.
  repeat match goal with
         | |- context [if (?a <? ?b)%Z then _ else _] =>
             destruct (Z.ltb_spec a b)
         | |- context [if (?a <=? ?b)%Z then _ else _] =>
             destruct (Z.leb_spec a b)
         end.
  all: split; intros Hyp; Z.div_mod_to_equations; lia.
Qed.

Section ResolverFacts.

Variable settings : Settings.
Variable env : Env.

Lemma makeHeadRequest_run url timer w :
  makeHeadRequest env url timer w =
  match headAt env (tick w) with
  | HeadResponds finalUrl lastModified =>
      Done (Ok {| resp_url := if isMobile env then url else finalUrl;
                  resp_lastModified :=
                    if isMobile env && negb (truthy lastModified) then None
                    else lastModified |})
           (afterHead env url timer w)
  | HeadFails e =>
      if isMobile env
      then Done (Ok {| resp_url := url; resp_lastModified := None |})
                (afterHead env url timer w)
      else Done (Throw e) (afterHead env url timer w)
  end.
Proof.
  unfold makeHeadRequest, afterHead, headRequest. run_monad.
  destruct (isMobile env); simpl;
    destruct (headAt env (tick w)) as [e|finalUrl [[|c s]|]]; reflexivity.
Qed.

Lemma expandUrl_run url w :
  expandUrl settings env url w =
  if isShortLink url then
    match headAt env (tick w) with
    | HeadFails _ =>
        Done (Ok url) (afterHead env url (urlTimeout settings * 1000) w)
    | HeadResponds finalUrl _ =>
        Done (Ok (if isMobile env then url else finalUrl))
             (afterHead env url (urlTimeout settings * 1000) w)
    end
  else Done (Ok url) w.
Proof.
  unfold expandUrl, isShortLink.
  destruct (includes (lit "vm.tiktok.com") url
            || includes (lit "tiktok.com/t/") url); [|reflexivity].
  unfold tryCatch, bind. rewrite makeHeadRequest_run.
  destruct (headAt env (tick w)) as [e|finalUrl lastModified];
    destruct (isMobile env); reflexivity.
Qed.

Lemma expandUrl_returns url w :
  ∃ url' w', expandUrl settings env url w = Done (Ok url') w'.
Proof.
  rewrite expandUrl_run.
  destruct (isShortLink url); [|eauto].
  destruct (headAt env (tick w)); eauto.
Qed.

(** C4. [expandUrl] never raises: it always returns a URL. A URL that is not
    of a short-link form is returned as it is, in an unchanged world, so
    without any request; for a short link one HEAD request is issued, and
    when it fails (network failure, timeout, abort) the original URL is
    returned. *)
Theorem expandUrl_never_raises url w :
  expandUrl settings env url w =
  (if isShortLink url then
     match headAt env (tick w) with
     | HeadFails _ =>
         Done (Ok url) (afterHead env url (urlTimeout settings * 1000) w)
     | HeadResponds finalUrl _ =>
         Done (Ok (if isMobile env then url else finalUrl))
              (afterHead env url (urlTimeout settings * 1000) w)
     end
   else Done (Ok url) w)
  ∧ ∃ url' w', expandUrl settings env url w = Done (Ok url') w'.
Proof.
  split; [apply expandUrl_run|apply expandUrl_returns].
Qed.

(** ** Posted date *)

Lemma digitsValue_bound (s : jsstring) :
  forallb isDigit s = true → (0 ≤ digitsValue s < 10 ^ Z.of_nat (length s))%Z.
Proof.
  induction s as [|c s IH] using rev_ind; intros Hs.
  - unfold digitsValue. simpl. lia.
  - rewrite forallb_app in Hs. apply andb_true_iff in Hs as [Hs Hc].
    simpl in Hc. rewrite andb_true_r in Hc.
    unfold isDigit, inRange in Hc. apply andb_true_iff in Hc as [H1 H2].
    apply N.leb_le in H1, H2. specialize (IH Hs).
    rewrite digitsValue_snoc, length_app. simpl length.
    replace (Z.of_nat (length s + 1)) with (Z.succ (Z.of_nat (length s))) by lia.
    rewrite Z.pow_succ_r by lia. lia.
Qed.

(** An identifier of fewer than 19 digits cannot carry a timestamp as late
    as 2010: the test on its length rejects nothing that the test on the
    range would accept. *)
Lemma short_id_below_range (id : jsstring) :
  forallb isDigit id = true → length id < 19 →
  (Z.shiftr (digitsValue id) 32 < 1262304000)%Z.
Proof.
  intros Hd Hlen. pose proof (digitsValue_bound id Hd) as [H0 H1].
  assert (10 ^ Z.of_nat (length id) ≤ 10 ^ 18)%Z
    by (apply Z.pow_le_mono_r; lia).
  rewrite Z.shiftr_div_pow2 by lia.
  apply Z.div_lt_upper_bound; [lia|].
  eapply Z.lt_le_trans; [exact H1|]. etransitivity; [eassumption|]. lia.
Qed.

Lemma timestampOfVideoId_digits (id : jsstring) w :
  forallb isDigit id = true →
  timestampOfVideoId (Some id) w =
  Done (Ok (if inAcceptedRange (Z.shiftr (digitsValue id) 32)
            then Some (Z.shiftr (digitsValue id) 32) else None)) w.
Proof.
  intros Hd. unfold timestampOfVideoId, inAcceptedRange.
  destruct (truthy (Some id) && bool_decide (19 ≤ length id)) eqn:Hguard.
  - unfold bind, liftRes, BigInt. rewrite Hd.
    destruct ((1262304000 <? _) && _)%Z; reflexivity.
  - assert (length id < 19) as Hshort.
    { apply andb_false_iff in Hguard as [Hguard|Hguard].
      - destruct id; [simpl; lia|discriminate].
      - apply bool_decide_eq_false in Hguard. lia. }
    pose proof (short_id_below_range id Hd Hshort).
    replace (1262304000 <? Z.shiftr (digitsValue id) 32)%Z with false
      by (symmetry; apply Z.ltb_ge; lia).
    reflexivity.
Qed.

Lemma timestampOfVideoId_cases (videoId : option jsstring) w :
  (∃ e, timestampOfVideoId videoId w = Done (Throw e) w)
  ∨ timestampOfVideoId videoId w = Done (Ok None) w
  ∨ (∃ timestamp, inAcceptedRange timestamp = true
       ∧ timestampOfVideoId videoId w = Done (Ok (Some timestamp)) w).
Proof.
  unfold timestampOfVideoId, inAcceptedRange.
  destruct videoId as [id|]; [|auto].
  destruct (truthy (Some id) && bool_decide (19 ≤ length id)); [|auto].
  unfold bind, liftRes, BigInt. destruct (forallb isDigit id); [|eauto].
  destruct ((1262304000 <? _) && _)%Z eqn:Hr; [|auto].
  right. right. eexists. split; [exact Hr|reflexivity].
Qed.

Lemma inAcceptedRange_valid timestamp :
  inAcceptedRange timestamp = true → JsDate.validTime (timestamp * 1000).
Proof.
  unfold inAcceptedRange, JsDate.validTime, JsDate.maxTime. intros H.
  apply andb_true_iff in H as [H1 H2]. apply Z.ltb_lt in H1, H2. lia.
Qed.

Lemma today_run w :
  JsDate.validTime (clockAt env (tick w)) →
  today env w =
  Done (Ok (JsDate.dateString (clockAt env (tick w)))) (nextTick w).
Proof.
  intros Hv. unfold today, bind, now, liftRes.
  rewrite (JsDateFacts.ofTime_valid _ Hv), JsDateFacts.isoDay_Some.
  reflexivity.
Qed.

Lemma lastModified_lookup_run url w :
  tryCatch
    (let! response := makeHeadRequest env url 5000 in
     if truthy (resp_lastModified response) then
       let! day := liftRes (JsDate.isoDay
                     (dateOfString env (orElse (resp_lastModified response) []))) in
       ret (Some day)
     else ret None)
    (λ _, ret None) w =
  Done (Ok (lastModifiedDay env (headAt env (tick w)))) (afterHead env url 5000 w).
Proof.
  unfold tryCatch, bind. rewrite makeHeadRequest_run. unfold lastModifiedDay.
  destruct (headAt env (tick w)) as [e|finalUrl lastModified].
  - destruct (isMobile env); reflexivity.
  - cbn [resp_lastModified].
    destruct (truthy lastModified) eqn:Ht.
    + rewrite andb_false_r, Ht. unfold liftRes, ret.
      destruct (dateOfString env (orElse lastModified [])) as [t|].
      * rewrite JsDateFacts.isoDay_Some. reflexivity.
      * reflexivity.
    + destruct (isMobile env); cbn [andb negb truthy]; [reflexivity|].
      rewrite Ht. reflexivity.
Qed.

Lemma lastModifiedDay_source outcome day :
  lastModifiedDay env outcome = Some day → dateSource env day.
Proof.
  unfold lastModifiedDay, dateOfString.
  destruct outcome as [e|finalUrl lastModified]; [discriminate|].
  destruct (truthy lastModified); [|discriminate].
  destruct (dateParse env _) as [t|] eqn:Hparse; [|discriminate].
  destruct (JsDate.ofTime t) as [t'|] eqn:Ht; [|discriminate].
  intros [= <-]. apply JsDateFacts.ofTime_Some in Ht as [-> Hv].
  right. right. eauto.
Qed.

(** The closed form of [extractTikTokPostedDate] once the identifier has
    been looked at. *)
Lemma extractTikTokPostedDate_run url videoId w :
  (∃ timestamp, inAcceptedRange timestamp = true
     ∧ timestampOfVideoId videoId w = Done (Ok (Some timestamp)) w
     ∧ extractTikTokPostedDate env url videoId w =
       Done (Ok (JsDate.dateString (timestamp * 1000))) w)
  ∨ ((∃ e, timestampOfVideoId videoId w = Done (Throw e) w)
     ∧ extractTikTokPostedDate env url videoId w = today env w)
  ∨ (timestampOfVideoId videoId w = Done (Ok None) w
     ∧ extractTikTokPostedDate env url videoId w =
       match lastModifiedDay env (headAt env (tick w)) with
       | Some day => Done (Ok day) (afterHead env url 5000 w)
       | None => today env (afterHead env url 5000 w)
       end).
Proof.
  unfold extractTikTokPostedDate, postedDateAttempt.
  destruct (timestampOfVideoId_cases videoId w)
    as [[e He]|[Hnone|[timestamp [Hr Hsome]]]].
  - right. left. split; [eauto|].
    unfold bind at 1. unfold tryCatch at 1. unfold bind at 1.
    rewrite He. reflexivity.
  - right. right. split; [exact Hnone|].
    unfold bind at 1. unfold tryCatch at 1. unfold bind at 1.
    rewrite Hnone, lastModified_lookup_run.
    destruct (lastModifiedDay env _); reflexivity.
  - left. exists timestamp. repeat split; [exact Hr|exact Hsome|].
    unfold bind at 1. unfold tryCatch at 1. unfold bind at 1.
    rewrite Hsome. unfold bind, liftRes, ret.
    rewrite (JsDateFacts.ofTime_valid _ (inAcceptedRange_valid _ Hr)).
    rewrite JsDateFacts.isoDay_Some. reflexivity.
Qed.

(** [extractTikTokPostedDate] always returns a date, whatever the network
    does, and leaves the vault alone. *)
Lemma extractTikTokPostedDate_total url videoId w :
  clockValid env →
  ∃ day w', extractTikTokPostedDate env url videoId w = Done (Ok day) w'
            ∧ dateSource env day ∧ vault w' = vault w.
Proof.
  intros Hclock.
  destruct (extractTikTokPostedDate_run url videoId w)
    as [[timestamp [Hr [_ ->]]]|[[_ ->]|[_ ->]]].
  - eexists _, _. split; [reflexivity|]. split; [|reflexivity].
    right. left. eauto.
  - rewrite today_run by apply Hclock.
    eexists _, _. split; [reflexivity|]. split; [|reflexivity].
    left. eauto.
  - destruct (lastModifiedDay env _) as [day|] eqn:Hlm.
    + eexists _, _. split; [reflexivity|]. split; [|reflexivity].
      eapply lastModifiedDay_source, Hlm.
    + rewrite today_run by apply Hclock.
      eexists _, _. split; [reflexivity|]. split; [|reflexivity].
      left. eauto.
Qed.

Lemma dateSource_clock n : dateSource env (JsDate.dateString (clockAt env n)).
Proof. left. eauto. Qed.

(** A date string from any of the three sources is a well-formed calendar
    date. *)
Lemma dateSource_wellformed day :
  clockValid env → dateSource env day → JsDate.isIsoDate day = true.
Proof.
  intros Hclock [[n ->]|[(timestamp & Hr & ->)|(header & t & _ & Hv & ->)]];
    apply JsDateFacts.dateString_wellformed.
  - apply Hclock.
  - apply inAcceptedRange_valid, Hr.
  - exact Hv.
Qed.

(** It has the plain form [YYYY-MM-DD] when the clock and the headers stay
    within the years 0 to 9999. *)
Lemma dateSource_four_digit day :
  clockValid env → fourDigitYears env → dateSource env day →
  JsDate.isFourDigitYearDate day = true.
Proof.
  intros Hclock [Hyc Hyh]
    [[n ->]|[(timestamp & Hr & ->)|(header & t & Hparse & Hv & ->)]];
    apply JsDateFacts.dateString_four_digit.
  - apply Hclock.
  - apply Hyc.
  - apply inAcceptedRange_valid, Hr.
  - apply inAcceptedRange_years in Hr. lia.
  - exact Hv.
  - eapply Hyh, Hparse.
Qed.

End ResolverFacts.

(** C7, as stated, fails: a timestamp in the year 2030 is rejected, and the
    posted date is then taken from elsewhere (here, all requests failing,
    from the clock). *)
Lemma timestamp_of_2030_is_rejected :
  forallb isDigit idOfMarch2030 = true
  ∧ Z.shiftr (digitsValue idOfMarch2030) 32 = 1900000000%Z
  ∧ JsDate.yearOfTime (1900000000 * 1000) = 2030%Z
  ∧ timestampOfVideoId (Some idOfMarch2030) startWorld
    = Done (Ok None) startWorld
  ∧ extractTikTokPostedDate offlineEnv
      (lit "https://www.tiktok.com/@a/video/8160437862400000000")
      (Some idOfMarch2030) startWorld
    = Done (Ok (lit "2023-11-14"))
        (nextTick (afterHead offlineEnv
           (lit "https://www.tiktok.com/@a/video/8160437862400000000")
           5000 startWorld)).
Proof. vm_compute. repeat split. Qed.

(** C7 (amended). For an identifier of decimal digits, the posted date is
    derived from the identifier exactly when its value shifted right by 32
    bits lies strictly between 1262304000 (2010-01-01T00:00:00Z) and
    1893456000 (2030-01-01T00:00:00Z), that is in the years 2010 to 2029
    except the first second of 2010; no request is issued then. Otherwise
    one HEAD request is issued with an abort timer of 5000 ms and the date of
    its last-modified header is used, and failing that the current date. *)
Theorem extractTikTokPostedDate_timestamp_window env url (id : jsstring) w :
  forallb isDigit id = true →
  extractTikTokPostedDate env url (Some id) w =
  (if ((1262304000 <? Z.shiftr (digitsValue id) 32)
       && (Z.shiftr (digitsValue id) 32 <? 1893456000))%Z
   then Done (Ok (JsDate.dateString (Z.shiftr (digitsValue id) 32 * 1000))) w
   else
     match lastModifiedDay env (headAt env (tick w)) with
     | Some day => Done (Ok day) (afterHead env url 5000 w)
     | None => today env (afterHead env url 5000 w)
     end)
  ∧ JsDate.dateString (1262304000 * 1000) = lit "2010-01-01"
  ∧ JsDate.dateString (1893456000 * 1000) = lit "2030-01-01"
  ∧ (inAcceptedRange (Z.shiftr (digitsValue id) 32) = true
     ↔ (Z.shiftr (digitsValue id) 32 ≠ 1262304000
        ∧ 2010 ≤ JsDate.yearOfTime (Z.shiftr (digitsValue id) 32 * 1000)
          ≤ 2029)%Z).
Proof.
  intros Hd. split; [|split; [|split]].
  - pose proof (timestampOfVideoId_digits id w Hd) as Hts.
    fold (inAcceptedRange (Z.shiftr (digitsValue id) 32)).
    destruct (extractTikTokPostedDate_run env url (Some id) w)
      as [[timestamp [Hr [Hsome ->]]]|[[[e He] _]|[Hnone ->]]].
    + rewrite Hts in Hsome.
      destruct (inAcceptedRange (Z.shiftr (digitsValue id) 32));
        [|discriminate].
      injection Hsome as ->. reflexivity.
    + rewrite Hts in He. discriminate.
    + rewrite Hts in Hnone.
      destruct (inAcceptedRange (Z.shiftr (digitsValue id) 32));
        [discriminate|reflexivity].
  - vm_compute. reflexivity.
  - vm_compute. reflexivity.
  - apply inAcceptedRange_years.
Qed.

Lemma extractTikTokPostedDate_timestamp_window_witness :
  forallb isDigit (lit "7234567890123456789") = true
  ∧ extractTikTokPostedDate offlineEnv
      (lit "https://www.tiktok.com/@a/video/7234567890123456789")
      (Some (lit "7234567890123456789")) startWorld
    = Done (Ok (lit "2023-05-18")) startWorld.
Proof.
  split; [reflexivity|].
  pose proof (extractTikTokPostedDate_timestamp_window offlineEnv
    (lit "https://www.tiktok.com/@a/video/7234567890123456789")
    (lit "7234567890123456789") startWorld eq_refl) as [H _].
  rewrite H. vm_compute. reflexivity.
Defined.

(** ** Fallback totality *)

Lemma withPolicy_same settings :
  withPolicy (handlePrivateVideos settings) settings = settings.
Proof. destruct settings; reflexivity. Qed.

Section FallbackTotality.

Variable settings : Settings.
Variable env : Env.
Hypothesis clock : clockValid env.

(** A step of a run that ends by building a record from the posted date and
    the current date. *)
Lemma record_with_dates url videoId w
    (build : jsstring → jsstring → TikTokData) :
  (∀ posted created, createdDate (build posted created) = created
                     ∧ postedDate (build posted created) = posted) →
  ∃ data w',
    (let! postedDate := extractTikTokPostedDate env url videoId in
     let! createdDate := today env in
     ret (Some (build postedDate createdDate))) w = Done (Ok (Some data)) w'
    ∧ data = build (postedDate data) (createdDate data)
    ∧ datesFrom env data.
Proof.
  intros Hbuild.
  destruct (extractTikTokPostedDate_total env url videoId w clock)
    as (day & w1 & Hrun & Hday & _).
  unfold bind at 1. rewrite Hrun. unfold bind.
  rewrite today_run by apply clock. unfold ret.
  destruct (Hbuild day (JsDate.dateString (clockAt env (tick w1))))
    as [Hc Hp].
  eexists _, _. split; [reflexivity|]. split.
  - rewrite Hc, Hp. reflexivity.
  - split; [rewrite Hc|rewrite Hp; exact Hday].
    apply dateSource_clock.
Qed.

(** Private-content handling: no record under [skip], a private record with
    well-formed dates otherwise. *)
Lemma handlePrivateVideo_run policy url videoId isBulkProcessing w :
  ∃ r w',
    handlePrivateVideo (withPolicy policy settings) env url videoId
                       isBulkProcessing w = Done (Ok r) w'
    ∧ match policy with
      | Skip => r = None
      | _ => ∃ data, r = Some data ∧ isPrivate data = true
                     ∧ datesFrom env data
      end.
Proof.
  unfold handlePrivateVideo.
  destruct (extractTikTokPostedDate_total env url videoId w clock)
    as (day & w1 & Hrun & Hday & _).
  unfold bind at 1. rewrite Hrun.
  destruct policy; cbn [handlePrivateVideos withPolicy].
  - unfold bind. rewrite today_run by apply clock. unfold ret.
    eexists _, _. split; [reflexivity|].
    eexists. split; [reflexivity|]. split; [reflexivity|].
    split; [|exact Hday].
    apply dateSource_clock.
  - unfold ret. eauto.
  - unfold bind at 1.
    assert (∃ w2, when (negb isBulkProcessing)
                    (notice (lit "Cannot access private TikTok video: " ++ url))
                    w1 = Done (Ok tt) w2 ∧ True) as (w2 & -> & _)
      by (destruct isBulkProcessing; simpl; eauto).
    unfold bind. rewrite today_run by apply clock. unfold ret.
    eexists _, _. split; [reflexivity|].
    eexists. split; [reflexivity|]. split; [reflexivity|].
    split; [|exact Hday].
    apply dateSource_clock.
Qed.

Lemma handleSlideshowUrl_run url videoId isBulkProcessing w :
  ∃ data w',
    handleSlideshowUrl env url videoId isBulkProcessing w = Done (Ok data) w'
    ∧ isPrivate data = false ∧ datesFrom env data.
Proof.
  unfold handleSlideshowUrl.
  destruct (extractTikTokPostedDate_total env url videoId w clock)
    as (day & w1 & Hrun & Hday & _).
  unfold bind at 1. rewrite Hrun. unfold bind.
  rewrite today_run by apply clock. unfold ret.
  eexists _, _. split; [reflexivity|]. split; [reflexivity|].
  split; [|exact Hday]. apply dateSource_clock.
Qed.

Lemma fetchFallback_by_signal url videoId isBulkProcessing error w :
  if detectPrivateVideo error then
    ∀ policy,
      fetchFallback (withPolicy policy settings) env url videoId
                    isBulkProcessing error w
      = handlePrivateVideo (withPolicy policy settings) env url videoId
                           isBulkProcessing w
  else
    ∃ data w', isPrivate data = false ∧ datesFrom env data ∧ ∀ policy,
      fetchFallback (withPolicy policy settings) env url videoId
                    isBulkProcessing error w = Done (Ok (Some data)) w'.
Proof.
  unfold fetchFallback. destruct (detectPrivateVideo error); [auto|].
  unfold bind at 1.
  assert (∃ w0, when (negb isBulkProcessing)
                  (notice (lit "oEmbed failed, using fallback embed method"))
                  w = Done (Ok tt) w0 ∧ True) as (w0 & -> & _)
    by (destruct isBulkProcessing; simpl; eauto).
  destruct (extractTikTokPostedDate_total env url videoId w0 clock)
    as (day & w1 & Hrun & Hday & _).
  unfold bind at 1. rewrite Hrun.
  destruct (includes (lit "/photo/") url); unfold bind;
    rewrite today_run by apply clock; unfold ret;
    eexists _, _; (split; [|split; [|intros policy; reflexivity]]);
    try reflexivity;
    (split; [|exact Hday]); apply dateSource_clock.
Qed.

Lemma fetchFallback_routes url videoId isBulkProcessing error w :
  (∀ policy,
     fetchFallback (withPolicy policy settings) env url videoId
                   isBulkProcessing error w
     = handlePrivateVideo (withPolicy policy settings) env url videoId
                          isBulkProcessing w)
  ∨ ∃ data w', isPrivate data = false ∧ datesFrom env data ∧ ∀ policy,
      fetchFallback (withPolicy policy settings) env url videoId
                    isBulkProcessing error w = Done (Ok (Some data)) w'.
Proof.
  pose proof (fetchFallback_by_signal url videoId isBulkProcessing error w)
    as H.
  destruct (detectPrivateVideo error); [left|right]; exact H.
Qed.

Lemma oembedRecord_outcome url oembedData finalVideoId w :
  ∃ r w1, oembedRecord env url oembedData finalVideoId w = Done r w1
          ∧ publicOrThrown env r.
Proof.
  unfold oembedRecord.
  destruct (extractTikTokPostedDate_total env url finalVideoId w clock)
    as (day & w1 & Hrun & Hday & _).
  unfold bind at 1. rewrite Hrun.
  destruct (title oembedData) as [text| |].
  3: { eexists _, _. split; [reflexivity|exact I]. }
  all: unfold bind; rewrite today_run by apply clock; unfold ret;
    eexists _, _; (split; [reflexivity|]);
    (split; [reflexivity|]); (split; [|exact Hday]); apply dateSource_clock.
Qed.

Lemma fetchViaOembed_outcome url videoId w :
  ∃ r w1,
    (∀ policy, fetchViaOembed (withPolicy policy settings) env url videoId w
               = Done r w1)
    ∧ publicOrThrown env r.
Proof.
  unfold fetchViaOembed. cbn [urlTimeout withPolicy].
  destruct (encodeURIComponent env url) as [encoded|e].
  2: { exists (Throw e), w. split; [intros policy; reflexivity|exact I]. }
  unfold bind at 1. unfold liftRes. unfold bind at 1. unfold transportGet.
  destruct (getAt env (tick w)) as [e|statusCode|oembedData].
  - eexists _, _. split; [intros policy; reflexivity|exact I].
  - eexists _, _. split; [intros policy; reflexivity|exact I].
  - unfold bind at 1.
    destruct (negb (truthy videoId) && jsonTruthy (html oembedData)) eqn:Hid.
    + destruct (html oembedData) as [markup| |] eqn:Hhtml.
      * unfold ret at 1.
        match goal with
        | |- context [oembedRecord env url oembedData ?v ?w0] =>
            destruct (oembedRecord_outcome url oembedData v w0)
              as (r & w1 & Hrun & Hr); rewrite Hrun
        end.
        exists r, w1. split; [intros policy; reflexivity|exact Hr].
      * rewrite andb_false_r in Hid. discriminate.
      * eexists _, _. split; [intros policy; reflexivity|exact I].
    + unfold ret at 1.
      match goal with
      | |- context [oembedRecord env url oembedData ?v ?w0] =>
          destruct (oembedRecord_outcome url oembedData v w0)
            as (r & w1 & Hrun & Hr); rewrite Hrun
      end.
      exists r, w1. split; [intros policy; reflexivity|exact Hr].
Qed.

(** On mobile the address is never expanded. *)
Lemma expandUrl_mobile_run url w :
  isMobile env = true →
  ∃ w1, ∀ policy,
    expandUrl (withPolicy policy settings) env url w = Done (Ok url) w1.
Proof.
  intros Hmobile.
  assert (∃ w1, expandUrl settings env url w = Done (Ok url) w1)
    as (w1 & Hrun).
  { rewrite expandUrl_run, Hmobile.
    destruct (isShortLink url); [destruct (headAt env (tick w))|]; eauto. }
  exists w1. intros policy. exact Hrun.
Qed.

(** The resolution is handed to the private-content handling exactly on the
    signal. *)
Lemma fetchTikTokData_by_signal url isBulkProcessing w :
  if privateSignal settings env url w
  then routedToPrivate settings env url isBulkProcessing w
  else resolvedPublic settings env url isBulkProcessing w.
Proof.
  unfold privateSignal, routedToPrivate, resolvedPublic, fetchTikTokData.
  destruct (isMobile env) eqn:Hmobile.
  - (* mobile *)
    unfold fetchTikTokDataMobile.
    destruct (expandUrl_mobile_run url w Hmobile) as (w1 & Hexp).
    destruct (includes (lit "/photo/") url) eqn:Hphoto; cbn [negb andb].
    + destruct (handleSlideshowUrl_run url (extractVideoId url)
                  isBulkProcessing w1) as (data & w' & Hrun & Hp & Hd).
      exists data, w'. split; [exact Hp|]. split; [exact Hd|].
      intros policy. unfold bind at 1. rewrite Hexp, Hphoto.
      unfold bind. rewrite Hrun. reflexivity.
    + destruct (bool_decide
                  (removeFirst (chr "@") (extractAuthorFromUrl url)
                   = lit "Unknown")
                || negb (truthy (extractVideoId url))) eqn:Hguard.
      * exists url, (extractVideoId url), w1.
        intros policy. unfold bind at 1. rewrite Hexp, Hphoto, Hguard.
        reflexivity.
      * destruct (extractTikTokPostedDate_total env url
                    (extractVideoId url) w1 clock)
          as (day & w2 & Hrun & Hday & _).
        eexists _, _. split; [|split; [|intros policy]].
        3: { unfold bind at 1. rewrite Hexp, Hphoto, Hguard.
             unfold bind at 1. rewrite Hrun. unfold bind.
             rewrite today_run by apply clock. unfold ret. reflexivity. }
        -- reflexivity.
        -- split; [|exact Hday].
           apply dateSource_clock.
  - (* desktop *)
    destruct (includes (lit "/photo/") url) eqn:Hphoto; cbn [negb andb].
    + destruct (handleSlideshowUrl_run url (extractVideoId url)
                  isBulkProcessing w) as (data & w' & Hrun & Hp & Hd).
      exists data, w'. split; [exact Hp|]. split; [exact Hd|].
      intros policy. unfold bind. rewrite Hrun. reflexivity.
    + destruct (fetchViaOembed_outcome url (extractVideoId url) w)
        as (r & w1 & Hrun & Hr).
      pose proof (Hrun (handlePrivateVideos settings)) as Hown.
      rewrite withPolicy_same in Hown. rewrite Hown.
      destruct r as [[data|]|error]; cbn [publicOrThrown] in Hr.
      * destruct Hr as [Hp Hd].
        exists data, w1. split; [exact Hp|]. split; [exact Hd|].
        intros policy. unfold tryCatch. rewrite Hrun. reflexivity.
      * destruct Hr.
      * pose proof (fetchFallback_by_signal url (extractVideoId url)
                      isBulkProcessing error w1) as Hfall.
        destruct (detectPrivateVideo error).
        -- exists url, (extractVideoId url), w1. intros policy.
           unfold tryCatch. rewrite Hrun. apply Hfall.
        -- destruct Hfall as (data & w' & Hp & Hd & Hfall).
           exists data, w'. split; [exact Hp|]. split; [exact Hd|].
           intros policy. unfold tryCatch. rewrite Hrun. apply Hfall.
Qed.

Lemma fetchTikTokData_routes url isBulkProcessing w :
  routedToPrivate settings env url isBulkProcessing w
  ∨ resolvedPublic settings env url isBulkProcessing w.
Proof.
  pose proof (fetchTikTokData_by_signal url isBulkProcessing w) as H.
  destruct (privateSignal settings env url w); [left|right]; exact H.
Qed.

End FallbackTotality.

(** What [fetchTikTokData] does in every case: it returns, with a record
    whose dates come from the clock, the identifier or a header, or with no
    record under [skip] when the record would be private. *)
Lemma fetchTikTokData_outcome settings env url isBulkProcessing w :
  clockValid env →
  ∃ r w',
    fetchTikTokData settings env url isBulkProcessing w = Done (Ok r) w'
    ∧ match r with
      | Some data =>
          datesFrom env data
          ∧ (handlePrivateVideos settings = Skip → isPrivate data = false)
      | None =>
          handlePrivateVideos settings = Skip
          ∧ ∃ data w'',
              fetchTikTokData (withPolicy CreateEmpty settings) env url
                              isBulkProcessing w = Done (Ok (Some data)) w''
              ∧ isPrivate data = true
      end.
Proof.
  intros clock.
  destruct (fetchTikTokData_routes settings env clock url isBulkProcessing w)
    as [(u & videoId & w1 & Hroute)|(data & w' & Hp & Hd & Hrun)].
  - pose proof (Hroute (handlePrivateVideos settings)) as Hown.
    rewrite withPolicy_same in Hown.
    destruct (handlePrivateVideo_run settings env clock
                (handlePrivateVideos settings) u videoId isBulkProcessing w1)
      as (r & w' & Hrun & Hr).
    rewrite withPolicy_same in Hrun.
    exists r, w'. split; [congruence|].
    destruct (handlePrivateVideos settings) eqn:Hpolicy.
    + destruct Hr as (data & -> & Hpriv & Hdates).
      split; [exact Hdates|discriminate].
    + subst r. split; [reflexivity|].
      destruct (handlePrivateVideo_run settings env clock CreateEmpty u
                  videoId isBulkProcessing w1)
        as (r & w'' & Hrun' & (data & -> & Hpriv & _)).
      exists data, w''. split; [|exact Hpriv].
      rewrite Hroute. exact Hrun'.
    + destruct Hr as (data & -> & Hpriv & Hdates).
      split; [exact Hdates|discriminate].
  - exists (Some data), w'. split.
    + rewrite <- (withPolicy_same settings). apply Hrun.
    + split; [exact Hd|intros _; exact Hp].
Qed.


(** The dates of a record have the plain form [YYYY-MM-DD] when the clock
    and the last-modified headers stay within the years 0 to 9999. *)
Lemma fetchTikTokData_dates_four_digit settings env url isBulkProcessing w
    data w' :
  clockValid env → fourDigitYears env →
  fetchTikTokData settings env url isBulkProcessing w
  = Done (Ok (Some data)) w' →
  JsDate.isFourDigitYearDate (createdDate data) = true
  ∧ JsDate.isFourDigitYearDate (postedDate data) = true.
Proof.
  intros clock years Hrun.
  destruct (fetchTikTokData_outcome settings env url isBulkProcessing w clock)
    as (r & w0 & Hrun0 & Hr).
  rewrite Hrun in Hrun0. injection Hrun0 as <- <-.
  destruct Hr as [[Hcreated Hposted] _].
  split; eapply dateSource_four_digit; eauto.
Qed.


(** ** Note writer *)

Lemma foldersFrom_elem_of (dir name : jsstring) : ∀ done,
  isNonEmpty (done ++ dir) = true →
  done ++ dir ∈ foldersFrom done (dir ++ lit "/" ++ name).
Proof.
  induction dir as [|c dir IH]; intros done Hne.
  - rewrite app_nil_r in *. change (lit "/") with [chr "/"]. cbn [app foldersFrom].
    rewrite N.eqb_refl, Hne. left.
  - cbn [app foldersFrom]. apply elem_of_app. right.
    replace (done ++ c :: dir) with ((done ++ [c]) ++ dir)
      by (rewrite <- app_assoc; reflexivity).
    apply IH. rewrite <- app_assoc. exact Hne.
Qed.

(** In a tree the folder of an existing note exists. *)
Lemma folder_of_existing_note (v : gmap jsstring Entry) folderPath name :
  hierarchical v →
  isNonEmpty folderPath = true →
  is_Some (v !! notePath folderPath name) →
  is_Some (v !! folderPath).
Proof.
  intros Htree Hne [entry Hentry]. unfold notePath in Hentry.
  rewrite Hne in Hentry. specialize (Htree _ _ Hentry). cbv beta in Htree.
  rewrite Forall_forall in Htree. apply Htree.
  unfold parentFolders.
  pose proof (foldersFrom_elem_of folderPath (name ++ lit ".md") []) as H.
  cbn [app] in H. apply H, Hne.
Qed.

Lemma digitsOfUint_inj d1 : ∀ d2, digitsOfUint d1 = digitsOfUint d2 → d1 = d2.
Proof.
  induction d1; intros d2 H; destruct d2; simpl in H;
    try discriminate; try reflexivity;
    injection H as H; f_equal; auto.
Qed.

Lemma decimal_inj n1 n2 : decimal n1 = decimal n2 → n1 = n2.
Proof.
  unfold decimal. intros H. apply digitsOfUint_inj in H.
  rewrite <- (DecimalN.Unsigned.of_to n1), <- (DecimalN.Unsigned.of_to n2).
  f_equal. exact H.
Qed.

Lemma candidatePath_inj folderPath fileName k1 k2 :
  candidatePath folderPath fileName k1 = candidatePath folderPath fileName k2 →
  k1 = k2.
Proof.
  unfold candidatePath, notePath. intros H.
  apply decimal_inj.
  destruct (isNonEmpty folderPath).
  - repeat apply app_inv_head in H. apply app_inv_tail in H.
    apply app_inv_head in H. apply app_inv_head in H. exact H.
  - apply app_inv_tail in H. repeat apply app_inv_head in H. exact H.
Qed.

Section NoteWriterFacts.

Variable settings : Settings.
Variable env : Env.
Variable generateFileName : TikTokData → jsstring.
Variable generateNoteTitle : TikTokData → jsstring.
Variable generateNoteContent : TikTokData → jsstring.

Local Notation "'createNote'" :=
  (createTikTokNote settings env generateFileName generateNoteTitle
                    generateNoteContent).

(** When a file exists at the target path of a tree-shaped vault, the folder
    is there, nothing is created up to the collision, and what follows is the
    handling of the collision. *)
Lemma createTikTokNote_on_collision fuel data isBulkProcessing w :
  hierarchical (vault w) →
  is_Some (vault w !! notePath (outputFolder settings) (generateFileName data)) →
  createNote fuel (Some data) isBulkProcessing w =
  (let fileName := generateFileName data in
   let noteTitle := generateNoteTitle data in
   let noteContent := generateNoteContent data in
   let folderPath := outputFolder settings in
   let original := notePath folderPath fileName in
   if isBulkProcessing then
     ret {| n_success := false; n_duplicate := true;
            n_fileName := Some fileName; n_noteTitle := Some noteTitle |}
   else
     let! action := handleDuplicateFile env fileName noteTitle in
     match action with
     | SkipFile =>
         let! _ := notice (lit "File creation skipped") in
         ret {| n_success := false; n_duplicate := false;
                n_fileName := None; n_noteTitle := None |}
     | Duplicate =>
         let! filePath := probeDuplicate fuel folderPath fileName 1 in
         writeNote env true original filePath fileName noteTitle
                   noteContent isBulkProcessing
     | Replace =>
         writeNote env true original original fileName noteTitle
                   noteContent isBulkProcessing
     end) w.
Proof.
  intros Htree Hexists. unfold createTikTokNote. cbv zeta.
  unfold bind at 1.
  assert ((if isNonEmpty (outputFolder settings)
           then
             let! folder := getAbstractFileByPath (outputFolder settings) in
             when (negb (bool_decide (is_Some folder)))
                  (createFolder env (outputFolder settings))
           else ret tt) w = Done (Ok tt) w) as ->.
  { destruct (isNonEmpty (outputFolder settings)) eqn:Hne; [|reflexivity].
    unfold bind, getAbstractFileByPath.
    rewrite bool_decide_eq_true_2
      by (eapply folder_of_existing_note; eauto).
    reflexivity. }
  unfold bind at 1. unfold getAbstractFileByPath at 1.
  destruct Hexists as [entry ->]. reflexivity.
Qed.

(** C5. In batch mode, when a file exists at the target path, the note
    writer returns the duplicate-pending outcome and the world is as before:
    no dialog was opened, no notice shown, no file or folder created, deleted
    or changed. *)
Theorem createTikTokNote_batch_duplicate_pending fuel data w :
  hierarchical (vault w) →
  is_Some (vault w !! notePath (outputFolder settings) (generateFileName data)) →
  createNote fuel (Some data) true w =
  Done (Ok {| n_success := false; n_duplicate := true;
              n_fileName := Some (generateFileName data);
              n_noteTitle := Some (generateNoteTitle data) |}) w.
Proof.
  intros Htree Hexists.
  rewrite createTikTokNote_on_collision by assumption. reflexivity.
Qed.

(** *** The [duplicate] choice *)

Local Notation "'candidate' data" :=
  (candidatePath (outputFolder settings) (generateFileName data))
  (at level 10, data at level 9).

Lemma probeDuplicate_finds (data : TikTokData) (w : World) (k : N) : ∀ fuel counter,
  (∀ j, (counter ≤ j < k)%N → is_Some (vault w !! candidate data j)) →
  vault w !! candidate data k = None →
  (counter ≤ k)%N →
  N.to_nat (k - counter) < fuel →
  probeDuplicate fuel (outputFolder settings) (generateFileName data) counter w
  = Done (Ok (candidate data k)) w.
Proof.
  induction fuel as [|fuel IH]; intros counter Hbelow Hfree Hle Hfuel; [lia|].
  cbn [probeDuplicate]. unfold bind, getAbstractFileByPath.
  fold (candidate data counter).
  destruct (N.eq_dec counter k) as [->|Hne].
  - rewrite Hfree. reflexivity.
  - destruct (Hbelow counter ltac:(lia)) as [entry ->].
    apply IH; [intros j Hj; apply Hbelow; lia|exact Hfree|lia|lia].
Qed.

(** The vault being finite, some counter from 1 on gives a free path; the
    first such counter is at most the size of the vault plus one. *)
Lemma first_free_candidate (data : TikTokData) (v : gmap jsstring Entry) :
  ∃ k : N, (1 ≤ k)%N ∧ N.to_nat k ≤ S (size v)
    ∧ (∀ j, (1 ≤ j < k)%N → is_Some (v !! candidate data j))
    ∧ v !! candidate data k = None.
Proof.
  set (cand := λ i : nat, candidate data (N.of_nat (S i))).
  assert (Hfree : ∃ i, i ≤ size v ∧ v !! cand i = None).
  { set (l := cand <$> seq 0 (S (size v))).
    destruct (decide (Forall (λ p, is_Some (v !! p)) l)) as [Hall|Hnot].
    - exfalso.
      assert (Hnodup : NoDup l).
      { apply NoDup_fmap_2; [|apply NoDup_seq].
        intros i j Hij. apply candidatePath_inj in Hij. lia. }
      assert (Hsub : l ⊆+ elements (dom v)).
      { apply NoDup_submseteq; [exact Hnodup|].
        intros p Hp. rewrite Forall_forall in Hall.
        apply elem_of_elements, elem_of_dom, Hall, Hp. }
      apply submseteq_length in Hsub.
      assert (length (elements (dom v)) = size v) as Hsize
        by (rewrite <- size_dom; reflexivity).
      rewrite Hsize in Hsub.
      subst l. rewrite length_fmap, length_seq in Hsub. lia.
    - apply not_Forall_Exists in Hnot; [|apply _].
      apply Exists_exists in Hnot as (p & Hp & Hnone).
      apply list_elem_of_fmap in Hp as (i & -> & Hi).
      apply elem_of_seq in Hi. exists i. split; [lia|].
      destruct (v !! cand i) eqn:E; [|reflexivity].
      exfalso. apply Hnone. eauto. }
  destruct Hfree as (i0 & Hi0 & Hfree0).
  destruct (dec_inh_nat_subset_has_unique_least_element
              (λ i, v !! cand i = None)) as (i & [Hi Hleast] & _).
  { intros n. destruct (v !! cand n); [right; discriminate|left; reflexivity]. }
  { exists i0. exact Hfree0. }
  exists (N.of_nat (S i)). split; [lia|]. split; [|split].
  - specialize (Hleast i0 Hfree0). lia.
  - intros j Hj.
    destruct (v !! candidate data j) eqn:E; [eauto|exfalso].
    assert (Hj' : v !! cand (Nat.pred (N.to_nat j)) = None).
    { unfold cand. replace (N.of_nat (S (Nat.pred (N.to_nat j)))) with j by lia.
      exact E. }
    specialize (Hleast _ Hj'). lia.
  - exact Hi.
Qed.

Lemma writeNote_fresh_path original filePath fileName noteTitle noteContent w :
  filePath ≠ original →
  vault w !! filePath = None →
  writeNote env true original filePath fileName noteTitle noteContent false w =
  match vaultFaultAt env (tick w) with
  | None =>
      Done (Ok {| n_success := true; n_duplicate := false;
                  n_fileName := Some fileName; n_noteTitle := Some noteTitle |})
           (logEvent (Notice (lit "Created: " ++ noteTitle))
              (nextTick (setVault (<[filePath := File noteContent]> (vault w)) w)))
  | Some _ =>
      Done (Ok {| n_success := false; n_duplicate := false;
                  n_fileName := None; n_noteTitle := None |})
           (logEvent (Notice (lit "Failed to create note")) (nextTick w))
  end.
Proof.
  intros Hne Hfree. unfold writeNote, tryCatch, bind, create, vaultOp.
  rewrite bool_decide_eq_false_2 by exact Hne. cbn [andb].
  destruct (vaultFaultAt env (tick w)); [reflexivity|].
  rewrite Hfree. reflexivity.
Qed.

(** C6. In single mode, when a file exists at the target path and the user
    chooses [duplicate], the paths with the suffixes -1, -2, ... are probed
    in this order: there is a first counter [k] whose path is free, all
    smaller ones being taken, and it is at most the size of the vault plus
    one; with fuel for [k] probes the writer returns, having created the
    note at that path when the file store lets it. Whatever lay in the vault
    lies there unchanged. *)
Theorem createTikTokNote_duplicate_suffix (data : TikTokData) w :
  hierarchical (vault w) →
  is_Some (vault w !! notePath (outputFolder settings) (generateFileName data)) →
  promptAt env (tick w) = Duplicate →
  ∃ k : N,
    (1 ≤ k)%N ∧ N.to_nat k ≤ S (size (vault w))
    ∧ (∀ j, (1 ≤ j < k)%N → is_Some (vault w !! candidate data j))
    ∧ vault w !! candidate data k = None
    ∧ ∀ fuel, N.to_nat k ≤ fuel →
        ∃ r w',
          createNote fuel (Some data) false w = Done (Ok r) w'
          ∧ (∀ path entry, vault w !! path = Some entry →
                           vault w' !! path = Some entry)
          ∧ match vaultFaultAt env (S (tick w)) with
            | None =>
                n_success r = true
                ∧ vault w' = <[candidate data k := File (generateNoteContent data)]>
                               (vault w)
            | Some _ => n_success r = false ∧ vault w' = vault w
            end.
Proof.
  intros Htree Hexists Hprompt.
  destruct (first_free_candidate data (vault w))
    as (k & Hk1 & Hsize & Hbelow & Hfree).
  exists k. split; [exact Hk1|]. split; [exact Hsize|].
  split; [exact Hbelow|]. split; [exact Hfree|].
  intros fuel Hfuel.
  rewrite createTikTokNote_on_collision by assumption. cbv zeta.
  unfold bind at 1. unfold handleDuplicateFile at 1. rewrite Hprompt.
  unfold bind at 1.
  set (w1 := nextTick (logEvent (PromptedDuplicate (generateFileName data)
                                   (generateNoteTitle data)) w)).
  rewrite (probeDuplicate_finds data w1 k fuel 1);
    [|intros j Hj; apply Hbelow; lia|exact Hfree|lia|lia].
  rewrite writeNote_fresh_path; [|intros Heq|exact Hfree].
  2: { destruct Hexists as [entry Hentry]. fold (candidate data k) in Heq.
       rewrite <- Heq in Hentry. simpl in Hentry. congruence. }
  change (tick w1) with (S (tick w)).
  destruct (vaultFaultAt env (S (tick w))).
  - eexists _, _. split; [reflexivity|]. split; [|split; reflexivity].
    intros path entry Hpath. exact Hpath.
  - eexists _, _. split; [reflexivity|]. split; [|split; reflexivity].
    intros path entry Hpath. cbn [vault logEvent nextTick setVault w1].
    rewrite lookup_insert_ne; [exact Hpath|].
    intros <-. congruence.
Qed.

(** C10. The [replace] choice is not atomic: the existing file is deleted
    before the new one is created, so when the creation fails after the
    deletion succeeded the writer reports a failure and the note that was
    there is gone. *)
Theorem createTikTokNote_replace_not_atomic fuel (data : TikTokData) w e :
  hierarchical (vault w) →
  is_Some (vault w !! notePath (outputFolder settings) (generateFileName data)) →
  promptAt env (tick w) = Replace →
  vaultFaultAt env (S (tick w)) = None →
  vaultFaultAt env (S (S (tick w))) = Some e →
  ∃ w',
    createNote fuel (Some data) false w =
    Done (Ok {| n_success := false; n_duplicate := false;
                n_fileName := None; n_noteTitle := None |}) w'
    ∧ vault w' = delete (notePath (outputFolder settings) (generateFileName data))
                        (vault w)
    ∧ vault w' !! notePath (outputFolder settings) (generateFileName data) = None
    ∧ vault w' ≠ vault w
    ∧ events w' = events w ++
        [PromptedDuplicate (generateFileName data) (generateNoteTitle data);
         Notice (lit "Failed to create note")].
Proof.
  intros Htree Hexists Hprompt Hdelete Hcreate.
  rewrite createTikTokNote_on_collision by assumption. cbv zeta.
  unfold bind at 1. unfold handleDuplicateFile at 1. rewrite Hprompt.
  unfold writeNote, tryCatch, bind, delete_, create, vaultOp.
  rewrite bool_decide_eq_true_2 by reflexivity.
  cbn [andb tick vault events logEvent nextTick setVault].
  rewrite Hdelete. cbn [tick vault events logEvent nextTick setVault].
  rewrite Hcreate. cbn [negb when notice].
  eexists. split; [reflexivity|].
  cbn [tick vault events logEvent nextTick setVault].
  split; [reflexivity|]. split; [apply lookup_delete_eq|]. split.
  - intros Heq. destruct Hexists as [entry Hentry].
    rewrite <- Heq, lookup_delete_eq in Hentry. discriminate.
  - rewrite <- app_assoc. reflexivity.
Qed.

End NoteWriterFacts.

(** ** The clipboard action *)

Section ClipboardFacts.

Variable settings : Settings.
Variable env : Env.
Variable generateFileName : TikTokData → jsstring.
Variable generateNoteTitle : TikTokData → jsstring.
Variable generateNoteContent : TikTokData → jsstring.

(** [processTikTokUrl] catches whatever its steps throw. *)
Lemma processTikTokUrl_never_throws fuel url w e w' :
  processTikTokUrl settings env generateFileName generateNoteTitle
                   generateNoteContent fuel url w ≠ Done (Throw e) w'.
Proof.
  unfold processTikTokUrl, tryCatch, notice.
  match goal with |- context [match ?body with _ => _ end] =>
    destruct body as [[a|e0] w0|] end; discriminate.
Qed.

(** C9. With bulk processing disabled, the clipboard action does for a
    clipboard holding several URLs what it does for the first of them alone:
    after the notice that processing starts, the run is that of
    [processTikTokUrl] on the first URL. The other URLs take no part in it:
    no dialog, no notice, no request and no write comes from them. *)
Theorem processTikTokFromClipboard_bulk_disabled fuel text first rest w :
  enableBulkProcessing settings = false →
  extractTikTokUrls text = first :: rest →
  processTikTokFromClipboard settings env generateFileName generateNoteTitle
                             generateNoteContent fuel (Ok text) w =
  processTikTokUrl settings env generateFileName generateNoteTitle
                   generateNoteContent fuel first
                   (logEvent (Notice (lit "Processing TikTok URL...")) w).
Proof.
  intros Hbulk Hurls.
  unfold processTikTokFromClipboard, shouldShowBulkModal.
  rewrite Hbulk. cbn [negb].
  unfold tryCatch at 1. unfold bind at 1. unfold liftRes at 1.
  rewrite Hurls. unfold bind at 1. unfold notice at 1.
  pose proof (processTikTokUrl_never_throws fuel first
    (logEvent (Notice (lit "Processing TikTok URL...")) w)) as Hnothrow.
  destruct (processTikTokUrl settings env generateFileName generateNoteTitle
              generateNoteContent fuel first
              (logEvent (Notice (lit "Processing TikTok URL...")) w))
    as [[[]|e] w'|]; [reflexivity| |reflexivity].
  exfalso. exact (Hnothrow e w' eq_refl).
Qed.

End ClipboardFacts.

(** ** Properties of the bulk loop *)

Section BulkLoopFacts.

Variable race : nat → jsstring → Res ItemOutcome.
Variable urls : list jsstring.

(** The queue never grows: an iteration removes one URL and puts back at most
    that one. *)
Lemma bulkIteration_queue_length st url rest :
  length (processingQueue (bulkIteration race urls st url rest))
  ≤ S (length rest).
Proof.
  unfold bulkIteration.
  destruct (race (iteration st) url) as [r|e]; simpl; [lia|].
  destruct (isProcessingTimeout e && _); simpl; [|lia].
  rewrite length_app. simpl. lia.
Qed.

(** While the queue holds no more URLs than the initial worklist, the bound
    [processingQueue.length < urls.length * 2] read after the shift is
    true. *)
Lemma requeue_guard_true (rest : list jsstring) url :
  length (url :: rest) ≤ length urls →
  bool_decide (length rest < length urls * 2) = true.
Proof.
  simpl. intros H. apply bool_decide_eq_true. lia.
Qed.

End BulkLoopFacts.

(** Under persistent timeouts an iteration only rotates the queue. *)
Lemma bulkIteration_alwaysTimeout urls st url rest :
  length (url :: rest) ≤ length urls →
  bulkIteration alwaysTimeout urls st url rest =
  {| processingQueue := rest ++ [url];
     results := results st;
     processed := processed st;
     iteration := S (iteration st) |}.
Proof.
  intros H. unfold bulkIteration, alwaysTimeout.
  rewrite (requeue_guard_true urls rest url H).
  reflexivity.
Qed.

Lemma bulkLoop_alwaysTimeout urls fuel : ∀ st,
  processingQueue st ≠ [] →
  length (processingQueue st) ≤ length urls →
  bulkLoop alwaysTimeout urls fuel st = None.
Proof.
  induction fuel as [|fuel IH]; intros st Hne Hlen.
  - simpl. destruct (processingQueue st); [done|reflexivity].
  - simpl. destruct (processingQueue st) as [|url rest] eqn:Hq; [done|].
    rewrite bulkIteration_alwaysTimeout by exact Hlen.
    apply IH; simpl.
    + destruct rest; discriminate.
    + rewrite length_app. simpl in *. lia.
Qed.

(** For every run of the races: the queue never exceeds the initial worklist,
    so the bound is never reached and no timeout is ever recorded as a
    failure; a timed-out URL always goes back to the queue. *)
Lemma bulkLoop_never_records_a_timeout race urls fuel : ∀ st rs,
  length (processingQueue st) ≤ length urls →
  Forall (λ r, r_error r ≠ Some (lit "Processing timeout")) (results st) →
  bulkLoop race urls fuel st = Some rs →
  Forall (λ r, r_error r ≠ Some (lit "Processing timeout")) rs.
Proof.
  induction fuel as [|fuel IH]; intros st rs Hlen Hres Hrun; simpl in Hrun.
  - destruct (processingQueue st); [|discriminate].
    injection Hrun as <-. exact Hres.
  - destruct (processingQueue st) as [|url rest] eqn:Hq.
    { injection Hrun as <-. exact Hres. }
    apply IH in Hrun; [exact Hrun| |].
    + pose proof (bulkIteration_queue_length race urls st url rest).
      simpl in Hlen. lia.
    + unfold bulkIteration.
      destruct (race (iteration st) url) as [r|e]; simpl.
      * apply Forall_app. split; [exact Hres|].
        repeat constructor. discriminate.
      * rewrite (requeue_guard_true urls rest url Hlen), andb_true_r.
        unfold isProcessingTimeout.
        destruct (bool_decide (message e = Some (lit "Processing timeout")))
          eqn:Hmsg; simpl; [exact Hres|].
        apply bool_decide_eq_false in Hmsg.
        apply Forall_app. split; [exact Hres|].
        repeat constructor. exact Hmsg.
Qed.

(** Without timeouts the loop ends after one iteration per URL, with one
    result for each. *)
Lemma bulkLoop_finishes_without_timeouts race urls : ∀ queue st,
  (∀ n url e, race n url = Throw e → isProcessingTimeout e = false) →
  processingQueue st = queue →
  ∃ rs, bulkLoop race urls (length queue) st = Some rs
        ∧ length rs = length (results st) + length queue.
Proof.
  induction queue as [|url rest IH]; intros st Hrace Hq; simpl; rewrite Hq.
  - exists (results st). split; [reflexivity|lia].
  - destruct (IH (bulkIteration race urls st url rest) Hrace) as (rs & Hrun & Hlen).
    + unfold bulkIteration.
      destruct (race (iteration st) url) as [r|e] eqn:Hr; [reflexivity|].
      rewrite (Hrace _ _ _ Hr). reflexivity.
    + exists rs. split; [exact Hrun|]. rewrite Hlen.
      unfold bulkIteration.
      destruct (race (iteration st) url) as [r|e] eqn:Hr; simpl.
      * rewrite length_app. simpl. lia.
      * rewrite (Hrace _ _ _ Hr). simpl. rewrite length_app. simpl. lia.
Qed.

(** C1. The requeue bound does not stop the loop: for a non-empty worklist,
    when every attempt times out, the loop has not finished after any number
    of iterations; no result is ever recorded. *)
Theorem processBulkTikToks_persistent_timeout_never_finishes urls fuel :
  urls ≠ [] →
  processBulkTikToks alwaysTimeout urls fuel = None.
Proof.
  intros Hne. unfold processBulkTikToks.
  destruct urls as [|url urls]; [done|].
  apply bulkLoop_alwaysTimeout; simpl; [discriminate|lia].
Qed.

Lemma processBulkTikToks_persistent_timeout_never_finishes_witness :
  [lit "https://vm.tiktok.com/ZM8abc/"] ≠ []
  ∧ processBulkTikToks alwaysTimeout
      [lit "https://vm.tiktok.com/ZM8abc/"] 1000 = None.
Proof.
  split; [discriminate|].
  apply (processBulkTikToks_persistent_timeout_never_finishes
           [lit "https://vm.tiktok.com/ZM8abc/"] 1000).
  discriminate.
Defined.

(** ** The properties at sample inputs *)

Lemma clockValid_offlineEnv : clockValid offlineEnv.
Proof. intros n. unfold JsDate.validTime. simpl. split; discriminate. Qed.

Lemma hierarchical_vaultWithNote : hierarchical vaultWithNote.
Proof. apply (bool_decide_unpack _). vm_compute. exact I. Qed.


Lemma fetchTikTokData_hashtags_one_per_occurrence_witness :
  ∃ data w',
    fetchTikTokData DEFAULT_SETTINGS (envWithOembed repeatedTagAnswer)
      (lit "https://www.tiktok.com/@abc/video/1") false startWorld
    = Done (Ok (Some data)) w'
    ∧ description data = lit "Dance #fun #fun"
    ∧ hashtags data
      = extractHashtags (envWithOembed repeatedTagAnswer) (description data).
Proof.
  destruct (fetchTikTokData DEFAULT_SETTINGS (envWithOembed repeatedTagAnswer)
              (lit "https://www.tiktok.com/@abc/video/1") false startWorld)
    as [[[data|]|e] w'|] eqn:Hrun; try (vm_compute in Hrun; discriminate).
  exists data, w'. split; [reflexivity|]. split.
  - vm_compute in Hrun. injection Hrun as <- _. reflexivity.
  - exact (proj2 (fetchTikTokData_hashtags_one_per_occurrence DEFAULT_SETTINGS
                    (envWithOembed repeatedTagAnswer))
             _ _ _ _ _ Hrun).
Defined.


Lemma createTikTokNote_batch_duplicate_pending_witness :
  hierarchical (vault worldWithNote)
  ∧ is_Some (vault worldWithNote
             !! notePath (outputFolder DEFAULT_SETTINGS)
                         (sampleFileName sampleData))
  ∧ createTikTokNote DEFAULT_SETTINGS offlineEnv sampleFileName
      sampleNoteTitle sampleNoteContent 0 (Some sampleData) true worldWithNote
    = Done (Ok {| n_success := false; n_duplicate := true;
                  n_fileName := Some (sampleFileName sampleData);
                  n_noteTitle := Some (sampleNoteTitle sampleData) |})
           worldWithNote.
Proof.
  assert (H1 : hierarchical (vault worldWithNote))
    by exact hierarchical_vaultWithNote.
  assert (H2 : is_Some (vault worldWithNote
                        !! notePath (outputFolder DEFAULT_SETTINGS)
                                    (sampleFileName sampleData)))
    by (eexists; vm_compute; reflexivity).
  split; [exact H1|]. split; [exact H2|].
  exact (createTikTokNote_batch_duplicate_pending DEFAULT_SETTINGS offlineEnv
           sampleFileName sampleNoteTitle sampleNoteContent 0 sampleData
           worldWithNote H1 H2).
Defined.

Lemma createTikTokNote_duplicate_suffix_witness :
  hierarchical (vault worldWithNote)
  ∧ promptAt (envAnswering Duplicate (λ _, None)) (tick worldWithNote)
    = Duplicate
  ∧ ∃ k : N,
      (1 ≤ k)%N ∧ N.to_nat k ≤ S (size (vault worldWithNote))
      ∧ (∀ j, (1 ≤ j < k)%N →
           is_Some (vault worldWithNote
                    !! candidatePath (outputFolder DEFAULT_SETTINGS)
                                     (sampleFileName sampleData) j))
      ∧ vault worldWithNote
        !! candidatePath (outputFolder DEFAULT_SETTINGS)
                         (sampleFileName sampleData) k = None
      ∧ ∀ fuel, N.to_nat k ≤ fuel →
          ∃ r w',
            createTikTokNote DEFAULT_SETTINGS
              (envAnswering Duplicate (λ _, None)) sampleFileName
              sampleNoteTitle sampleNoteContent fuel (Some sampleData) false
              worldWithNote = Done (Ok r) w'
            ∧ (∀ path entry, vault worldWithNote !! path = Some entry →
                             vault w' !! path = Some entry)
            ∧ match vaultFaultAt (envAnswering Duplicate (λ _, None))
                      (S (tick worldWithNote)) with
              | None =>
                  n_success r = true
                  ∧ vault w'
                    = <[candidatePath (outputFolder DEFAULT_SETTINGS)
                          (sampleFileName sampleData) k
                        := File (sampleNoteContent sampleData)]>
                        (vault worldWithNote)
              | Some _ => n_success r = false ∧ vault w' = vault worldWithNote
              end.
Proof.
  split; [exact hierarchical_vaultWithNote|]. split; [reflexivity|].
  apply (createTikTokNote_duplicate_suffix DEFAULT_SETTINGS
           (envAnswering Duplicate (λ _, None)) sampleFileName sampleNoteTitle
           sampleNoteContent sampleData worldWithNote).
  - exact hierarchical_vaultWithNote.
  - eexists. vm_compute. reflexivity.
  - reflexivity.
Defined.

Lemma createTikTokNote_replace_not_atomic_witness :
  ∃ w',
    createTikTokNote DEFAULT_SETTINGS
      (envAnswering Replace failSecondOperation) sampleFileName
      sampleNoteTitle sampleNoteContent 0 (Some sampleData) false worldWithNote
    = Done (Ok {| n_success := false; n_duplicate := false;
                  n_fileName := None; n_noteTitle := None |}) w'
    ∧ vault w' = delete (notePath (outputFolder DEFAULT_SETTINGS)
                                  (sampleFileName sampleData))
                        (vault worldWithNote)
    ∧ vault w' !! notePath (outputFolder DEFAULT_SETTINGS)
                           (sampleFileName sampleData) = None
    ∧ vault w' ≠ vault worldWithNote
    ∧ events w' = events worldWithNote ++
        [PromptedDuplicate (sampleFileName sampleData)
                           (sampleNoteTitle sampleData);
         Notice (lit "Failed to create note")].
Proof.
  apply (createTikTokNote_replace_not_atomic DEFAULT_SETTINGS
           (envAnswering Replace failSecondOperation) sampleFileName
           sampleNoteTitle sampleNoteContent 0 sampleData worldWithNote
           (newError (lit "disk full"))).
  - exact hierarchical_vaultWithNote.
  - eexists. vm_compute. reflexivity.
  - reflexivity.
  - reflexivity.
  - reflexivity.
Defined.

Lemma processTikTokFromClipboard_bulk_disabled_witness :
  enableBulkProcessing (withBulkProcessing false DEFAULT_SETTINGS) = false
  ∧ extractTikTokUrls twoUrlsText
    = [lit "https://www.tiktok.com/@a/video/1";
       lit "https://www.tiktok.com/@b/video/2"]
  ∧ processTikTokFromClipboard (withBulkProcessing false DEFAULT_SETTINGS)
      offlineEnv sampleFileName sampleNoteTitle sampleNoteContent 1
      (Ok twoUrlsText) startWorld
    = processTikTokUrl (withBulkProcessing false DEFAULT_SETTINGS) offlineEnv
        sampleFileName sampleNoteTitle sampleNoteContent 1
        (lit "https://www.tiktok.com/@a/video/1")
        (logEvent (Notice (lit "Processing TikTok URL...")) startWorld).
Proof.
  assert (H : extractTikTokUrls twoUrlsText
              = [lit "https://www.tiktok.com/@a/video/1";
                 lit "https://www.tiktok.com/@b/video/2"])
    by (vm_compute; reflexivity).
  split; [reflexivity|]. split; [exact H|].
  exact (processTikTokFromClipboard_bulk_disabled
           (withBulkProcessing false DEFAULT_SETTINGS) offlineEnv
           sampleFileName sampleNoteTitle sampleNoteContent 1 twoUrlsText
           (lit "https://www.tiktok.com/@a/video/1")
           [lit "https://www.tiktok.com/@b/video/2"] startWorld eq_refl H).
Defined.

(** ** Sample runs *)

Example extractTikTokUrls_sample :
  extractTikTokUrls
    (lit "see (https://www.tiktok.com/@a/video/1) and https://vm.tiktok.com/ZM8/, again https://www.tiktok.com/@a/video/1")
  = [lit "https://www.tiktok.com/@a/video/1"; lit "https://vm.tiktok.com/ZM8/,"].
Proof. vm_compute. reflexivity. Qed.

Example isoDay_sample :
  JsDate.toISOString (JsDate.ofTime 1709251199999)
  = Ok (lit "2024-02-29T23:59:59.999Z").
Proof. vm_compute. reflexivity. Qed.

Example extractHashtags_sample :
  extractHashtags offlineEnv (lit "Dance #fun#sun and # x #a_b!")
  = [lit "#fun"; lit "#sun"; lit "#a_b"].
Proof. vm_compute. reflexivity. Qed.

Example expandUrl_sample :
  expandUrl DEFAULT_SETTINGS offlineEnv (lit "https://vm.tiktok.com/ZM8/")
            startWorld
  = Done (Ok (lit "https://vm.tiktok.com/ZM8/"))
         (afterHead offlineEnv (lit "https://vm.tiktok.com/ZM8/") 10000
                    startWorld).
Proof. vm_compute. reflexivity. Qed.

(** The [duplicate] choice on the sample vault: the suffix -1 is taken, the
    note goes to the suffix -2, and the two files that were there stay. *)
Example createTikTokNote_duplicate_sample :
  match createTikTokNote DEFAULT_SETTINGS (envAnswering Duplicate (λ _, None))
          sampleFileName sampleNoteTitle sampleNoteContent 2 (Some sampleData)
          false worldWithNote with
  | Done (Ok r) w' =>
      n_success r = true
      ∧ vault w' !! lit "TikToks/TikTok by abc-2.md"
        = Some (File (sampleNoteContent sampleData))
      ∧ vault w' !! lit "TikToks/TikTok by abc-1.md"
        = Some (File (lit "first duplicate"))
      ∧ vault w' !! lit "TikToks/TikTok by abc.md" = Some (File (lit "the note"))
      ∧ size (vault w') = 4
  | _ => False
  end.
Proof. vm_compute. repeat split. Qed.

(** A run of the bulk loop in which the first attempt at the first URL times
    out: the URL goes to the back of the queue and is processed last. *)
Example processBulkTikToks_requeue_sample :
  map r_url <$> processBulkTikToks timeoutOnce [lit "a"; lit "b"] 3
  = Some [lit "b"; lit "a"].
Proof. vm_compute. reflexivity. Qed.

(** * Further properties *)

(** ** The resolver and the vault *)

Section Confined.

Variable allowed : Event → bool.

Lemma confined_ret {A} (a : A) : confined allowed (ret a).
Proof.
  intros w. exists (Ok a), w, []. rewrite app_nil_r. repeat split; reflexivity.
Qed.

Lemma confined_throw {A} e : confined allowed (@throw A e).
Proof.
  intros w. exists (Throw e), w, []. rewrite app_nil_r. repeat split; reflexivity.
Qed.

Lemma confined_liftRes {A} (r : Res A) : confined allowed (liftRes r).
Proof.
  intros w. exists r, w, []. rewrite app_nil_r. repeat split; reflexivity.
Qed.

Lemma confined_bind {A B} (m : M A) (f : A → M B) :
  confined allowed m → (∀ a, confined allowed (f a)) →
  confined allowed (bind m f).
Proof.
  intros Hm Hf w. destruct (Hm w) as (r & w1 & l1 & Hrun & Hv & Hev & Hl).
  unfold bind. rewrite Hrun. destruct r as [a|e].
  - destruct (Hf a w1) as (r2 & w2 & l2 & Hrun2 & Hv2 & Hev2 & Hl2).
    exists r2, w2, (l1 ++ l2). split; [exact Hrun2|].
    split; [congruence|]. split.
    + rewrite Hev2, Hev, <- app_assoc. reflexivity.
    + rewrite forallb_app, Hl, Hl2. reflexivity.
  - exists (Throw e), w1, l1. repeat split; assumption.
Qed.

Lemma confined_tryCatch {A} (m : M A) (handler : Error → M A) :
  confined allowed m → (∀ e, confined allowed (handler e)) →
  confined allowed (tryCatch m handler).
Proof.
  intros Hm Hh w. destruct (Hm w) as (r & w1 & l1 & Hrun & Hv & Hev & Hl).
  unfold tryCatch. rewrite Hrun. destruct r as [a|e].
  - exists (Ok a), w1, l1. repeat split; assumption.
  - destruct (Hh e w1) as (r2 & w2 & l2 & Hrun2 & Hv2 & Hev2 & Hl2).
    exists r2, w2, (l1 ++ l2). split; [exact Hrun2|].
    split; [congruence|]. split.
    + rewrite Hev2, Hev, <- app_assoc. reflexivity.
    + rewrite forallb_app, Hl, Hl2. reflexivity.
Qed.

Lemma confined_notice text :
  allowed (Notice text) = true → confined allowed (notice text).
Proof.
  intros Hal w. exists (Ok tt), (logEvent (Notice text) w), [Notice text].
  repeat split. simpl. rewrite Hal. reflexivity.
Qed.

Lemma confined_when (b : bool) (m : M unit) :
  (b = true → confined allowed m) → confined allowed (when b m).
Proof.
  intros Hm. destruct b; simpl; [auto | apply confined_ret].
Qed.

Section WithEnv.

Variable env : Env.
Hypothesis requests : ∀ r, allowed (Requested r) = true.

Lemma confined_now : confined allowed (now env).
Proof.
  intros w. eexists _, (nextTick w), []. rewrite app_nil_r.
  repeat split; reflexivity.
Qed.

Lemma confined_today : confined allowed (today env).
Proof.
  apply confined_bind; [apply confined_now | intros; apply confined_liftRes].
Qed.

Lemma confined_transportHead r : confined allowed (transportHead env r).
Proof.
  intros w. eexists _, _, [Requested r]. split; [reflexivity|].
  repeat split. simpl. rewrite requests. reflexivity.
Qed.

Lemma confined_transportGet r : confined allowed (transportGet env r).
Proof.
  intros w. eexists _, _, [Requested r]. split; [reflexivity|].
  repeat split. simpl. rewrite requests. reflexivity.
Qed.

Lemma confined_makeHeadRequest url timer :
  confined allowed (makeHeadRequest env url timer).
Proof.
  unfold makeHeadRequest. destruct (isMobile env).
  - apply confined_bind; [apply confined_transportHead|].
    intros [e|finalUrl lastModified]; apply confined_ret.
  - apply confined_bind; [apply confined_transportHead|].
    intros [e|finalUrl lastModified]; [apply confined_throw | apply confined_ret].
Qed.

Lemma confined_expandUrl settings url :
  confined allowed (expandUrl settings env url).
Proof.
  unfold expandUrl.
  destruct (includes (lit "vm.tiktok.com") url || includes (lit "tiktok.com/t/") url);
    [|apply confined_ret].
  apply confined_tryCatch; [|intros; apply confined_ret].
  apply confined_bind; [apply confined_makeHeadRequest | intros; apply confined_ret].
Qed.

Lemma confined_timestampOfVideoId videoId :
  confined allowed (timestampOfVideoId videoId).
Proof.
  unfold timestampOfVideoId. destruct videoId as [id|]; [|apply confined_ret].
  destruct (truthy (Some id) && bool_decide (19 ≤ length id)); [|apply confined_ret].
  apply confined_bind; [apply confined_liftRes|]. intros big.
  destruct ((1262304000 <? Z.shiftr big 32)%Z && (Z.shiftr big 32 <? 1893456000)%Z);
    apply confined_ret.
Qed.

Lemma confined_extractTikTokPostedDate url videoId :
  confined allowed (extractTikTokPostedDate env url videoId).
Proof.
  unfold extractTikTokPostedDate, postedDateAttempt.
  apply confined_bind.
  - apply confined_tryCatch; [|intros; apply confined_ret].
    apply confined_bind; [apply confined_timestampOfVideoId|].
    intros [timestamp|].
    + apply confined_bind; [apply confined_liftRes | intros; apply confined_ret].
    + apply confined_tryCatch; [|intros; apply confined_ret].
      apply confined_bind; [apply confined_makeHeadRequest|]. intros response.
      destruct (truthy (resp_lastModified response)); [|apply confined_ret].
      apply confined_bind; [apply confined_liftRes | intros; apply confined_ret].
  - intros [day|]; [apply confined_ret | apply confined_today].
Qed.

Lemma confined_handleSlideshowUrl url videoId isBulkProcessing :
  confined allowed (handleSlideshowUrl env url videoId isBulkProcessing).
Proof.
  unfold handleSlideshowUrl.
  apply confined_bind; [apply confined_extractTikTokPostedDate|]. intros posted.
  apply confined_bind; [apply confined_today | intros; apply confined_ret].
Qed.

End WithEnv.

End Confined.

Section ResolverConfined.

Variable settings : Settings.
Variable env : Env.
Variable isBulkProcessing : bool.

Local Notation "'allowed'" := (resolverEvent isBulkProcessing).

Lemma resolverEvent_request r : allowed (Requested r) = true.
Proof. reflexivity. Qed.

Lemma resolverEvent_notice text :
  negb isBulkProcessing = true → allowed (Notice text) = true.
Proof. intros H. unfold resolverEvent. rewrite H. reflexivity. Qed.

Local Hint Resolve resolverEvent_request resolverEvent_notice : core.

Lemma confined_handlePrivateVideo url videoId :
  confined allowed (handlePrivateVideo settings env url videoId isBulkProcessing).
Proof.
  unfold handlePrivateVideo.
  apply confined_bind; [apply confined_extractTikTokPostedDate; auto|].
  intros posted. destruct (handlePrivateVideos settings).
  - apply confined_bind; [apply confined_today | intros; apply confined_ret].
  - apply confined_ret.
  - apply confined_bind.
    + apply confined_when. intros Hb. apply confined_notice; auto.
    + intros _. apply confined_bind; [apply confined_today | intros; apply confined_ret].
Qed.

Lemma confined_fetchTikTokDataMobile url :
  confined allowed (fetchTikTokDataMobile settings env url isBulkProcessing).
Proof.
  unfold fetchTikTokDataMobile.
  apply confined_bind; [apply confined_expandUrl; auto|]. intros expanded.
  destruct (includes (lit "/photo/") expanded).
  - apply confined_bind; [apply confined_handleSlideshowUrl; auto|].
    intros; apply confined_ret.
  - destruct (_ || _); [apply confined_handlePrivateVideo|].
    apply confined_bind; [apply confined_extractTikTokPostedDate; auto|].
    intros posted.
    apply confined_bind; [apply confined_today | intros; apply confined_ret].
Qed.

Lemma confined_oembedRecord url oembedData finalVideoId :
  confined allowed (oembedRecord env url oembedData finalVideoId).
Proof.
  unfold oembedRecord.
  apply confined_bind; [apply confined_extractTikTokPostedDate; auto|].
  intros posted.
  destruct (title oembedData);
    try apply confined_throw;
    (apply confined_bind; [apply confined_today | intros; apply confined_ret]).
Qed.

Lemma confined_fetchViaOembed url videoId :
  confined allowed (fetchViaOembed settings env url videoId).
Proof.
  unfold fetchViaOembed.
  apply confined_bind; [apply confined_liftRes|]. intros encoded.
  apply confined_bind; [apply confined_transportGet; auto|].
  intros [e|statusCode|oembedData]; try apply confined_throw.
  apply confined_bind; [|intros; apply confined_oembedRecord].
  destruct (_ && _); [|apply confined_ret].
  destruct (html oembedData); first [apply confined_ret | apply confined_throw].
Qed.

Lemma confined_fetchFallback url videoId error :
  confined allowed (fetchFallback settings env url videoId isBulkProcessing error).
Proof.
  unfold fetchFallback.
  destruct (detectPrivateVideo error); [apply confined_handlePrivateVideo|].
  apply confined_bind.
  { apply confined_when. intros Hb. apply confined_notice; auto. }
  intros _.
  apply confined_bind; [apply confined_extractTikTokPostedDate; auto|].
  intros posted.
  destruct (includes (lit "/photo/") url);
    (apply confined_bind; [apply confined_today | intros; apply confined_ret]).
Qed.

Lemma confined_fetchTikTokData url :
  confined allowed (fetchTikTokData settings env url isBulkProcessing).
Proof.
  unfold fetchTikTokData. destruct (isMobile env).
  - apply confined_fetchTikTokDataMobile.
  - destruct (includes (lit "/photo/") url).
    + apply confined_bind; [apply confined_handleSlideshowUrl; auto|].
      intros; apply confined_ret.
    + apply confined_tryCatch;
        [apply confined_fetchViaOembed | intros; apply confined_fetchFallback].
Qed.

End ResolverConfined.

(** X1. The resolver, whatever the network answers and whatever the clock
    reads, comes to an end without touching the vault: the world it leaves
    differs from the one it found by the events it logged, and these are
    requests to the network and, outside batch mode only, notices; it never
    opens the duplicate-file dialog. *)
Theorem fetchTikTokData_leaves_vault settings env url isBulkProcessing w :
  ∃ r w' added,
    fetchTikTokData settings env url isBulkProcessing w = Done r w'
    ∧ vault w' = vault w
    ∧ events w' = events w ++ added
    ∧ Forall (λ ev, isRequest ev = true
                    ∨ (isBulkProcessing = false ∧ isNotice ev = true)) added.
Proof.
  destruct (confined_fetchTikTokData settings env isBulkProcessing url w)
    as (r & w' & added & Hrun & Hv & Hev & Hl).
  exists r, w', added. repeat split; try assumption.
  apply Forall_forall. intros ev Hin.
  rewrite forallb_forall in Hl. specialize (Hl ev).
  unfold resolverEvent in Hl.
  assert (Hin' : In ev added) by (apply list_elem_of_In; exact Hin).
  specialize (Hl Hin').
  apply orb_true_iff in Hl as [Hl|Hl]; [left; exact Hl|right].
  apply andb_true_iff in Hl as [Hb Hn]. split; [|exact Hn].
  destruct isBulkProcessing; [discriminate|reflexivity].
Qed.

(** ** The addresses of a record *)

Section RecordAddresses.

Variable settings : Settings.
Variable env : Env.

Local Notation "'addressed' u" :=
  (λ r : option TikTokData,
     ∀ data, r = Some data → url data = u ∧ expandedUrl data = u)
  (at level 10, u at level 9).

Ltac record := apply yields_ret; intros data [= <-]; split; reflexivity.

Lemma handlePrivateVideo_addresses address videoId isBulkProcessing :
  yields (addressed address)
         (handlePrivateVideo settings env address videoId isBulkProcessing).
Proof.
  unfold handlePrivateVideo. apply yields_bind_any. intros posted.
  destruct (handlePrivateVideos settings).
  - apply yields_bind_any. intros created. record.
  - apply yields_ret. intros data [=].
  - apply yields_bind_any. intros _. apply yields_bind_any. intros created.
    record.
Qed.

Lemma handleSlideshowUrl_addresses address videoId isBulkProcessing :
  yields (λ data, url data = address ∧ expandedUrl data = address)
         (handleSlideshowUrl env address videoId isBulkProcessing).
Proof.
  unfold handleSlideshowUrl. apply yields_bind_any. intros posted.
  apply yields_bind_any. intros created.
  apply yields_ret. split; reflexivity.
Qed.

Lemma expandUrl_mobile address :
  isMobile env = true → yields (λ expanded, expanded = address)
                               (expandUrl settings env address).
Proof.
  intros Hmobile w a w' H. rewrite expandUrl_run, Hmobile in H.
  destruct (isShortLink address); [destruct (headAt env (tick w))|];
    injection H as <- _; reflexivity.
Qed.

Lemma fetchTikTokDataMobile_addresses address isBulkProcessing :
  isMobile env = true →
  yields (addressed address)
         (fetchTikTokDataMobile settings env address isBulkProcessing).
Proof.
  intros Hmobile. unfold fetchTikTokDataMobile.
  eapply yields_bind; [apply expandUrl_mobile, Hmobile|].
  intros expanded ->.
  destruct (includes (lit "/photo/") address).
  - eapply yields_bind; [apply handleSlideshowUrl_addresses|].
    intros data' Hd. apply yields_ret. intros data [= <-]. exact Hd.
  - destruct (_ || _); [apply handlePrivateVideo_addresses|].
    apply yields_bind_any. intros posted.
    apply yields_bind_any. intros created. record.
Qed.

Lemma fetchTikTokData_addresses address isBulkProcessing :
  yields (addressed address) (fetchTikTokData settings env address isBulkProcessing).
Proof.
  unfold fetchTikTokData. destruct (isMobile env) eqn:Hmobile.
  - apply fetchTikTokDataMobile_addresses, Hmobile.
  - destruct (includes (lit "/photo/") address).
    + eapply yields_bind; [apply handleSlideshowUrl_addresses|].
      intros data' Hd. apply yields_ret. intros data [= <-]. exact Hd.
    + apply yields_tryCatch.
      * unfold fetchViaOembed. apply yields_bind_any. intros encoded.
        apply yields_bind_any. intros [e|statusCode|oembedData];
          try apply yields_throw.
        apply yields_bind_any. intros finalVideoId.
        unfold oembedRecord. apply yields_bind_any. intros posted.
        destruct (title oembedData); try apply yields_throw;
          (apply yields_bind_any; intros created; record).
      * intros error. unfold fetchFallback.
        destruct (detectPrivateVideo error);
          [apply handlePrivateVideo_addresses|].
        apply yields_bind_any. intros _. apply yields_bind_any. intros posted.
        destruct (includes (lit "/photo/") address);
          (apply yields_bind_any; intros created; record).
Qed.

End RecordAddresses.

(** X2. In every record that the resolver returns, on either platform, the
    fields [url] and [expandedUrl] both hold the address that the resolver
    was given: a record never holds two different addresses. *)
Theorem fetchTikTokData_one_address settings env address isBulkProcessing w data w' :
  fetchTikTokData settings env address isBulkProcessing w = Done (Ok (Some data)) w' →
  url data = address ∧ expandedUrl data = address.
Proof.
  intros Hrun.
  exact (fetchTikTokData_addresses settings env address isBulkProcessing
           w (Some data) w' Hrun data eq_refl).
Qed.

(** ** Short links on mobile *)

(** X3. On mobile a link is never expanded, so an address without a video
    identifier that is no slideshow, as every short link is, goes to the
    handling of private videos, after the one request that the expansion of
    a short link makes. *)
Theorem fetchTikTokData_mobile_without_id settings env address
    isBulkProcessing w :
  isMobile env = true →
  extractVideoId address = None →
  includes (lit "/photo/") address = false →
  fetchTikTokData settings env address isBulkProcessing w =
  handlePrivateVideo settings env address None isBulkProcessing
    (if isShortLink address
     then afterHead env address (urlTimeout settings * 1000) w
     else w).
Proof.
  intros Hmobile Hid Hphoto.
  unfold fetchTikTokData. rewrite Hmobile.
  unfold fetchTikTokDataMobile, bind at 1.
  rewrite expandUrl_run, Hmobile.
  destruct (isShortLink address).
  - destruct (headAt env (tick w)); rewrite Hphoto, Hid; simpl;
      rewrite orb_true_r; reflexivity.
  - rewrite Hphoto, Hid. simpl. rewrite orb_true_r. reflexivity.
Qed.


(** ** The status of the metadata endpoint *)

Lemma detectPrivateVideo_status_table :
  forallb (λ n, Bool.eqb (detectPrivateVideo (statusError (N.of_nat n)))
                         (N.of_nat n =? 403)%N)
          (seq 0 1000) = true.
Proof. vm_compute. reflexivity. Qed.

Lemma detectPrivateVideo_status (code : N) :
  (code ≤ 999)%N →
  detectPrivateVideo (statusError code) = (code =? 403)%N.
Proof.
  intros Hcode.
  pose proof detectPrivateVideo_status_table as Htable.
  rewrite forallb_forall in Htable.
  specialize (Htable (N.to_nat code)).
  rewrite N2Nat.id in Htable.
  apply Bool.eqb_prop, Htable, in_seq. lia.
Qed.

Lemma fetchTikTokData_not_ok settings env address isBulkProcessing w encoded code :
  isMobile env = false →
  includes (lit "/photo/") address = false →
  encodeURIComponent env address = Ok encoded →
  getAt env (tick w) = GetNotOk code →
  fetchTikTokData settings env address isBulkProcessing w =
  fetchFallback settings env address (extractVideoId address) isBulkProcessing
                (statusError code) (afterOembedRequest settings encoded w).
Proof.
  intros Hdesktop Hphoto Henc Hget.
  unfold fetchTikTokData. rewrite Hdesktop, Hphoto.
  unfold tryCatch, fetchViaOembed, bind, liftRes, transportGet.
  rewrite Henc, Hget. reflexivity.
Qed.

(** X4. On desktop, when the metadata endpoint answers with a status that is
    not ok, the status 403 alone makes the resolver treat the video as
    private; with any other status, 404 included, it builds the fallback
    record of a public video. *)
Theorem fetchTikTokData_status_403_alone_is_private settings env address
    isBulkProcessing w encoded code :
  clockValid env →
  isMobile env = false →
  includes (lit "/photo/") address = false →
  encodeURIComponent env address = Ok encoded →
  getAt env (tick w) = GetNotOk code →
  (code ≤ 999)%N →
  (code = 403%N →
   fetchTikTokData settings env address isBulkProcessing w =
   handlePrivateVideo settings env address (extractVideoId address)
                      isBulkProcessing (afterOembedRequest settings encoded w))
  ∧ (code ≠ 403%N →
     ∃ data w',
       fetchTikTokData settings env address isBulkProcessing w
       = Done (Ok (Some data)) w'
       ∧ isPrivate data = false ∧ oembedFailed data = true
       ∧ description data = lit "TikTok Post" ∧ hashtags data = []
       ∧ embedHtml data
         = createObsidianCompatibleEmbed (extractVideoId address) address).
Proof.
  intros Hclock Hdesktop Hphoto Henc Hget Hcode.
  rewrite (fetchTikTokData_not_ok _ _ _ _ _ _ _ Hdesktop Hphoto Henc Hget).
  unfold fetchFallback. rewrite (detectPrivateVideo_status _ Hcode).
  split; intros Hc.
  - apply N.eqb_eq in Hc. rewrite Hc. reflexivity.
  - apply N.eqb_neq in Hc. rewrite Hc, Hphoto.
    set (w1 := afterOembedRequest settings encoded w).
    assert (Hnotice : ∃ w2, when (negb isBulkProcessing)
              (notice (lit "oEmbed failed, using fallback embed method")) w1
              = Done (Ok tt) w2).
    { destruct isBulkProcessing; simpl; eexists; reflexivity. }
    destruct Hnotice as (w2 & Hnotice).
    destruct (extractTikTokPostedDate_total env address (extractVideoId address)
                w2 Hclock) as (day & w3 & Hday & _ & _).
    unfold bind. rewrite Hnotice, Hday, (today_run env w3 (Hclock _)).
    eexists _, _. split; [reflexivity|]. repeat split.
Qed.

(** ** Reading an address *)

Lemma stripPrefix_Some pre : ∀ s r, stripPrefix pre s = Some r → s = pre ++ r.
Proof.
  induction pre as [|p pre IH]; intros s r H; simpl in H.
  - injection H as ->. reflexivity.
  - destruct s as [|c s]; [discriminate|].
    destruct (N.eqb_spec p c) as [->|]; [|discriminate].
    simpl. f_equal. apply IH, H.
Qed.

Lemma stripPrefix_app pre r : stripPrefix pre (pre ++ r) = Some r.
Proof.
  induction pre as [|p pre IH]; simpl; [reflexivity|].
  rewrite N.eqb_refl. exact IH.
Qed.

Lemma dropWhile_head p (s : jsstring) :
  match dropWhile p s with c :: _ => p c = false | [] => True end.
Proof.
  induction s as [|c s IH]; simpl; [exact I|].
  destruct (p c) eqn:Hc; [exact IH | exact Hc].
Qed.

Lemma takeWhile_all p (l r : jsstring) :
  forallb p l = true →
  match r with c :: _ => p c = false | [] => True end →
  takeWhile p (l ++ r) = l ∧ dropWhile p (l ++ r) = r.
Proof.
  intros Hl Hr. induction l as [|x l IH]; simpl in *.
  - destruct r as [|c r]; simpl; [auto|]. rewrite Hr. auto.
  - apply andb_true_iff in Hl as [Hx Hl]. rewrite Hx.
    destruct (IH Hl) as [-> ->]. auto.
Qed.

(** What a capture is: a non-empty run of the class, as long as it can be,
    that follows the prefix somewhere in the text. *)
Lemma capture_Some pre cls (s : jsstring) : ∀ g,
  Regex.capture pre cls [] s = Some g →
  g ≠ [] ∧ forallb cls g = true
  ∧ ∃ before after, s = before ++ pre ++ g ++ after
      ∧ match after with c :: _ => cls c = false | [] => True end.
Proof.
  assert (Hhere : ∀ s g,
    match stripPrefix pre s with
    | Some r =>
        match takeWhile cls r with
        | [] => None
        | g' => if startsWith [] (dropWhile cls r) then Some g' else None
        end
    | None => None
    end = Some g →
    g ≠ [] ∧ forallb cls g = true
    ∧ ∃ after, s = pre ++ g ++ after
        ∧ match after with c :: _ => cls c = false | [] => True end).
  { intros s0 g H. destruct (stripPrefix pre s0) as [r|] eqn:Hpre; [|discriminate].
    apply stripPrefix_Some in Hpre.
    pose proof (takeWhile_forallb cls r) as Hall.
    pose proof (takeWhile_dropWhile cls r) as Hsplit.
    pose proof (dropWhile_head cls r) as Hstop.
    destruct (takeWhile cls r) as [|c g'] eqn:Htw; [discriminate|].
    unfold startsWith in H. simpl in H. injection H as <-.
    split; [discriminate|]. split; [exact Hall|].
    exists (dropWhile cls r). split; [|exact Hstop].
    rewrite Hpre. f_equal. symmetry. exact Hsplit. }
  induction s as [|c s IH]; intros g H.
  - destruct (Hhere [] g) as (Hne & Hall & after & Hs & Hstop).
    { exact H. }
    split; [exact Hne|]. split; [exact Hall|]. exists [], after. auto.
  - simpl in H.
    destruct (stripPrefix pre (c :: s)) as [r|] eqn:Hpre.
    + destruct (takeWhile cls r) as [|x g'] eqn:Htw.
      * destruct (IH g H) as (Hne & Hall & before & after & Hs & Hstop).
        split; [exact Hne|]. split; [exact Hall|].
        exists (c :: before), after. rewrite Hs. auto.
      * destruct (Hhere (c :: s) g) as (Hne & Hall & after & Hs & Hstop).
        { rewrite Hpre, Htw. exact H. }
        split; [exact Hne|]. split; [exact Hall|]. exists [], after. auto.
    + destruct (IH g H) as (Hne & Hall & before & after & Hs & Hstop).
      split; [exact Hne|]. split; [exact Hall|].
      exists (c :: before), after. rewrite Hs. auto.
Qed.

Lemma capture_miss pre cls post c (s : jsstring) :
  stripPrefix pre (c :: s) = None →
  Regex.capture pre cls post (c :: s) = Regex.capture pre cls post s.
Proof. intros H. simpl. rewrite H. reflexivity. Qed.

Lemma capture_skip p pre cls post (a s : jsstring) :
  forallb (λ c, negb (c =? p)%N) a = true →
  Regex.capture (p :: pre) cls post (a ++ s)
  = Regex.capture (p :: pre) cls post s.
Proof.
  intros Ha. induction a as [|c a IH]; [reflexivity|].
  simpl in Ha. apply andb_true_iff in Ha as [Hc Ha].
  rewrite <- app_comm_cons, capture_miss; [exact (IH Ha)|].
  simpl. apply negb_true_iff in Hc. rewrite N.eqb_sym, Hc. reflexivity.
Qed.

Lemma capture_hit pre cls (g after : jsstring) :
  g ≠ [] → forallb cls g = true →
  match after with c :: _ => cls c = false | [] => True end →
  Regex.capture pre cls [] (pre ++ g ++ after) = Some g.
Proof.
  intros Hne Hall Hstop.
  destruct (takeWhile_all cls g after Hall Hstop) as [Htw Hdw].
  destruct (pre ++ g ++ after) as [|c s] eqn:Hs.
  - destruct pre; [|discriminate]. destruct g; [congruence|discriminate].
  - rewrite <- Hs. clear Hs.
    assert (Hstep : ∀ s, Regex.capture pre cls [] s =
      let next := match s with [] => None
                  | _ :: s' => Regex.capture pre cls [] s' end in
      match stripPrefix pre s with
      | Some r =>
          match takeWhile cls r with
          | [] => next
          | g => if startsWith [] (dropWhile cls r) then Some g else next
          end
      | None => next
      end) by (intros [|? ?]; reflexivity).
    rewrite Hstep. cbv zeta. rewrite stripPrefix_app, Htw.
    destruct g; [congruence|]. reflexivity.
Qed.

(** X5. The identifier that [extractVideoId] finds is a non-empty run of
    decimal digits that follows [/video/] in the address and is not followed
    by a further digit; decoding a timestamp from it never throws. *)
Theorem extractVideoId_is_a_run_of_digits address id :
  extractVideoId address = Some id →
  id ≠ [] ∧ forallb isDigit id = true
  ∧ (∃ before after,
       address = before ++ lit "/video/" ++ id ++ after
       ∧ match after with c :: _ => isDigit c = false | [] => True end)
  ∧ ∀ w, ∃ accepted, timestampOfVideoId (Some id) w = Done (Ok accepted) w.
Proof.
  intros H. apply capture_Some in H as (Hne & Hall & Hsplit).
  split; [exact Hne|]. split; [exact Hall|]. split; [exact Hsplit|].
  intros w. rewrite (timestampOfVideoId_digits id w Hall). eauto.
Qed.

(** X6. An address of the canonical form, with an author name free of
    slashes and an identifier of decimal digits, is read back into its
    parts: [extractVideoId] gives the identifier and [extractAuthorFromUrl]
    the name with its at sign, whatever follows the identifier. *)
Theorem canonical_address_is_read_back (name id rest : jsstring) :
  name ≠ [] → forallb (λ c, negb (c =? chr "/")%N) name = true →
  id ≠ [] → forallb isDigit id = true →
  match rest with c :: _ => isDigit c = false | [] => True end →
  let address :=
    lit "https://www.tiktok.com/@" ++ name ++ lit "/video/" ++ id ++ rest in
  extractVideoId address = Some id
  ∧ extractAuthorFromUrl address = lit "@" ++ name.
Proof.
  intros Hname Hslash Hid Hdigits Hrest address. subst address. split.
  - unfold extractVideoId.
    change (lit "https://www.tiktok.com/@" ++ name ++ lit "/video/" ++ id ++ rest)
      with (lit "https://www.tiktok.com/@" ++ (name ++ lit "/video/" ++ id ++ rest)).
    change (lit "/video/") with (chr "/" :: lit "video/") at 1.
    set (tail := name ++ lit "/video/" ++ id ++ rest).
    let head := eval vm_compute in (lit "https://www.tiktok.com/@") in
    change (lit "https://www.tiktok.com/@" ++ tail) with (head ++ tail).
    cbn [app]. rewrite !capture_miss by reflexivity.
    subst tail. rewrite capture_skip.
    + apply (capture_hit (lit "/video/")); assumption.
    + exact Hslash.
  - unfold extractAuthorFromUrl.
    assert (Hcap : Regex.capture (lit "@") (λ c, negb (c =? chr "/")%N) []
              (lit "https://www.tiktok.com/@" ++ name ++ lit "/video/" ++ id ++ rest)
            = Some name); [|rewrite Hcap; reflexivity].
    change (lit "https://www.tiktok.com/@" ++ name ++ lit "/video/" ++ id ++ rest)
      with (lit "https://www.tiktok.com/" ++
            lit "@" ++ name ++ (lit "/video/" ++ id ++ rest)).
    set (tail := lit "@" ++ name ++ (lit "/video/" ++ id ++ rest)).
    change (lit "@") with [chr "@"] at 1.
    rewrite capture_skip by reflexivity.
    subst tail. apply (capture_hit (lit "@")); [assumption..|].
    reflexivity.
Qed.

(** ** What a pattern matches *)

Section Matching.

Import Regex.

Lemma startsWith_iff pre s : startsWith pre s = true ↔ ∃ r, s = pre ++ r.
Proof.
  unfold startsWith. split.
  - destruct (stripPrefix pre s) as [r|] eqn:H; [|discriminate].
    intros _. exists r. apply stripPrefix_Some, H.
  - intros [r ->]. rewrite stripPrefix_app. reflexivity.
Qed.

Lemma testAnchored_iff (m : Matcher) s : testAnchored m s = true ↔ ∃ r, In r (m s).
Proof.
  unfold testAnchored. destruct (m s) as [|r l]; split.
  - discriminate.
  - intros [r []].
  - intros _. exists r. left. reflexivity.
  - reflexivity.
Qed.

Lemma in_seq_iff (m1 m2 : Matcher) s r :
  In r (seq m1 m2 s) ↔ ∃ t, In t (m1 s) ∧ In r (m2 t).
Proof. unfold seq. apply in_flat_map. Qed.

Lemma in_alt_iff (m1 m2 : Matcher) s r :
  In r (alt m1 m2 s) ↔ In r (m1 s) ∨ In r (m2 s).
Proof. unfold alt. apply in_app_iff. Qed.

Lemma in_eps_iff s r : In r (eps s) ↔ r = s.
Proof. simpl. split; [intros [<-|[]]; reflexivity | intros ->; left; reflexivity]. Qed.

Lemma in_opt_iff (m : Matcher) s r : In r (opt m s) ↔ In r (m s) ∨ r = s.
Proof. unfold opt. rewrite in_alt_iff, in_eps_iff. reflexivity. Qed.

Lemma in_one_iff p s r : In r (one p s) ↔ ∃ c, s = c :: r ∧ p c = true.
Proof.
  unfold one. destruct s as [|c s]; simpl.
  - split; [intros [] | intros (c & H & _); discriminate].
  - destruct (p c) eqn:Hc; simpl; split.
    + intros [<-|[]]. exists c. auto.
    + intros (c' & [= <- <-] & _). left. reflexivity.
    + intros [].
    + intros (c' & [= <- <-] & Hc'). congruence.
Qed.

Lemma in_str_iff l : ∀ s r, In r (str l s) ↔ s = l ++ r.
Proof.
  induction l as [|c l IH]; intros s r.
  - change (In r (eps s) ↔ s = r).
    rewrite in_eps_iff. split; intros ->; reflexivity.
  - change (In r (seq (one (N.eqb c)) (str l) s) ↔ s = c :: l ++ r).
    rewrite in_seq_iff. split.
    + intros (t & Ht & Hr). apply in_one_iff in Ht as (c' & -> & Hc).
      apply N.eqb_eq in Hc as <-. apply IH in Hr as ->. reflexivity.
    + intros ->. exists (l ++ r). split.
      * apply in_one_iff. exists c. split; [reflexivity | apply N.eqb_refl].
      * apply IH. reflexivity.
Qed.

End Matching.

(** ** The test of an address *)

Lemma schemeAndHost_iff (host : Regex.Matcher) s r :
  In r (schemeAndHost host s)
  ↔ ∃ scheme t, (scheme = lit "http://" ∨ scheme = lit "https://")
                ∧ s = scheme ++ t ∧ In r (host t).
Proof.
  unfold schemeAndHost. rewrite in_seq_iff. split.
  - intros (t1 & H1 & H). apply in_str_iff in H1; subst.
    apply in_seq_iff in H as (t2 & H2 & H).
    apply in_seq_iff in H as (t3 & H3 & H). apply in_str_iff in H3; subst.
    apply in_opt_iff in H2 as [H2|H2].
    + apply in_str_iff in H2; subst. exists (lit "https://"), t3. auto.
    + subst t1. exists (lit "http://"), t3. auto.
  - intros (scheme & t & [-> | ->] & -> & H).
    + exists (lit "://" ++ t). split; [apply in_str_iff; reflexivity|].
      apply in_seq_iff. exists (lit "://" ++ t). split.
      * apply in_opt_iff. right. reflexivity.
      * apply in_seq_iff. exists t. split; [apply in_str_iff; reflexivity | exact H].
    + exists (lit "s://" ++ t). split; [apply in_str_iff; reflexivity|].
      apply in_seq_iff. exists (lit "://" ++ t). split.
      * apply in_opt_iff. left. apply in_str_iff. reflexivity.
      * apply in_seq_iff. exists t. split; [apply in_str_iff; reflexivity | exact H].
Qed.

Lemma acceptedBeginnings_list :
  acceptedBeginnings =
  [ lit "http://" ++ lit "www." ++ lit "tiktok.com";
    lit "http://" ++ lit "www." ++ lit "vm.tiktok.com";
    lit "http://" ++ [] ++ lit "tiktok.com";
    lit "http://" ++ [] ++ lit "vm.tiktok.com";
    lit "https://" ++ lit "www." ++ lit "tiktok.com";
    lit "https://" ++ lit "www." ++ lit "vm.tiktok.com";
    lit "https://" ++ [] ++ lit "tiktok.com";
    lit "https://" ++ [] ++ lit "vm.tiktok.com" ].
Proof. reflexivity. Qed.

Lemma acceptedBeginnings_iff s :
  existsb (λ beginning, startsWith beginning s) acceptedBeginnings = true
  ↔ ∃ scheme www host r,
      (scheme = lit "http://" ∨ scheme = lit "https://")
      ∧ (www = lit "www." ∨ www = [])
      ∧ (host = lit "tiktok.com" ∨ host = lit "vm.tiktok.com")
      ∧ s = scheme ++ www ++ host ++ r.
Proof.
  rewrite existsb_exists, acceptedBeginnings_list. split.
  - intros (beginning & Hin & Hs). apply startsWith_iff in Hs as (r & Hs).
    subst s. cbn [In] in Hin.
    repeat (destruct Hin as [<-|Hin];
      [match goal with
       | |- context [(?a ++ ?b ++ ?c) ++ r] => exists a, b, c, r
       end;
       split; [auto|]; split; [auto|]; split; [auto|];
       rewrite <- !app_assoc; reflexivity|]).
    destruct Hin.
  - intros (scheme & www & host & r & Hscheme & Hwww & Hhost & ->).
    exists (scheme ++ www ++ host). split.
    + cbn [In].
      destruct Hscheme as [-> | ->], Hwww as [-> | ->], Hhost as [-> | ->];
        repeat first [left; reflexivity | right].
    + apply startsWith_iff. exists r. rewrite <- !app_assoc. reflexivity.
Qed.

Lemma isTikTokUrl_iff address :
  isTikTokUrl address = true
  ↔ existsb (λ beginning, startsWith beginning (trim address))
            acceptedBeginnings = true.
Proof.
  rewrite acceptedBeginnings_iff. unfold isTikTokUrl, tikTokPatterns.
  generalize (trim address). intros s. cbn [existsb].
  rewrite !orb_true_iff, !testAnchored_iff. split.
  - intros [H|[H|[H|H]]]; [| | |discriminate]; destruct H as (r & H);
      apply schemeAndHost_iff in H as (scheme & t & Hscheme & -> & H).
    + apply in_seq_iff in H as (t1 & Hwww & H).
      apply in_opt_iff in Hwww as [Hwww|Hwww]; [apply in_str_iff in Hwww|];
        subst; (apply in_alt_iff in H as [H|H]; apply in_str_iff in H; subst).
      * exists scheme, (lit "www."), (lit "tiktok.com"), r. auto.
      * exists scheme, (lit "www."), (lit "vm.tiktok.com"), r. auto.
      * exists scheme, [], (lit "tiktok.com"), r. auto.
      * exists scheme, [], (lit "vm.tiktok.com"), r. auto.
    + apply in_str_iff in H; subst.
      exists scheme, [], (lit "tiktok.com"), (lit "/t/" ++ r). auto.
    + apply in_seq_iff in H as (t1 & Hwww & H).
      apply in_seq_iff in H as (t2 & H & _). apply in_str_iff in H.
      apply in_opt_iff in Hwww as [Hwww|Hwww]; [apply in_str_iff in Hwww|];
        subst.
      * exists scheme, (lit "www."), (lit "tiktok.com"), (lit "/@" ++ t2). auto.
      * exists scheme, [], (lit "tiktok.com"), (lit "/@" ++ t2). auto.
  - intros (scheme & www & host & r & Hscheme & Hwww & Hhost & Hs).
    left. exists r. apply schemeAndHost_iff.
    exists scheme, (www ++ host ++ r). split; [exact Hscheme|].
    split; [exact Hs|]. apply in_seq_iff. exists (host ++ r). split.
    + apply in_opt_iff. destruct Hwww as [-> | ->];
        [left; apply in_str_iff; reflexivity | right; reflexivity].
    + apply in_alt_iff. destruct Hhost as [-> | ->];
        [left | right]; apply in_str_iff; reflexivity.
Qed.

(** X7. [isTikTokUrl] is a test of the beginning of the trimmed text and of
    nothing else: it holds exactly when the text begins with [http://] or
    [https://], then [www.] or nothing, then [tiktok.com] or
    [vm.tiktok.com]. The second and the third pattern never decide, and
    what follows the host is not looked at. *)
Theorem isTikTokUrl_tests_the_beginning address :
  isTikTokUrl address
  = existsb (λ beginning, startsWith beginning (trim address))
            acceptedBeginnings.
Proof.
  apply Bool.eq_iff_eq_true, isTikTokUrl_iff.
Qed.

(** ** The note writer without a collision, and the answers to the dialog *)

Lemma notePath_not_folder folderPath name : notePath folderPath name ≠ folderPath.
Proof.
  unfold notePath. destruct (isNonEmpty folderPath) eqn:Hne.
  - intros H. apply (f_equal length) in H. rewrite !length_app in H.
    simpl in H. lia.
  - destruct folderPath; [|discriminate]. intros H.
    apply (f_equal length) in H. rewrite length_app in H. simpl in H. lia.
Qed.

Section WriterOutcomes.

Variable settings : Settings.
Variable env : Env.
Variable generateFileName : TikTokData → jsstring.
Variable generateNoteTitle : TikTokData → jsstring.
Variable generateNoteContent : TikTokData → jsstring.

Local Notation "'createNote'" :=
  (createTikTokNote settings env generateFileName generateNoteTitle
                    generateNoteContent).

Local Notation "'target' data" :=
  (notePath (outputFolder settings) (generateFileName data))
  (at level 10, data at level 9).

Lemma create_run path content w :
  vault w !! path = None → vaultFaultAt env (tick w) = None →
  create env path content w
  = Done (Ok tt) (nextTick (setVault (<[path := File content]> (vault w)) w)).
Proof.
  intros Hfree Hfault. unfold create, vaultOp. rewrite Hfault, Hfree.
  reflexivity.
Qed.

Lemma delete_run path w :
  vaultFaultAt env (tick w) = None →
  delete_ env path w
  = Done (Ok tt) (nextTick (setVault (delete path (vault w)) w)).
Proof. intros Hfault. unfold delete_, vaultOp. rewrite Hfault. reflexivity. Qed.

Lemma writeNote_new_path existingFile original filePath fileName noteTitle
    noteContent isBulkProcessing w :
  existingFile && bool_decide (filePath = original) = false →
  vault w !! filePath = None → vaultFaultAt env (tick w) = None →
  ∃ w',
    writeNote env existingFile original filePath fileName noteTitle
              noteContent isBulkProcessing w
    = Done (Ok {| n_success := true; n_duplicate := false;
                  n_fileName := Some fileName;
                  n_noteTitle := Some noteTitle |}) w'
    ∧ vault w' = <[filePath := File noteContent]> (vault w)
    ∧ events w' = events w ++
        (if isBulkProcessing then []
         else [Notice (lit "Created: " ++ noteTitle)]).
Proof.
  intros Hbranch Hfree Hfault. unfold writeNote. rewrite Hbranch.
  unfold tryCatch, bind. rewrite (create_run _ _ _ Hfree Hfault).
  destruct isBulkProcessing; cbn [negb when ret notice];
    eexists; (split; [reflexivity|]); split; try reflexivity.
  simpl. rewrite app_nil_r. reflexivity.
Qed.

Lemma writeNote_replaces original fileName noteTitle noteContent w :
  vaultFaultAt env (tick w) = None → vaultFaultAt env (S (tick w)) = None →
  ∃ w',
    writeNote env true original original fileName noteTitle noteContent false w
    = Done (Ok {| n_success := true; n_duplicate := false;
                  n_fileName := Some fileName;
                  n_noteTitle := Some noteTitle |}) w'
    ∧ vault w' = <[original := File noteContent]> (vault w)
    ∧ events w' = events w ++ [Notice (lit "Replaced: " ++ noteTitle)].
Proof.
  intros Hfault0 Hfault1. unfold writeNote.
  rewrite bool_decide_eq_true_2 by reflexivity. cbn [andb].
  unfold tryCatch, bind. rewrite (delete_run _ _ Hfault0).
  rewrite create_run; [|apply lookup_delete_eq|exact Hfault1].
  cbn [negb when ret notice].
  eexists. split; [reflexivity|]. split; [|reflexivity].
  cbn [vault logEvent nextTick setVault]. apply insert_delete_eq.
Qed.

(** X8. Without a collision and with a file store that works, the writer
    creates the output folder when the vault lacks it, then the note at the
    target path with the generated content; nothing else in the vault
    changes, and outside batch mode the notice of the creation is the only
    event. *)
Theorem createTikTokNote_creates_the_note fuel (data : TikTokData)
    isBulkProcessing w :
  vault w !! target data = None →
  vaultFaultAt env (tick w) = None →
  vaultFaultAt env (S (tick w)) = None →
  ∃ w',
    createNote fuel (Some data) isBulkProcessing w =
    Done (Ok {| n_success := true; n_duplicate := false;
                n_fileName := Some (generateFileName data);
                n_noteTitle := Some (generateNoteTitle data) |}) w'
    ∧ vault w' =
      <[target data := File (generateNoteContent data)]>
        (if folderMissing settings w
         then <[outputFolder settings := Folder]> (vault w)
         else vault w)
    ∧ events w' = events w ++
        (if isBulkProcessing then []
         else [Notice (lit "Created: " ++ generateNoteTitle data)]).
Proof.
  intros Hfree Hfault0 Hfault1.
  unfold createTikTokNote, folderMissing. cbv zeta.
  destruct (isNonEmpty (outputFolder settings)) eqn:Hne;
    [destruct (vault w !! outputFolder settings) as [folder|] eqn:Hfolder|].
  - (* the folder is there *)
    unfold bind at 1. unfold bind at 1. unfold getAbstractFileByPath at 1.
    rewrite Hfolder, bool_decide_eq_true_2 by eauto. cbn [negb when ret andb].
    unfold bind at 1. unfold getAbstractFileByPath at 1. rewrite Hfree.
    apply writeNote_new_path; [reflexivity | exact Hfree | exact Hfault0].
  - (* the folder is created first *)
    unfold bind at 1. unfold bind at 1. unfold getAbstractFileByPath at 1.
    rewrite Hfolder, bool_decide_eq_false_2 by (intros [? ?]; discriminate).
    cbn [negb when andb]. unfold createFolder, vaultOp.
    rewrite Hfault0, Hfolder.
    unfold bind at 1. unfold getAbstractFileByPath at 1.
    cbn [vault setVault nextTick].
    rewrite lookup_insert_ne by (apply not_eq_sym, notePath_not_folder).
    rewrite Hfree.
    set (w1 := nextTick (setVault (<[outputFolder settings:=Folder]> (vault w)) w)).
    destruct (writeNote_new_path false (target data) (target data)
                (generateFileName data) (generateNoteTitle data)
                (generateNoteContent data) isBulkProcessing w1)
      as (w' & Hrun & Hvault & Hevents); [reflexivity| |exact Hfault1|].
    { cbn [w1 vault setVault nextTick]. unfold w1. cbn [vault setVault nextTick].
      rewrite lookup_insert_ne by (apply not_eq_sym, notePath_not_folder).
      exact Hfree. }
    exists w'. split; [exact Hrun|]. split; [exact Hvault | exact Hevents].
  - (* the notes go to the root of the vault *)
    unfold bind at 1. cbn [ret andb].
    unfold bind at 1. unfold getAbstractFileByPath at 1. rewrite Hfree.
    apply writeNote_new_path; [reflexivity | exact Hfree | exact Hfault0].
Qed.

(** X9. When the output folder is missing and the file store fails to create
    it, the writer does not handle the failure: the error is thrown to the
    caller, no note is created and no notice is shown. *)
Theorem createTikTokNote_throws_when_folder_fails fuel (data : TikTokData)
    isBulkProcessing w e :
  folderMissing settings w = true →
  vaultFaultAt env (tick w) = Some e →
  createNote fuel (Some data) isBulkProcessing w = Done (Throw e) (nextTick w).
Proof.
  unfold folderMissing. intros Hmissing Hfault.
  apply andb_true_iff in Hmissing as [Hne Hfolder].
  apply negb_true_iff, bool_decide_eq_false in Hfolder.
  unfold createTikTokNote. cbv zeta. rewrite Hne.
  unfold bind, getAbstractFileByPath, createFolder, vaultOp.
  rewrite bool_decide_eq_false_2 by exact Hfolder.
  cbn [negb when]. rewrite Hfault. reflexivity.
Qed.

(** X10. When the user answers the duplicate-file dialog with [skip], the
    writer reports no success and the vault stays as it is: the dialog and
    the notice of the skip are all that happened. *)
Theorem createTikTokNote_skip_changes_nothing fuel (data : TikTokData) w :
  hierarchical (vault w) →
  is_Some (vault w !! target data) →
  promptAt env (tick w) = SkipFile →
  ∃ w',
    createNote fuel (Some data) false w =
    Done (Ok {| n_success := false; n_duplicate := false;
                n_fileName := None; n_noteTitle := None |}) w'
    ∧ vault w' = vault w
    ∧ events w' = events w ++
        [PromptedDuplicate (generateFileName data) (generateNoteTitle data);
         Notice (lit "File creation skipped")].
Proof.
  intros Htree Hexists Hprompt.
  rewrite createTikTokNote_on_collision by assumption. cbv zeta.
  unfold bind at 1. unfold handleDuplicateFile. rewrite Hprompt.
  eexists. split; [reflexivity|]. split; [reflexivity|].
  cbn [events nextTick logEvent]. rewrite <- app_assoc. reflexivity.
Qed.

(** X11. When the user answers the dialog with [replace] and the file store
    works, the note at the target path holds the generated content
    afterwards and no other path of the vault has changed. *)
Theorem createTikTokNote_replace_overwrites fuel (data : TikTokData) w :
  hierarchical (vault w) →
  is_Some (vault w !! target data) →
  promptAt env (tick w) = Replace →
  vaultFaultAt env (S (tick w)) = None →
  vaultFaultAt env (S (S (tick w))) = None →
  ∃ w',
    createNote fuel (Some data) false w =
    Done (Ok {| n_success := true; n_duplicate := false;
                n_fileName := Some (generateFileName data);
                n_noteTitle := Some (generateNoteTitle data) |}) w'
    ∧ vault w' = <[target data := File (generateNoteContent data)]> (vault w)
    ∧ events w' = events w ++
        [PromptedDuplicate (generateFileName data) (generateNoteTitle data);
         Notice (lit "Replaced: " ++ generateNoteTitle data)].
Proof.
  intros Htree Hexists Hprompt Hfault0 Hfault1.
  rewrite createTikTokNote_on_collision by assumption. cbv zeta.
  unfold bind at 1. unfold handleDuplicateFile. rewrite Hprompt.
  set (w1 := nextTick (logEvent _ w)).
  destruct (writeNote_replaces (target data) (generateFileName data)
              (generateNoteTitle data) (generateNoteContent data) w1)
    as (w' & Hrun & Hvault & Hevents); [exact Hfault0 | exact Hfault1 |].
  exists w'. split; [exact Hrun|]. split; [exact Hvault|].
  rewrite Hevents. unfold w1. cbn [events nextTick logEvent].
  rewrite <- app_assoc. reflexivity.
Qed.

(** X12. In single mode, when the resolver returns no record, as it does
    for a private video under the policy [skip], the writer is handed
    [null] and throws; [processTikTokUrl] catches the error, so the run
    ends with the notice of a failure and the vault is as it was. *)
Theorem processTikTokUrl_skipped_private_reports_failure fuel address w
    expanded w1 w2 :
  expandUrl settings env address w = Done (Ok expanded) w1 →
  fetchTikTokData settings env expanded false
    (logEvent (Notice (lit "Fetching TikTok data...")) w1) = Done (Ok None) w2 →
  processTikTokUrl settings env generateFileName generateNoteTitle
                   generateNoteContent fuel address w
  = Done (Ok tt) (logEvent (Notice (lit "Failed to process TikTok URL")) w2)
  ∧ vault w2 = vault w.
Proof.
  intros Hexpand Hfetch. split.
  - unfold processTikTokUrl, tryCatch, bind.
    rewrite Hexpand. unfold notice at 1. rewrite Hfetch. reflexivity.
  - destruct (confined_expandUrl (λ _, true) env (λ _, eq_refl) settings
                address w) as (r & w1' & l1 & Hrun1 & Hv1 & _).
    destruct (confined_fetchTikTokData settings env false expanded
                (logEvent (Notice (lit "Fetching TikTok data...")) w1))
      as (r2 & w2' & l2 & Hrun2 & Hv2 & _).
    rewrite Hexpand in Hrun1. rewrite Hfetch in Hrun2.
    injection Hrun1 as _ <-. injection Hrun2 as _ <-.
    rewrite Hv2. exact Hv1.
Qed.

End WriterOutcomes.

(** ** The bulk loop: what it records and what it shows *)

Section BulkRecords.

Variable race : nat → jsstring → Res ItemOutcome.
Variable urls : list jsstring.

(** Every iteration either records its URL or puts it back: the URLs
    recorded and those still queued are, together, always the same. *)
Lemma bulkIteration_keeps_urls st url rest :
  map r_url (results (bulkIteration race urls st url rest))
  ++ processingQueue (bulkIteration race urls st url rest)
  ≡ₚ map r_url (results st) ++ url :: rest.
Proof.
  unfold bulkIteration.
  destruct (race (iteration st) url) as [result|error]; cbn [results processingQueue].
  - rewrite map_app, <- app_assoc. reflexivity.
  - destruct (isProcessingTimeout error && _); cbn [results processingQueue].
    + apply Permutation_app_head. rewrite Permutation_app_comm. reflexivity.
    + rewrite map_app, <- app_assoc. reflexivity.
Qed.

Lemma bulkLoop_keeps_urls fuel : ∀ st rs,
  bulkLoop race urls fuel st = Some rs →
  map r_url rs ≡ₚ map r_url (results st) ++ processingQueue st.
Proof.
  induction fuel as [|fuel IH]; intros st rs H; simpl in H;
    destruct (processingQueue st) as [|url rest] eqn:Hq; try discriminate.
  - injection H as <-. rewrite app_nil_r. reflexivity.
  - injection H as <-. rewrite app_nil_r. reflexivity.
  - rewrite (IH _ _ H). apply bulkIteration_keeps_urls.
Qed.

(** The counter of the progress and the queue always add up to the size of
    the worklist. *)
Lemma bulkIteration_progress st url rest :
  length rest < length urls * 2 →
  processed (bulkIteration race urls st url rest)
  + length (processingQueue (bulkIteration race urls st url rest))
  = processed st + S (length rest)
  ∧ processed st ≤ processed (bulkIteration race urls st url rest).
Proof.
  intros Hguard. unfold bulkIteration.
  destruct (race (iteration st) url) as [result|error];
    cbn [processed processingQueue]; [lia|].
  rewrite (bool_decide_eq_true_2 _ Hguard), andb_true_r.
  destruct (isProcessingTimeout error); cbn [processed processingQueue];
    rewrite ?length_app; simpl; lia.
Qed.

Lemma progressShown_bounds fuel : ∀ st,
  processed st + length (processingQueue st) = length urls →
  Forall (λ current, processed st < current ≤ length urls)
         (progressShown race urls fuel st)
  ∧ StronglySorted le (progressShown race urls fuel st).
Proof.
  induction fuel as [|fuel IH]; intros st Hinv; simpl;
    destruct (processingQueue st) as [|url rest] eqn:Hq.
  1-3: split; constructor.
  simpl in Hinv.
  destruct (bulkIteration_progress st url rest ltac:(lia)) as [Hsum Hmono].
  destruct (IH (bulkIteration race urls st url rest) ltac:(lia)) as [Hall Hsorted].
  split.
  - constructor; [lia|]. eapply Forall_impl; [exact Hall|].
    intros current Hc. simpl in Hc. lia.
  - constructor; [exact Hsorted|]. eapply Forall_impl; [exact Hall|].
    intros current Hc. simpl in Hc. lia.
Qed.

End BulkRecords.

(** X13. When the bulk loop comes to its end, [results] holds exactly one
    entry for each URL of the worklist, repeated URLs counted as often as
    they occur: whatever was put back into the queue in between, no URL is
    lost and none is recorded twice. *)
Theorem processBulkTikToks_one_result_per_url race urls fuel results :
  processBulkTikToks race urls fuel = Some results →
  map r_url results ≡ₚ urls.
Proof.
  unfold processBulkTikToks. destruct urls as [|url rest] eqn:Hurls.
  - intros [= <-]. reflexivity.
  - rewrite <- Hurls. intros H. apply bulkLoop_keeps_urls in H. exact H.
Qed.

Lemma bulkLoop_without_timeouts race urls : ∀ queue st,
  (∀ n url e, race n url = Throw e → isProcessingTimeout e = false) →
  processingQueue st = queue →
  bulkLoop race urls (length queue) st
  = Some (results st
          ++ imap (λ i url, recorded url (race (iteration st + i) url)) queue).
Proof.
  induction queue as [|url rest IH]; intros st Hrace Hq; simpl; rewrite Hq.
  - rewrite app_nil_r. reflexivity.
  - assert (Hstep : bulkIteration race urls st url rest =
      {| processingQueue := rest;
         results := results st ++ [recorded url (race (iteration st) url)];
         processed := S (processed st);
         iteration := S (iteration st) |}).
    { unfold bulkIteration, recorded.
      destruct (race (iteration st) url) as [r|e] eqn:Hr; [reflexivity|].
      rewrite (Hrace _ _ _ Hr). reflexivity. }
    rewrite Hstep. erewrite IH; [|exact Hrace|reflexivity].
    cbn [results iteration].
    rewrite <- app_assoc, Nat.add_0_r. f_equal. f_equal. simpl. f_equal.
    apply imap_ext. intros i x _. simpl. f_equal. f_equal. lia.
Qed.

(** X14. When no attempt times out, the loop ends after one iteration for
    each URL, and [results] lists the URLs in the order of the worklist,
    each with what its one attempt gave: an error that is no timeout is
    recorded as a failure with its message and the URL is not tried again. *)
Theorem processBulkTikToks_without_timeouts race urls :
  (∀ n url e, race n url = Throw e → isProcessingTimeout e = false) →
  processBulkTikToks race urls (length urls)
  = Some (imap (λ i url, recorded url (race i url)) urls).
Proof.
  intros Hrace. unfold processBulkTikToks. destruct urls as [|url rest] eqn:Hurls.
  - reflexivity.
  - rewrite <- Hurls.
    exact (bulkLoop_without_timeouts race urls urls (bulkStart urls) Hrace eq_refl).
Qed.

(** X15. The progress that the loop reports, [processed + 1] at the head of
    each iteration, lies between 1 and the size of the worklist and never
    goes back, however often URLs are put back into the queue. *)
Theorem processBulkTikToks_progress_within_total race urls fuel :
  Forall (λ current, 1 ≤ current ≤ length urls)
         (progressShown race urls fuel (bulkStart urls))
  ∧ StronglySorted le (progressShown race urls fuel (bulkStart urls)).
Proof.
  destruct (progressShown_bounds race urls fuel (bulkStart urls) eq_refl)
    as [Hall Hsorted].
  split; [|exact Hsorted].
  eapply Forall_impl; [exact Hall|]. intros current Hc. simpl in Hc. lia.
Qed.

(** ** The summary of a bulk run *)

Lemma filter_nonempty {A} (p : A → bool) (l : list A) :
  bool_decide (0 < length (List.filter p l)) = existsb p l.
Proof.
  induction l as [|x l IH]; simpl; [reflexivity|].
  destruct (p x); simpl; [reflexivity|exact IH].
Qed.

Lemma filter_disjoint_length {A} (p q : A → bool) (l : list A) :
  (∀ x, p x && q x = false) →
  length (List.filter p l) + length (List.filter q l) ≤ length l.
Proof.
  intros Hpq. induction l as [|x l IH]; simpl; [lia|].
  specialize (Hpq x). destruct (p x), (q x); simpl; try discriminate; lia.
Qed.

Lemma needsDetails_groupResults results :
  needsDetails (groupResults results) = negb (forallb plainSuccess results).
Proof.
  unfold needsDetails, groupResults.
  cbn [duplicates failed oembedFailedResults slideshows skippedPrivate].
  rewrite !filter_nonempty.
  induction results as [|r results IH]; [reflexivity|].
  cbn [existsb forallb]. rewrite negb_andb, <- IH. unfold plainSuccess.
  destruct (r_success r), (flagOf o_duplicate r), (flagOf o_oembedFailed r),
    (flagOf o_isSlideshow r), (flagOf o_isPrivate r);
    cbn [negb andb orb]; try reflexivity;
    repeat match goal with
           | |- context [existsb ?p results] => destruct (existsb p results)
           end; reflexivity.
Qed.

(** X16. After a bulk run the summary is shown in one notice, and the
    detailed dialog is opened unless every result is a plain success: a
    note created from the answer of the metadata endpoint, for a video that
    is public and no slideshow. Nothing in the vault changes. *)
Theorem showBulkProcessingResults_opens_details results w :
  showBulkProcessingResults results w =
  Done (Ok (if forallb plainSuccess results then None
            else Some (groupResults results)))
       (logEvent (Notice (joinWith [32%N; 8226%N; 32%N]
                            (summaryParts (groupResults results)))) w).
Proof.
  unfold showBulkProcessingResults, bind, notice. cbv zeta.
  rewrite needsDetails_groupResults.
  destruct (forallb plainSuccess results); reflexivity.
Qed.

(** X17. Every result of a bulk run is counted in at least one of the groups
    Created, Failed, Duplicates and Private, and no result is counted both
    as created and as failed, so these two counts together never exceed the
    number of results. *)
Theorem groupResults_covers_results results :
  let g := groupResults results in
  (∀ r, In r results →
        In r (successful g) ∨ In r (failed g) ∨ In r (duplicates g)
        ∨ In r (skippedPrivate g))
  ∧ length (successful g) + length (failed g) ≤ length results.
Proof.
  cbv zeta. unfold groupResults.
  cbn [successful failed duplicates skippedPrivate]. split.
  - intros r Hin. rewrite !filter_In.
    destruct (r_success r) eqn:Hs; [left; auto|].
    destruct (flagOf o_duplicate r) eqn:Hd; [right; right; left; auto|].
    destruct (flagOf o_isPrivate r) eqn:Hp; [right; right; right; auto|].
    right; left. auto.
  - apply filter_disjoint_length. intros r. destruct (r_success r); reflexivity.
Qed.

(** ** Bulk runs on mobile *)

Section MobileBulk.

Variable settings : Settings.
Variable env : Env.
Variable generateFileName : TikTokData → jsstring.
Variable generateNoteTitle : TikTokData → jsstring.
Variable generateNoteContent : TikTokData → jsstring.

Hypothesis mobile : isMobile env = true.

Local Notation "'marked'" :=
  (λ r : option TikTokData,
     ∀ data, r = Some data →
             oembedFailed data || isSlideshow data || isPrivate data = true).

Ltac record := apply yields_ret; intros data [= <-]; reflexivity.

Lemma fetchTikTokData_mobile_marks address isBulkProcessing :
  yields marked (fetchTikTokData settings env address isBulkProcessing).
Proof.
  unfold fetchTikTokData. rewrite mobile. unfold fetchTikTokDataMobile.
  apply yields_bind_any. intros expanded.
  destruct (includes (lit "/photo/") expanded).
  - apply (yields_bind (λ data, isSlideshow data = true)).
    + unfold handleSlideshowUrl. apply yields_bind_any. intros posted.
      apply yields_bind_any. intros created. apply yields_ret. reflexivity.
    + intros data0 Hslides. apply yields_ret. intros data [= <-].
      rewrite Hslides, orb_true_r. reflexivity.
  - destruct (_ || _).
    + unfold handlePrivateVideo. apply yields_bind_any. intros posted.
      destruct (handlePrivateVideos settings).
      * apply yields_bind_any. intros created. record.
      * apply yields_ret. intros data [=].
      * apply yields_bind_any. intros _. apply yields_bind_any.
        intros created. record.
    + apply yields_bind_any. intros posted.
      apply yields_bind_any. intros created. record.
Qed.

Lemma processTikTokUrlBulk_mobile_marks fuel address w o w' :
  processTikTokUrlBulk settings env generateFileName generateNoteTitle
                       generateNoteContent fuel address w = Done (Ok o) w' →
  o_oembedFailed o || o_isSlideshow o || o_isPrivate o = true.
Proof.
  unfold processTikTokUrlBulk. intros H. unfold bind at 1 in H.
  destruct (expandUrl settings env address w) as [[expanded|e] w1|] eqn:He;
    try discriminate.
  unfold bind at 1 in H.
  destruct (fetchTikTokData settings env expanded true w1)
    as [[[data|]|e] w2|] eqn:Hf; try discriminate.
  - pose proof (fetchTikTokData_mobile_marks expanded true w1 _ w2 Hf data
                  eq_refl) as Hmark.
    unfold bind in H.
    destruct (createTikTokNote _ _ _ _ _ _ _ _ w2) as [[result|e] w3|];
      try discriminate.
    injection H as <- _. exact Hmark.
  - injection H as <- _. reflexivity.
Qed.

End MobileBulk.

Lemma bulkLoop_results_from_race race urls (P : BulkResult → Prop) fuel : ∀ st rs,
  (∀ n url, P (recorded url (race n url))) →
  Forall P (results st) →
  bulkLoop race urls fuel st = Some rs →
  Forall P rs.
Proof.
  induction fuel as [|fuel IH]; intros st rs Hrace Hst H; simpl in H;
    destruct (processingQueue st) as [|url rest] eqn:Hq; try discriminate.
  - injection H as <-. exact Hst.
  - injection H as <-. exact Hst.
  - apply (IH _ _ Hrace) in H; [exact H|].
    unfold bulkIteration. specialize (Hrace (iteration st) url).
    unfold recorded in Hrace.
    destruct (race (iteration st) url) as [result|error]; cbn [results].
    + apply Forall_app. split; [exact Hst|]. constructor; [exact Hrace|constructor].
    + destruct (_ && _); cbn [results]; [exact Hst|].
      apply Forall_app. split; [exact Hst|]. constructor; [exact Hrace|constructor].
Qed.

(** X18. On mobile the detailed dialog is opened after every bulk run that
    comes to its end: each note the run creates is marked as a fallback, a
    slideshow or a private video, since the mobile resolver never asks the
    metadata endpoint, and every other result is a failure, a duplicate or
    a skipped private video. *)
Theorem mobile_bulk_run_opens_details settings env generateFileName
    generateNoteTitle generateNoteContent fuel race urls iterations results w :
  isMobile env = true →
  (∀ n address o, race n address = Ok o →
     ∃ w0 w1,
       processTikTokUrlBulk settings env generateFileName generateNoteTitle
                            generateNoteContent fuel address w0
       = Done (Ok o) w1) →
  urls ≠ [] →
  processBulkTikToks race urls iterations = Some results →
  ∃ w',
    showBulkProcessingResults results w
    = Done (Ok (Some (groupResults results))) w'.
Proof.
  intros Hmobile Hrace Hurls Hrun.
  unfold processBulkTikToks in Hrun. destruct urls as [|u us]; [congruence|].
  assert (Hnone : Forall (λ r, plainSuccess r = false) results).
  {
    apply (bulkLoop_results_from_race race (u :: us)
             (λ r, plainSuccess r = false)) in Hrun;
      [exact Hrun| |constructor].
    intros n address. unfold recorded, plainSuccess, flagOf.
    destruct (race n address) as [o|e] eqn:Hsettled; cbn [r_success r_outcome];
      [|reflexivity].
    destruct (Hrace _ _ _ Hsettled) as (w0 & w1 & Hbulk).
    pose proof (processTikTokUrlBulk_mobile_marks _ _ _ _ _ Hmobile _ _ _ _ _ Hbulk)
      as Hmark.
    destruct (o_success o), (o_duplicate o), (o_oembedFailed o),
      (o_isSlideshow o), (o_isPrivate o); try reflexivity; discriminate. }
  assert (Hne : results ≠ []).
  { intros ->. apply bulkLoop_keeps_urls in Hrun.
    simpl in Hrun. apply Permutation_nil_l in Hrun. congruence. }
  unfold showBulkProcessingResults, bind, notice. cbv zeta.
  rewrite needsDetails_groupResults.
  destruct results as [|r rs]; [congruence|].
  inversion Hnone as [|? ? Hr _]; subst. cbn [forallb]. rewrite Hr.
  eexists. reflexivity.
Qed.

(** ** Replacing the matches of a pattern *)

Lemma getSubstitution_plain matched before after replacement :
  freeOf (chr "$") replacement = true →
  getSubstitution matched before after replacement = replacement.
Proof.
  induction replacement as [|c rest IH]; intros Hfree; [reflexivity|].
  change (negb (c =? chr "$")%N && freeOf (chr "$") rest = true) in Hfree.
  apply andb_true_iff in Hfree as [Hc Hrest].
  apply negb_true_iff in Hc. cbn [getSubstitution]. rewrite Hc, (IH Hrest).
  reflexivity.
Qed.

Lemma freeOf_app c (a b : jsstring) :
  freeOf c (a ++ b) = freeOf c a && freeOf c b.
Proof. unfold freeOf. apply forallb_app. Qed.

Section ReplaceFacts.

Variable m : Regex.Matcher.
Variable replacement : jsstring.

Lemma substitute_advance text from from' : ∀ matches,
  from ≤ from' →
  Forall (λ o : nat * jsstring, from' ≤ o.1) matches →
  substitute text from matches replacement
  = take (from' - from) (drop from text)
    ++ substitute text from' matches replacement.
Proof.
  intros [|[pos matched] matches] Hle Hpos; cbn [substitute].
  - rewrite <- (take_drop (from' - from) (drop from text)) at 1.
    rewrite drop_drop. repeat f_equal. lia.
  - inversion Hpos as [|? ? Hp _]; subst. simpl in Hp.
    rewrite (app_assoc (take (from' - from) (drop from text))). f_equal.
    replace (pos - from) with ((from' - from) + (pos - from')) by lia.
    rewrite <- take_take_drop, drop_drop. repeat f_equal. lia.
Qed.

Lemma scan_from_ge (s : jsstring) pos skip :
  Forall (λ o : nat * jsstring, pos ≤ o.1) (Regex.scan m pos skip s).
Proof.
  apply Forall_forall. intros o Ho. exact (scan_positions_ge m s pos skip o Ho).
Qed.

Lemma replaceFrom_nil done : replaceFrom m replacement done [] = [].
Proof.
  unfold replaceFrom. cbn [Regex.scan substitute].
  rewrite app_nil_r. apply drop_all.
Qed.

Lemma replaceFrom_miss done c (s : jsstring) :
  head (m (c :: s)) = None →
  replaceFrom m replacement done (c :: s)
  = c :: replaceFrom m replacement (done ++ [c]) s.
Proof.
  intros Hmiss. unfold replaceFrom. cbn [Regex.scan]. rewrite Hmiss.
  rewrite (substitute_advance _ (length done) (S (length done)))
    by (first [lia | apply scan_from_ge]).
  replace (S (length done) - length done) with 1 by lia.
  rewrite drop_app_length. cbn [take app].
  rewrite length_app, <- app_assoc. cbn [length app].
  rewrite Nat.add_1_r. reflexivity.
Qed.

Lemma replaceFrom_hit done (l s : jsstring) :
  l ≠ [] → head (m (l ++ s)) = Some s →
  replaceFrom m replacement done (l ++ s)
  = getSubstitution l done s replacement
    ++ replaceFrom m replacement (done ++ l) s.
Proof.
  intros Hne Hhit. unfold replaceFrom.
  destruct l as [|c l']; [congruence|].
  rewrite <- app_comm_cons. cbn [Regex.scan].
  rewrite app_comm_cons, Hhit.
  replace (length ((c :: l') ++ s) - length s) with (S (length l'))
    by (rewrite length_app; simpl; lia).
  replace (S (length l') - 1) with (length l') by lia.
  rewrite scan_skip. cbn [substitute].
  rewrite Nat.sub_diag, take_0. cbn [app].
  assert (Ht : take (S (length l')) (c :: l' ++ s) = c :: l').
  { cbn [take]. f_equal. apply take_app_length. }
  rewrite Ht, take_app_length. cbn [length].
  rewrite drop_app_add. cbn [drop]. rewrite drop_app_length.
  rewrite <- (app_assoc done (c :: l') s), length_app. cbn [length app].
  replace (S (length done) + length l') with (length done + S (length l'))
    by lia.
  reflexivity.
Qed.

Lemma scan_shift (s : jsstring) : ∀ pos pos' skip,
  Regex.scan m pos skip s = [] → Regex.scan m pos' skip s = [].
Proof.
  induction s as [|c s IH]; intros pos pos' skip H; [reflexivity|].
  cbn [Regex.scan] in *. destruct skip as [|k]; [|eauto].
  destruct (head (m (c :: s))); [discriminate | eauto].
Qed.

Lemma replaceFrom_none done (text : jsstring) :
  Regex.occurrences m text = [] →
  replaceFrom m replacement done text = text.
Proof.
  intros Hnone. unfold replaceFrom.
  rewrite (scan_shift text 0 (length done) 0 Hnone). cbn [substitute].
  apply drop_app_length.
Qed.

Lemma replaceAll_replaceFrom (text : jsstring) :
  replaceAll m replacement text = replaceFrom m replacement [] text.
Proof. reflexivity. Qed.

End ReplaceFacts.

(** *** Literal patterns *)

Lemma mismatch_stripPrefix literal : ∀ text s,
  mismatch literal text = true → stripPrefix literal (text ++ s) = None.
Proof.
  induction literal as [|p literal IH]; intros [|c text] s H; try discriminate.
  cbn [mismatch] in H. cbn [app stripPrefix].
  destruct (p =? c)%N; [exact (IH _ _ H) | reflexivity].
Qed.

Lemma str_stripPrefix literal : ∀ s,
  Regex.str literal s
  = match stripPrefix literal s with Some r => [r] | None => [] end.
Proof.
  induction literal as [|p literal IH]; intros s; [reflexivity|].
  cbn [Regex.str stripPrefix]. unfold Regex.seq, Regex.one.
  destruct s as [|c s]; [reflexivity|].
  destruct (p =? c)%N; [|reflexivity].
  cbn [flat_map]. rewrite app_nil_r. apply IH.
Qed.

Lemma freeOf_mismatches p literal (text : jsstring) :
  freeOf p text = true → mismatches (p :: literal) text = true.
Proof.
  induction text as [|c text IH]; intros Hfree; [reflexivity|].
  change (negb (c =? p)%N && freeOf p text = true) in Hfree.
  apply andb_true_iff in Hfree as [Hc Hfree]. apply negb_true_iff in Hc.
  cbn [mismatches mismatch]. rewrite N.eqb_sym, Hc, (IH Hfree). reflexivity.
Qed.

Section LiteralFacts.

Variable literal : jsstring.
Variable replacement : jsstring.

Lemma replaceFrom_segment (text : jsstring) : ∀ done s,
  mismatches literal text = true →
  replaceFrom (Regex.str literal) replacement done (text ++ s)
  = text ++ replaceFrom (Regex.str literal) replacement (done ++ text) s.
Proof.
  induction text as [|c text IH]; intros done s Hmis.
  - rewrite app_nil_r. reflexivity.
  - cbn [mismatches] in Hmis. apply andb_true_iff in Hmis as [Hhere Hmis].
    rewrite <- app_comm_cons, replaceFrom_miss.
    + rewrite (IH _ _ Hmis), <- app_assoc. reflexivity.
    + rewrite str_stripPrefix, app_comm_cons,
        (mismatch_stripPrefix _ _ _ Hhere). reflexivity.
Qed.

Lemma replaceFrom_rest (text : jsstring) done :
  mismatches literal text = true →
  replaceFrom (Regex.str literal) replacement done text = text.
Proof.
  intros Hmis. rewrite <- (app_nil_r text) at 1.
  rewrite replaceFrom_segment by exact Hmis.
  rewrite replaceFrom_nil, app_nil_r. reflexivity.
Qed.

Lemma replaceFrom_literal done (s : jsstring) :
  literal ≠ [] →
  replaceFrom (Regex.str literal) replacement done (literal ++ s)
  = getSubstitution literal done s replacement
    ++ replaceFrom (Regex.str literal) replacement (done ++ literal) s.
Proof.
  intros Hne. apply replaceFrom_hit; [exact Hne|].
  rewrite str_stripPrefix, stripPrefix_app. reflexivity.
Qed.

End LiteralFacts.

Lemma mismatch_app literal : ∀ text s,
  mismatch literal text = true → mismatch literal (text ++ s) = true.
Proof.
  induction literal as [|p literal IH]; intros [|c text] s H; try discriminate.
  cbn [mismatch app] in *. destruct (p =? c)%N; [exact (IH _ _ H) | reflexivity].
Qed.

Lemma mismatches_app literal (a b : jsstring) :
  mismatches literal a = true → mismatches literal b = true →
  mismatches literal (a ++ b) = true.
Proof.
  intros Ha Hb. induction a as [|c a IH]; [exact Hb|].
  cbn [mismatches] in Ha. apply andb_true_iff in Ha as [Hhere Ha].
  rewrite <- app_comm_cons. cbn [mismatches].
  rewrite app_comm_cons, (mismatch_app _ _ _ Hhere), (IH Ha). reflexivity.
Qed.

(** A literal that occurs nowhere in the text leaves it as it is. *)
Lemma replaceAll_absent literal replacement (text : jsstring) :
  mismatches literal text = true →
  replaceAll (Regex.str literal) replacement text = text.
Proof. intros H. rewrite replaceAll_replaceFrom. apply replaceFrom_rest, H. Qed.

(** A literal that occurs once gives way to the substitution of the
    replacement. *)
Lemma replaceAll_once literal replacement (before after : jsstring) :
  literal ≠ [] →
  mismatches literal before = true → mismatches literal after = true →
  replaceAll (Regex.str literal) replacement (before ++ literal ++ after)
  = before ++ getSubstitution literal before after replacement ++ after.
Proof.
  intros Hne Hbefore Hafter.
  rewrite replaceAll_replaceFrom, replaceFrom_segment by exact Hbefore.
  rewrite replaceFrom_literal by exact Hne.
  rewrite replaceFrom_rest by exact Hafter. reflexivity.
Qed.

(** ** The file name and the title *)

Lemma replaceFrom_one_empty cls (text : jsstring) : ∀ done,
  replaceFrom (Regex.one cls) [] done text = without cls text.
Proof.
  induction text as [|c text IH]; intros done; [apply replaceFrom_nil|].
  unfold without. cbn [List.filter]. destruct (cls c) eqn:Hc; cbn [negb].
  - change (c :: text) with ([c] ++ text).
    rewrite replaceFrom_hit; [|discriminate|].
    + cbn [getSubstitution app]. apply IH.
    + unfold Regex.one. cbn [app]. rewrite Hc. reflexivity.
  - rewrite replaceFrom_miss; [f_equal; apply IH|].
    unfold Regex.one. rewrite Hc. reflexivity.
Qed.

Lemma replaceAll_one_empty cls (text : jsstring) :
  replaceAll (Regex.one cls) [] text = without cls text.
Proof. rewrite replaceAll_replaceFrom. apply replaceFrom_one_empty. Qed.

Lemma forallb_without_unsafe (text : jsstring) :
  forallb isSafeForName (without isUnsafeForName text) = true.
Proof.
  unfold without. induction text as [|c text IH]; [reflexivity|].
  cbn [List.filter]. unfold isUnsafeForName at 1. rewrite negb_involutive.
  destruct (isWordChar c || isSpace c || (c =? chr "-")%N) eqn:Hc; [|exact IH].
  cbn [forallb]. unfold isSafeForName at 1. rewrite Hc. exact IH.
Qed.

Lemma forallb_dropWhile (q p : N → bool) (text : jsstring) :
  forallb q text = true → forallb q (dropWhile p text) = true.
Proof.
  induction text as [|c text IH]; intros H; [reflexivity|].
  cbn [dropWhile]. destruct (p c); [|exact H].
  cbn [forallb] in H. apply andb_true_iff in H as [_ H]. exact (IH H).
Qed.

Lemma forallb_rev {A} (q : A → bool) (l : list A) :
  forallb q (rev l) = forallb q l.
Proof.
  induction l as [|x l IH]; [reflexivity|].
  cbn [rev forallb]. rewrite forallb_app, IH. cbn [forallb].
  rewrite andb_true_r. apply andb_comm.
Qed.

Lemma forallb_trim (q : N → bool) (text : jsstring) :
  forallb q text = true → forallb q (trim text) = true.
Proof.
  intros H. unfold trim. rewrite forallb_rev.
  apply forallb_dropWhile. rewrite forallb_rev.
  apply forallb_dropWhile, H.
Qed.

Lemma length_dropWhile (p : N → bool) (text : jsstring) :
  length (dropWhile p text) ≤ length text.
Proof.
  induction text as [|c text IH]; [reflexivity|].
  cbn [dropWhile]. destruct (p c); simpl; lia.
Qed.

Lemma length_trim (text : jsstring) : length (trim text) ≤ length text.
Proof.
  unfold trim. rewrite length_rev.
  etransitivity; [apply length_dropWhile|]. rewrite length_rev.
  apply length_dropWhile.
Qed.

Lemma length_without cls (text : jsstring) :
  length (without cls text) ≤ length text.
Proof. apply List.filter_length_le. Qed.

Lemma safe_is_plain (text : jsstring) :
  forallb isSafeForName text = true → plainValue text = true.
Proof.
  intros H. unfold plainValue, freeOf. apply andb_true_iff.
  split; apply forallb_forall; intros c Hin;
    (rewrite forallb_forall in H; specialize (H c Hin));
    apply negb_true_iff, N.eqb_neq; intros ->;
    vm_compute in H; discriminate.
Qed.

Ltac absent :=
  repeat first
    [ apply mismatches_app
    | reflexivity
    | match goal with
      | H : freeOf ?p ?text = true |- mismatches (?p :: ?literal) ?text = true =>
          exact (freeOf_mismatches p literal text H)
      end ].

(** X19. With the default naming pattern, and an author name that holds no
    dollar sign and no opening brace once its at and hash signs are removed,
    the file name is [TikTok by], the name, [on], and the first hundred code
    units of the description reduced to word characters, white space and
    hyphens and then trimmed: that part holds none of the characters a file
    name must not have, and at most a hundred code units. *)
Theorem fileNameWith_default_pattern date (data : TikTokData) :
  let name := without isAtOrHash (textOr (author data) (lit "unknown")) in
  let about :=
    trim (without isUnsafeForName
            (take 100 (textOr (description data) (lit "TikTok Video")))) in
  plainValue name = true →
  fileNameWith DEFAULT_TEMPLATE_SETTINGS date data
  = lit "TikTok by " ++ name ++ lit " on " ++ about
  ∧ forallb isSafeForName about = true
  ∧ length about ≤ 100.
Proof.
  intros name about Hname.
  assert (Hsafe : forallb isSafeForName about = true)
    by apply forallb_trim, forallb_without_unsafe.
  assert (Hlen : length about ≤ 100).
  { unfold about. etransitivity; [apply length_trim|].
    etransitivity; [apply length_without|]. rewrite length_take. lia. }
  split; [|split; assumption].
  pose proof (safe_is_plain _ Hsafe) as Habout.
  unfold plainValue in Hname, Habout.
  apply andb_true_iff in Hname as [Hname Hname'].
  apply andb_true_iff in Habout as [Habout Habout'].
  unfold fileNameWith. rewrite !replaceAll_one_empty.
  fold name. fold about.
  change (fileNamingPattern DEFAULT_TEMPLATE_SETTINGS)
    with (lit "TikTok by " ++ lit "{{author}}" ++ lit " on {{description}}").
  change (placeholder "author") with (Regex.str (chr "{" :: lit "{author}}")).
  change (placeholder "date") with (Regex.str (chr "{" :: lit "{date}}")).
  change (placeholder "videoId") with (Regex.str (chr "{" :: lit "{videoId}}")).
  change (placeholder "description")
    with (Regex.str (chr "{" :: lit "{description}}")).
  change (placeholder "title") with (Regex.str (chr "{" :: lit "{title}}")).
  change (lit "{{author}}") with (chr "{" :: lit "{author}}").
  rewrite replaceAll_once; [|discriminate|reflexivity|reflexivity].
  rewrite getSubstitution_plain by exact Hname.
  rewrite (replaceAll_absent (chr "{" :: lit "{date}}")) by absent.
  rewrite (replaceAll_absent (chr "{" :: lit "{videoId}}")) by absent.
  change (lit " on {{description}}")
    with (lit " on " ++ (chr "{" :: lit "{description}}") ++ []).
  rewrite (app_assoc name), (app_assoc (lit "TikTok by ")).
  rewrite replaceAll_once; [|discriminate|absent|reflexivity].
  rewrite getSubstitution_plain by exact Habout.
  rewrite (replaceAll_absent (chr "{" :: lit "{title}}")) by absent.
  rewrite app_nil_r, <- !app_assoc. reflexivity.
Qed.

Lemma getSubstitution_app matched before after (a rest : jsstring) :
  freeOf (chr "$") a = true →
  getSubstitution matched before after (a ++ rest)
  = a ++ getSubstitution matched before after rest.
Proof.
  induction a as [|c a IH]; intros Hfree; [reflexivity|].
  change (negb (c =? chr "$")%N && freeOf (chr "$") a = true) in Hfree.
  apply andb_true_iff in Hfree as [Hc Ha]. apply negb_true_iff in Hc.
  rewrite <- app_comm_cons. cbn [getSubstitution]. rewrite Hc, (IH Ha).
  reflexivity.
Qed.

Section TitleFacts.

Variable date : jsstring.
Variable data : TikTokData.

Hypothesis date_plain : plainValue date = true.
Hypothesis author_plain :
  plainValue (textOr (author data) (lit "Unknown")) = true.

Local Notation "'name'" := (textOr (author data) (lit "Unknown")).

(** The title of the default template when the description gives way to
    [shown], a text without opening braces. *)
Lemma noteTitleWith_default_shows (shown : jsstring) :
  freeOf (chr "{") shown = true →
  getSubstitution (lit "{{description}}") (date ++ lit " Tiktok on ")
    (lit " by {{author}}") (textOr (description data) (lit "Unknown")) = shown →
  noteTitleWith DEFAULT_TEMPLATE_SETTINGS date data
  = date ++ lit " Tiktok on " ++ shown ++ lit " by " ++ name.
Proof.
  intros Hshown Hsubst.
  pose proof date_plain as Hdate. pose proof author_plain as Hname.
  unfold plainValue in Hdate, Hname.
  apply andb_true_iff in Hdate as [Hdate Hdate'].
  apply andb_true_iff in Hname as [Hname Hname'].
  unfold noteTitleWith.
  change (noteTitleTemplate DEFAULT_TEMPLATE_SETTINGS)
    with ([] ++ (chr "{" :: lit "{date}}")
          ++ lit " Tiktok on {{description}} by {{author}}").
  change (placeholder "author") with (Regex.str (chr "{" :: lit "{author}}")).
  change (placeholder "date") with (Regex.str (chr "{" :: lit "{date}}")).
  change (placeholder "description")
    with (Regex.str (chr "{" :: lit "{description}}")).
  rewrite replaceAll_once; [|discriminate|reflexivity|reflexivity].
  rewrite getSubstitution_plain by exact Hdate. cbn [app].
  change (lit " Tiktok on {{description}} by {{author}}")
    with (lit " Tiktok on " ++ (chr "{" :: lit "{description}}")
          ++ lit " by {{author}}").
  rewrite (app_assoc date).
  rewrite replaceAll_once; [|discriminate|absent|reflexivity].
  change (chr "{" :: lit "{description}}") with (lit "{{description}}").
  rewrite Hsubst.
  change (lit " by {{author}}")
    with (lit " by " ++ (chr "{" :: lit "{author}}") ++ []).
  rewrite (app_assoc shown), (app_assoc (date ++ lit " Tiktok on ")).
  rewrite replaceAll_once; [|discriminate|absent|reflexivity].
  rewrite getSubstitution_plain by exact Hname.
  rewrite app_nil_r, <- !app_assoc. reflexivity.
Qed.

End TitleFacts.

(** X20. With the default title template, when the date, the description
    and the author hold no dollar sign and no opening brace, the title is the
    date, [Tiktok on], the description, [by] and the author, each value as
    it is; an empty description or author reads [Unknown]. *)
Theorem noteTitleWith_default_template date (data : TikTokData) :
  plainValue date = true →
  plainValue (textOr (description data) (lit "Unknown")) = true →
  plainValue (textOr (author data) (lit "Unknown")) = true →
  noteTitleWith DEFAULT_TEMPLATE_SETTINGS date data
  = date ++ lit " Tiktok on " ++ textOr (description data) (lit "Unknown")
    ++ lit " by " ++ textOr (author data) (lit "Unknown").
Proof.
  intros Hdate Habout Hname.
  unfold plainValue in Habout. apply andb_true_iff in Habout as [Hdollar Hbrace].
  apply noteTitleWith_default_shows; try assumption.
  apply getSubstitution_plain, Hdollar.
Qed.

(** X21. A value reaches a template as a replacement text, in which a dollar
    sign is a command: a description that holds two dollar signs in a row
    reaches the title of the default template with one of them only. *)
Theorem noteTitleWith_halves_dollar_signs date (data : TikTokData)
    (before after : jsstring) :
  plainValue date = true →
  plainValue (textOr (author data) (lit "Unknown")) = true →
  plainValue before = true → plainValue after = true →
  description data = before ++ lit "$$" ++ after →
  noteTitleWith DEFAULT_TEMPLATE_SETTINGS date data
  = date ++ lit " Tiktok on " ++ (before ++ lit "$" ++ after)
    ++ lit " by " ++ textOr (author data) (lit "Unknown").
Proof.
  intros Hdate Hname Hbefore Hafter Habout.
  unfold plainValue in Hbefore, Hafter.
  apply andb_true_iff in Hbefore as [Hb Hb'].
  apply andb_true_iff in Hafter as [Ha Ha'].
  apply noteTitleWith_default_shows; try assumption.
  - rewrite !freeOf_app, Hb', Ha'. reflexivity.
  - rewrite Habout.
    assert (Htext : textOr (before ++ lit "$$" ++ after) (lit "Unknown")
                    = before ++ lit "$$" ++ after).
    { unfold textOr, orElse. destruct before; reflexivity. }
    rewrite Htext, getSubstitution_app by exact Hb.
    change (lit "$$" ++ after) with (chr "$" :: chr "$" :: after).
    cbn [getSubstitution]. rewrite !N.eqb_refl.
    rewrite getSubstitution_plain by exact Ha. reflexivity.
Qed.

(** ** The templates and the records of the resolver *)

Lemma propertiesAfterCreated_one_address ts enabled (data : TikTokData) :
  expandedUrl data = url data →
  propertiesAfterCreated (withExpandedUrl enabled ts) data
  = propertiesAfterCreated ts data.
Proof.
  intros Hsame. unfold propertiesAfterCreated.
  cbn [includeUrl includeExpandedUrl includeTagsFromHashtags withExpandedUrl].
  rewrite (bool_decide_eq_true_2 _ Hsame). cbn [negb].
  rewrite !andb_false_r. reflexivity.
Qed.

(** X22. The line [expanded_url] is never written for a record of the
    resolver: whether the setting that asks for it is on or off, the content
    of the note is the same, as such a record holds one address only. *)
Theorem generateNoteContent_never_writes_expanded_url ts settings env upperUnit
    address isBulkProcessing w (data : TikTokData) w' :
  fetchTikTokData settings env address isBulkProcessing w
  = Done (Ok (Some data)) w' →
  ∀ w0,
    generateNoteContent (withExpandedUrl true ts) env upperUnit data w0
    = generateNoteContent (withExpandedUrl false ts) env upperUnit data w0.
Proof.
  intros Hrun w0.
  destruct (fetchTikTokData_addresses settings env address isBulkProcessing
              w (Some data) w' Hrun data eq_refl) as [Hurl Hexpanded].
  assert (Hsame : expandedUrl data = url data) by congruence.
  unfold generateNoteContent, properties, propertiesWith, noteBody.
  cbn [enableProperties includeDateCreated includeAuthor noteContentTemplate
       withExpandedUrl].
  rewrite !(propertiesAfterCreated_one_address ts _ data Hsame).
  reflexivity.
Qed.

Lemma isIsoDate_nonempty day :
  JsDate.isIsoDate day = true → isNonEmpty day = true.
Proof. destruct day; [discriminate | reflexivity]. Qed.

(** X23. For a record of the resolver the three generators never read the
    clock, the record having its date of creation: they return what the
    templates make of the record and the settings, and leave the world as
    it is. *)
Theorem generators_are_functions_of_the_record ts settings env upperUnit
    address isBulkProcessing w (data : TikTokData) w' :
  clockValid env →
  fetchTikTokData settings env address isBulkProcessing w
  = Done (Ok (Some data)) w' →
  ∀ w0,
    generateFileName ts env data w0 = Done (Ok (fileNameFor ts data)) w0
    ∧ generateNoteTitle ts env data w0 = Done (Ok (noteTitleFor ts data)) w0
    ∧ generateNoteContent ts env upperUnit data w0
      = Done (Ok (noteContentFor ts upperUnit data)) w0.
Proof.
  intros Hclock Hrun w0.
  destruct (fetchTikTokData_outcome settings env address isBulkProcessing w
              Hclock) as (r & w1 & Hrun' & Hr).
  rewrite Hrun in Hrun'. injection Hrun' as <- <-.
  destruct Hr as [[Hcreated _] _].
  apply (dateSource_wellformed env _ Hclock), isIsoDate_nonempty in Hcreated.
  unfold generateFileName, generateNoteTitle, generateNoteContent, properties,
    recordDate, fileNameFor, noteTitleFor, noteContentFor, propertiesWith.
  rewrite Hcreated. unfold bind, ret.
  repeat split.
  destruct (enableProperties ts); [|reflexivity].
  destruct (includeDateCreated ts); reflexivity.
Qed.

(** ** The description without its hashtags *)

Lemma replaceFrom_misses (m : Regex.Matcher) replacement (text : jsstring) :
  ∀ done s,
  (∀ c s', In c text → head (m (c :: s')) = None) →
  replaceFrom m replacement done (text ++ s)
  = text ++ replaceFrom m replacement (done ++ text) s.
Proof.
  induction text as [|c text IH]; intros done s Hmiss.
  - rewrite app_nil_r. reflexivity.
  - rewrite <- app_comm_cons, replaceFrom_miss
      by (apply Hmiss; left; reflexivity).
    rewrite IH by (intros; apply Hmiss; right; assumption).
    rewrite <- app_assoc. reflexivity.
Qed.

Lemma replaceAll_misses (m : Regex.Matcher) replacement (text : jsstring) :
  (∀ c s', In c text → head (m (c :: s')) = None) →
  replaceAll m replacement text = text.
Proof.
  intros Hmiss. rewrite replaceAll_replaceFrom, <- (app_nil_r text) at 1.
  rewrite replaceFrom_misses by exact Hmiss.
  rewrite replaceFrom_nil, app_nil_r. reflexivity.
Qed.

Lemma tagChar_not_space c : isWrittenTagChar c = true → isSpace c = false.
Proof.
  intros Htag. destruct (isSpace c) eqn:Hspace; [exfalso|reflexivity].
  unfold isWrittenTagChar, isWordChar, isDigit, isSpace, inRange in *.
  repeat rewrite ?orb_true_iff, ?andb_true_iff, ?N.leb_le, ?N.eqb_eq in *.
  lia.
Qed.

Lemma dropWhile_none p (text : jsstring) :
  match text with c :: _ => p c = false | [] => True end →
  dropWhile p text = text.
Proof. destruct text as [|c text]; [reflexivity|]. simpl. intros ->. reflexivity. Qed.

Lemma trim_no_space (text : jsstring) :
  forallb (λ c, negb (isSpace c)) text = true → trim text = text.
Proof.
  intros H. unfold trim.
  assert (Hhead : ∀ l : jsstring, forallb (λ c, negb (isSpace c)) l = true →
            match l with c :: _ => isSpace c = false | [] => True end).
  { intros [|c l] Hl; [exact I|]. simpl in Hl.
    apply andb_true_iff in Hl as [Hc _]. apply negb_true_iff, Hc. }
  rewrite (dropWhile_none _ text) by (apply Hhead, H).
  rewrite dropWhile_none by (apply Hhead; rewrite forallb_rev; exact H).
  apply rev_involutive.
Qed.

Lemma plus_miss p c (s : jsstring) :
  p c = false → head (Regex.plus p (c :: s)) = None.
Proof. intros Hc. unfold Regex.plus, Regex.seq, Regex.one. rewrite Hc. reflexivity. Qed.

Section CleanDescription.

Variable upperUnit : N → option N.

Local Notation "'canon'" := (canonicalizeUnit upperUnit).
Local Notation "'pattern'" := (hashtagPattern upperUnit).

Lemma hashtagPattern_self (l s : jsstring) : pattern l (l ++ s) = [s].
Proof.
  induction l as [|c l IH]; [reflexivity|].
  cbn [hashtagPattern app]. unfold Regex.seq, Regex.one.
  rewrite N.eqb_refl. cbn [flat_map]. rewrite IH. reflexivity.
Qed.

Lemma hashtagPattern_miss p (l : jsstring) c (s : jsstring) :
  canon c ≠ canon p → head (pattern (p :: l) (c :: s)) = None.
Proof.
  intros Hne. cbn [hashtagPattern]. unfold Regex.seq, Regex.one.
  apply N.eqb_neq in Hne. rewrite Hne. reflexivity.
Qed.

Lemma canon_ascii_table :
  forallb (λ n, implb (isWordChar (N.of_nat n) || (N.of_nat n =? 32)%N)
                      (negb (canonicalize (N.of_nat n) =? 35)%N))
          (seq 0 128) = true.
Proof. vm_compute. reflexivity. Qed.

Lemma canon_not_hash c :
  isWrittenTagChar c = true ∨ c = chr " " → canon c ≠ canon (chr "#").
Proof.
  intros Hc. change (canon (chr "#")) with 35%N.
  unfold canonicalizeUnit. destruct (c <? 128)%N eqn:Hascii.
  - apply N.ltb_lt in Hascii.
    pose proof canon_ascii_table as Htable.
    rewrite forallb_forall in Htable. specialize (Htable (N.to_nat c)).
    rewrite N2Nat.id in Htable.
    assert (Hin : In (N.to_nat c) (seq 0 128)) by (apply in_seq; lia).
    specialize (Htable Hin).
    assert (Hword : isWordChar c || (c =? 32)%N = true).
    { destruct Hc as [Hc| ->]; [|reflexivity].
      unfold isWrittenTagChar, inRange in Hc.
      repeat rewrite ?orb_true_iff, ?andb_true_iff, ?N.leb_le in Hc.
      destruct Hc as [[Hc|Hc]|Hc]; [rewrite Hc; reflexivity|lia|lia]. }
    rewrite Hword in Htable. cbn [implb] in Htable.
    apply negb_true_iff, N.eqb_neq in Htable. exact Htable.
  - apply N.ltb_ge in Hascii.
    destruct (upperUnit c) as [u|]; [|lia].
    destruct (u <? 128)%N eqn:Hu; [lia|]. apply N.ltb_ge in Hu. lia.
Qed.

Lemma hashtag_misses (tag : jsstring) (text : jsstring) c s :
  isPlainTag tag = true →
  forallb isWrittenTagChar text = true →
  In c text → head (pattern tag (c :: s)) = None.
Proof.
  intros Htag Htext Hin. destruct tag as [|p body]; [discriminate|].
  cbn [isPlainTag] in Htag.
  apply andb_true_iff in Htag as [Htag _].
  apply andb_true_iff in Htag as [Hp _]. apply N.eqb_eq in Hp. subst p.
  apply hashtagPattern_miss, canon_not_hash. left.
  rewrite forallb_forall in Htext. exact (Htext c Hin).
Qed.

(** X24. The hashtags are removed from the description one after the other,
    each wherever it occurs and without regard to what follows it: when a
    description consists of a hashtag and of a longer hashtag that begins
    with it, what is left for the note is the end of the longer one. *)
Theorem cleanDescription_leaves_the_end_of_a_longer_hashtag env
    (data : TikTokData) (tag rest : jsstring) :
  isPlainTag tag = true →
  rest ≠ [] → forallb isWrittenTagChar rest = true →
  description data = tag ++ lit " " ++ tag ++ rest →
  hashtags data = extractHashtags env (description data) →
  hashtags data = [tag; tag ++ rest]
  ∧ cleanDescription upperUnit data = rest.
Proof.
  intros Htag Hne Hrest Habout Htags.
  assert (Hlonger : isPlainTag (tag ++ rest) = true).
  { destruct tag as [|p body]; [discriminate|]. cbn [isPlainTag app] in *.
    apply andb_true_iff in Htag as [Htag Hbody].
    apply andb_true_iff in Htag as [Hp Hnonempty].
    rewrite Hp, forallb_app, Hbody, Hrest.
    destruct body; [discriminate|reflexivity]. }
  assert (Hlist : hashtags data = [tag; tag ++ rest]).
  { rewrite Htags, Habout.
    exact (scan_joinSpace env [tag; tag ++ rest] 0
             (Forall_cons_2 _ _ _ Htag (Forall_cons_2 _ _ _ Hlonger (Forall_nil_2 _)))). }
  split; [exact Hlist|].
  assert (Hnospace : forallb (λ c, negb (isSpace c)) rest = true).
  { apply forallb_forall. intros c Hin. rewrite forallb_forall in Hrest.
    rewrite (tagChar_not_space c (Hrest c Hin)). reflexivity. }
  assert (Htagne : tag ≠ []) by (destruct tag; [discriminate|congruence]).
  unfold cleanDescription. rewrite Hlist, Habout. cbn [fold_left].
  (* the first hashtag goes, twice *)
  assert (Hfirst : replaceAll (pattern tag) [] (tag ++ lit " " ++ tag ++ rest)
                   = lit " " ++ rest).
  { rewrite replaceAll_replaceFrom.
    rewrite replaceFrom_hit;
      [|exact Htagne|rewrite hashtagPattern_self; reflexivity].
    cbn [getSubstitution app]. change (lit " " ++ tag ++ rest)
      with (chr " " :: (tag ++ rest)).
    rewrite replaceFrom_miss.
    2:{ destruct tag as [|p body]; [congruence|]. cbn [isPlainTag] in Htag.
        apply andb_true_iff in Htag as [Htag _].
        apply andb_true_iff in Htag as [Hp _]. apply N.eqb_eq in Hp. subst p.
        apply hashtagPattern_miss, canon_not_hash. right. reflexivity. }
    rewrite replaceFrom_hit;
      [|exact Htagne|rewrite hashtagPattern_self; reflexivity].
    cbn [getSubstitution app]. rewrite <- (app_nil_r rest) at 1.
    rewrite replaceFrom_misses
      by (intros c s' Hin; exact (hashtag_misses tag rest c s' Htag Hrest Hin)).
    rewrite replaceFrom_nil, app_nil_r. reflexivity. }
  rewrite Hfirst.
  assert (Htrim : trim (lit " " ++ rest) = rest).
  { unfold trim. change (lit " " ++ rest) with (chr " " :: rest).
    cbn [dropWhile]. change (isSpace (chr " ")) with true. cbv iota.
    exact (trim_no_space rest Hnospace). }
  rewrite Htrim.
  (* the longer hashtag is not found any more *)
  rewrite (replaceAll_misses (pattern (tag ++ rest)))
    by (intros c s' Hin;
        exact (hashtag_misses (tag ++ rest) rest c s' Hlonger Hrest Hin)).
  rewrite (trim_no_space rest Hnospace).
  rewrite replaceAll_misses; [exact (trim_no_space rest Hnospace)|].
  intros c s' Hin. apply plus_miss.
  rewrite forallb_forall in Hnospace. apply negb_true_iff, Hnospace, Hin.
Qed.

End CleanDescription.

(** ** The clipboard with bulk processing enabled, and the results dialog *)

Section EntryPoints.

Variable settings : Settings.
Variable env : Env.
Variable generateFileName : TikTokData → jsstring.
Variable generateNoteTitle : TikTokData → jsstring.
Variable generateNoteContent : TikTokData → jsstring.

(** X25. With bulk processing enabled the clipboard action opens the bulk
    dialog with all the URLs when the text holds two or more, and nothing
    else happens; a single URL is processed at once. The setting
    [bypassModalForSingle] changes nothing in either case. *)
Theorem processTikTokFromClipboard_bulk_enabled fuel text first rest w :
  enableBulkProcessing settings = true →
  extractTikTokUrls text = first :: rest →
  processTikTokFromClipboard settings env generateFileName generateNoteTitle
                             generateNoteContent fuel (Ok text) w =
  match rest with
  | [] =>
      processTikTokUrl settings env generateFileName generateNoteTitle
                       generateNoteContent fuel first
                       (logEvent (Notice (lit "Processing TikTok URL...")) w)
  | _ :: _ => Done (Ok tt) (logEvent (OpenedBulkModal (first :: rest)) w)
  end.
Proof.
  intros Henabled Hurls.
  assert (Hnever : ∀ e w',
    processTikTokUrl settings env generateFileName generateNoteTitle
      generateNoteContent fuel first
      (logEvent (Notice (lit "Processing TikTok URL...")) w) ≠ Done (Throw e) w')
    by (intros; apply processTikTokUrl_never_throws).
  unfold processTikTokFromClipboard, tryCatch, bind, liftRes.
  rewrite Hurls. unfold shouldShowBulkModal. rewrite Henabled. cbn [negb].
  destruct rest as [|second rest].
  - cbn [length]. rewrite bool_decide_eq_true_2 by lia.
    rewrite (bool_decide_eq_false_2 (1 < 1)) by lia.
    destruct (bypassModalForSingle settings); cbn [andb];
      unfold notice at 1;
      destruct (processTikTokUrl _ _ _ _ _ _ _ _) as [[[]|e] w'|] eqn:Hrun;
      try reflexivity; exfalso; exact (Hnever _ _ eq_refl).
  - cbn [length]. rewrite bool_decide_eq_false_2 by lia. cbn [andb].
    rewrite bool_decide_eq_true_2 by lia. reflexivity.
Qed.

(** X26. Choosing [Duplicate] for an entry of the results dialog hands the
    record to the note writer outside batch mode, so that the duplicate-file
    dialog opens again; whatever the writer then reports, the notice reads
    that a duplicate file was created and the entry leaves the list: when
    the user answers [skip], no file has been created. *)
Theorem handleDuplicateAction_duplicate_asks_again fuel duplicates address item
    w expanded w1 (data : TikTokData) w2 :
  List.find (λ item, bool_decide (r_url item = address)) duplicates = Some item →
  expandUrl settings env address
    (logEvent (Notice (lit "Processing duplicate: duplicate")) w)
  = Done (Ok expanded) w1 →
  fetchTikTokData settings env expanded false w1 = Done (Ok (Some data)) w2 →
  hierarchical (vault w2) →
  is_Some (vault w2 !! notePath (outputFolder settings) (generateFileName data)) →
  promptAt env (tick w2) = SkipFile →
  ∃ w3,
    handleDuplicateAction settings env generateFileName generateNoteTitle
                          generateNoteContent true fuel duplicates address
                          Duplicate w
    = Done (Ok (withoutAddress address duplicates)) w3
    ∧ vault w3 = vault w2
    ∧ events w3 = events w2 ++
        [PromptedDuplicate (generateFileName data) (generateNoteTitle data);
         Notice (lit "File creation skipped");
         Notice (lit "Duplicate file created")].
Proof.
  intros Hfind Hexpand Hfetch Htree Hexists Hprompt.
  unfold handleDuplicateAction. rewrite Hfind.
  unfold tryCatch. unfold bind at 1. unfold notice at 1.
  change (lit "Processing duplicate: " ++ actionName Duplicate)
    with (lit "Processing duplicate: duplicate").
  unfold bind at 1. rewrite Hexpand.
  unfold bind at 1. rewrite Hfetch.
  unfold bind at 1. unfold bind at 1.
  rewrite createTikTokNote_on_collision by assumption. cbv zeta.
  unfold bind at 1. unfold handleDuplicateFile. rewrite Hprompt.
  eexists. split; [reflexivity|]. split; [reflexivity|].
  cbn [events nextTick logEvent]. rewrite <- !app_assoc. reflexivity.
Qed.

End EntryPoints.

(** ** Batch mode is silent *)

Section LogsOnly.

Variable allowed : Event → bool.

Lemma confined_logsOnly {A} (m : M A) : confined allowed m → logsOnly allowed m.
Proof.
  intros Hm w. destruct (Hm w) as (r & w' & added & Hrun & _ & Hev & Hall).
  exists r, w', added. auto.
Qed.

Lemma logsOnly_ret {A} (a : A) : logsOnly allowed (ret a).
Proof. apply confined_logsOnly, confined_ret. Qed.

Lemma logsOnly_bind {A B} (m : M A) (f : A → M B) :
  logsOnly allowed m → (∀ a, logsOnly allowed (f a)) →
  logsOnly allowed (bind m f).
Proof.
  intros Hm Hf w. destruct (Hm w) as (r & w1 & l1 & Hrun & Hev & Hl).
  unfold bind. rewrite Hrun. destruct r as [a|e].
  - destruct (Hf a w1) as (r2 & w2 & l2 & Hrun2 & Hev2 & Hl2).
    exists r2, w2, (l1 ++ l2). split; [exact Hrun2|]. split.
    + rewrite Hev2, Hev, <- app_assoc. reflexivity.
    + rewrite forallb_app, Hl, Hl2. reflexivity.
  - exists (Throw e), w1, l1. auto.
Qed.

Lemma logsOnly_tryCatch {A} (m : M A) (handler : Error → M A) :
  logsOnly allowed m → (∀ e, logsOnly allowed (handler e)) →
  logsOnly allowed (tryCatch m handler).
Proof.
  intros Hm Hh w. destruct (Hm w) as (r & w1 & l1 & Hrun & Hev & Hl).
  unfold tryCatch. rewrite Hrun. destruct r as [a|e].
  - exists (Ok a), w1, l1. auto.
  - destruct (Hh e w1) as (r2 & w2 & l2 & Hrun2 & Hev2 & Hl2).
    exists r2, w2, (l1 ++ l2). split; [exact Hrun2|]. split.
    + rewrite Hev2, Hev, <- app_assoc. reflexivity.
    + rewrite forallb_app, Hl, Hl2. reflexivity.
Qed.

Lemma logsOnly_vaultOp env change : logsOnly allowed (vaultOp env change).
Proof.
  intros w. unfold vaultOp.
  destruct (vaultFaultAt env (tick w)) as [e|];
    [|destruct (change (vault w)) as [v|e]];
    eexists _, _, []; rewrite app_nil_r; repeat split; reflexivity.
Qed.

Lemma logsOnly_getAbstractFileByPath path :
  logsOnly allowed (getAbstractFileByPath path).
Proof.
  intros w. eexists _, w, []. rewrite app_nil_r. repeat split; reflexivity.
Qed.

End LogsOnly.

Section BatchSilence.

Variable settings : Settings.
Variable env : Env.
Variable generateFileName : TikTokData → jsstring.
Variable generateNoteTitle : TikTokData → jsstring.
Variable generateNoteContent : TikTokData → jsstring.

Local Notation "'quiet'" := (logsOnly (resolverEvent true)).

Lemma writeNote_batch_quiet existingFile original filePath fileName noteTitle
    noteContent :
  quiet (writeNote env existingFile original filePath fileName noteTitle
                   noteContent true).
Proof.
  unfold writeNote. apply logsOnly_tryCatch.
  - apply logsOnly_bind; [|intros; apply logsOnly_ret].
    destruct (existingFile && _).
    + apply logsOnly_bind; [apply logsOnly_vaultOp|]. intros _.
      apply logsOnly_bind; [apply logsOnly_vaultOp|]. intros _.
      apply logsOnly_ret.
    + apply logsOnly_bind; [apply logsOnly_vaultOp|]. intros _.
      apply logsOnly_ret.
  - intros e. apply logsOnly_bind; [apply logsOnly_ret|].
    intros; apply logsOnly_ret.
Qed.

Lemma createTikTokNote_batch_quiet fuel data :
  quiet (createTikTokNote settings env generateFileName generateNoteTitle
                          generateNoteContent fuel data true).
Proof.
  unfold createTikTokNote. destruct data as [data|];
    [|apply confined_logsOnly, confined_throw].
  cbv zeta. apply logsOnly_bind.
  - destruct (isNonEmpty (outputFolder settings)); [|apply logsOnly_ret].
    apply logsOnly_bind; [apply logsOnly_getAbstractFileByPath|].
    intros folder. destruct (negb _); [apply logsOnly_vaultOp | apply logsOnly_ret].
  - intros _. apply logsOnly_bind; [apply logsOnly_getAbstractFileByPath|].
    intros [existing|]; [apply logsOnly_ret | apply writeNote_batch_quiet].
Qed.

Lemma processTikTokUrlBulk_quiet fuel address :
  quiet (processTikTokUrlBulk settings env generateFileName generateNoteTitle
                              generateNoteContent fuel address).
Proof.
  unfold processTikTokUrlBulk.
  apply logsOnly_bind.
  { apply confined_logsOnly, confined_expandUrl. reflexivity. }
  intros expanded. apply logsOnly_bind.
  { apply confined_logsOnly, confined_fetchTikTokData. }
  intros [data|]; [|apply logsOnly_ret].
  apply logsOnly_bind; [apply createTikTokNote_batch_quiet|].
  intros result. apply logsOnly_ret.
Qed.

End BatchSilence.

(** X27. In batch mode the processing of a URL, from the expansion of the
    link to the writing of the note, always comes to an end, as it never
    enters the loop that probes for a free name, and adds nothing to the log
    but requests to the network: it shows no notice and opens no dialog. *)
Theorem processTikTokUrlBulk_is_silent settings env generateFileName
    generateNoteTitle generateNoteContent fuel address w :
  ∃ r w' added,
    processTikTokUrlBulk settings env generateFileName generateNoteTitle
                         generateNoteContent fuel address w = Done r w'
    ∧ events w' = events w ++ added
    ∧ Forall (λ ev, isRequest ev = true) added.
Proof.
  destruct (processTikTokUrlBulk_quiet settings env generateFileName
              generateNoteTitle generateNoteContent fuel address w)
    as (r & w' & added & Hrun & Hev & Hall).
  exists r, w', added. split; [exact Hrun|]. split; [exact Hev|].
  apply Forall_forall. intros ev Hin. rewrite forallb_forall in Hall.
  specialize (Hall ev (proj1 (list_elem_of_In _ _) Hin)).
  unfold resolverEvent in Hall. cbn [negb andb] in Hall.
  rewrite orb_false_r in Hall. exact Hall.
Qed.

(** ** Where a URL ends *)

Section FirstMatch.

Import Regex.

Lemma head_seq (m1 m2 : Matcher) s r r' :
  head (m1 s) = Some r → head (m2 r) = Some r' →
  head (seq m1 m2 s) = Some r'.
Proof.
  intros H1 H2. unfold seq. destruct (m1 s) as [|x l]; [discriminate|].
  injection H1 as ->. cbn [flat_map]. apply head_app_Some, H2.
Qed.

Lemma head_opt (m : Matcher) s r :
  head (m s) = Some r → head (opt m s) = Some r.
Proof. intros H. unfold opt, alt. apply head_app_Some, H. Qed.

Lemma head_alt (m1 m2 : Matcher) s r :
  head (m1 s) = Some r → head (alt m1 m2 s) = Some r.
Proof. intros H. unfold alt. apply head_app_Some, H. Qed.

Lemma head_strCI (l s : jsstring) : head (strCI l (l ++ s)) = Some s.
Proof.
  induction l as [|c l IH]; [reflexivity|].
  cbn [strCI app]. apply (head_seq _ _ _ (l ++ s)); [|exact IH].
  unfold one. rewrite N.eqb_refl. reflexivity.
Qed.

Lemma head_plus p (body rest : jsstring) :
  body ≠ [] → forallb p body = true →
  match rest with c :: _ => p c = false | [] => True end →
  head (plus p (body ++ rest)) = Some rest.
Proof.
  intros Hne Hbody Hrest. destruct body as [|c body]; [congruence|].
  cbn [forallb] in Hbody. apply andb_true_iff in Hbody as [Hc Hbody].
  unfold plus. apply (head_seq _ _ _ (body ++ rest)).
  - cbn [app]. unfold one. rewrite Hc. reflexivity.
  - apply star_head; assumption.
Qed.

Lemma scan_hit (m : Matcher) (l s : jsstring) pos :
  l ≠ [] → head (m (l ++ s)) = Some s →
  scan m pos 0 (l ++ s) = (pos, l) :: scan m (pos + length l) 0 s.
Proof.
  intros Hne Hhit. destruct l as [|c l']; [congruence|].
  rewrite <- app_comm_cons. cbn [scan]. rewrite app_comm_cons, Hhit.
  replace (length ((c :: l') ++ s) - length s) with (S (length l'))
    by (rewrite length_app; simpl; lia).
  replace (S (length l') - 1) with (length l') by lia.
  rewrite scan_skip.
  rewrite (take_app_length' (c :: l') s) by reflexivity.
  cbn [length]. f_equal.
  replace (S pos + length l') with (pos + S (length l')) by lia. reflexivity.
Qed.

Lemma scan_all_miss (m : Matcher) (s : jsstring) : ∀ pos,
  (∀ c s', In c s → head (m (c :: s')) = None) →
  scan m pos 0 s = [].
Proof.
  induction s as [|c s IH]; intros pos Hmiss; [reflexivity|].
  cbn [scan]. rewrite (Hmiss c s) by (left; reflexivity).
  apply IH. intros c' s' Hin. apply Hmiss. right. exact Hin.
Qed.

End FirstMatch.

Lemma urlPattern_canonical (path tail : jsstring) :
  path ≠ [] → forallb isUrlBodyChar path = true →
  match tail with c :: _ => isUrlBodyChar c = false | [] => True end →
  head (urlPattern (lit "https://www.tiktok.com/" ++ path ++ tail)) = Some tail.
Proof.
  intros Hne Hpath Htail. unfold urlPattern.
  change (lit "https://www.tiktok.com/" ++ path ++ tail)
    with (lit "http" ++ lit "s" ++ lit "://" ++ lit "www." ++ lit "tiktok.com"
          ++ lit "/" ++ path ++ tail).
  eapply head_seq; [apply head_strCI|].
  eapply head_seq; [apply head_opt, head_strCI|].
  eapply head_seq; [apply head_strCI|].
  eapply head_seq; [apply head_opt, head_strCI|].
  eapply head_seq; [apply head_alt, head_strCI|].
  eapply head_seq; [apply head_strCI|].
  apply head_plus; assumption.
Qed.

Lemma seq_nil (m1 m2 : Regex.Matcher) s : m1 s = [] → Regex.seq m1 m2 s = [].
Proof. unfold Regex.seq. intros ->. reflexivity. Qed.

Lemma stop_is_no_beginning c (s : jsstring) :
  isUrlBodyChar c = false → head (urlPattern (c :: s)) = None.
Proof.
  intros Hstop. unfold urlPattern. rewrite seq_nil; [reflexivity|].
  change (Regex.strCI (lit "http"))
    with (Regex.seq (Regex.one (λ x, (canonicalize x =? canonicalize (chr "h"))%N))
                    (Regex.strCI (lit "ttp"))).
  apply seq_nil. unfold Regex.one.
  destruct (canonicalize c =? canonicalize (chr "h"))%N eqn:Hc; [|reflexivity].
  exfalso. apply N.eqb_eq in Hc. change (canonicalize (chr "h")) with 72%N in Hc.
  unfold canonicalize, inRange in Hc.
  destruct ((97 <=? c)%N && (c <=? 122)%N) eqn:Hlower.
  - assert (c = 104%N) as -> by lia. discriminate.
  - subst c. discriminate.
Qed.

Lemma bodyChar_not_space c : isUrlBodyChar c = true → isSpace c = false.
Proof.
  unfold isUrlBodyChar. intros H. apply negb_true_iff in H.
  do 6 (apply orb_false_iff in H as [H _]). exact H.
Qed.

(** X28. A URL in a text extends to the first white space, closing bracket,
    quote or angle bracket: whatever stands before it belongs to the URL,
    a comma or a full stop at the end of a sentence included. A text that is
    such a URL followed by such characters has this URL as its only one. *)
Theorem extractTikTokUrls_extends_to_the_stop (path tail : jsstring) :
  path ≠ [] → forallb isUrlBodyChar path = true →
  forallb (λ c, negb (isUrlBodyChar c)) tail = true →
  extractTikTokUrls (lit "https://www.tiktok.com/" ++ path ++ tail)
  = [lit "https://www.tiktok.com/" ++ path].
Proof.
  intros Hne Hpath Htail.
  assert (Hstop : ∀ c, In c tail → isUrlBodyChar c = false).
  { intros c Hin. rewrite forallb_forall in Htail.
    apply negb_true_iff, Htail, Hin. }
  assert (Hmatches : Regex.matchAll urlPattern
                       (lit "https://www.tiktok.com/" ++ path ++ tail)
                     = [lit "https://www.tiktok.com/" ++ path]).
  { unfold Regex.matchAll, Regex.occurrences.
    rewrite (app_assoc (lit "https://www.tiktok.com/") path tail).
    rewrite scan_hit.
    - rewrite scan_all_miss; [reflexivity|].
      intros c s' Hin. apply stop_is_no_beginning, Hstop, Hin.
    - discriminate.
    - rewrite <- app_assoc. apply urlPattern_canonical; [assumption..|].
      destruct tail as [|c tail']; [exact I|]. apply Hstop. left. reflexivity. }
  unfold extractTikTokUrls. cbv zeta. rewrite Hmatches.
  change (uniqueInOrder [lit "https://www.tiktok.com/" ++ path])
    with (setAdd [] (lit "https://www.tiktok.com/" ++ path)).
  unfold setAdd. rewrite bool_decide_eq_false_2 by apply not_elem_of_nil.
  cbn [app].
  assert (Hvalid : isTikTokUrl (lit "https://www.tiktok.com/" ++ path) = true).
  { apply isTikTokUrl_iff. rewrite trim_no_space.
    - apply acceptedBeginnings_iff.
      exists (lit "https://"), (lit "www."), (lit "tiktok.com"), (lit "/" ++ path).
      repeat split; auto.
    - rewrite forallb_app. apply andb_true_iff. split; [reflexivity|].
      apply forallb_forall. intros c Hin. rewrite forallb_forall in Hpath.
      rewrite (bodyChar_not_space c (Hpath c Hin)). reflexivity. }
  rewrite filter_cons, decide_True by exact Hvalid. reflexivity.
Qed.

(** ** The further properties at sample inputs *)

Lemma fetchTikTokData_one_address_witness :
  match fetchTikTokData DEFAULT_SETTINGS offlineEnv sampleAddress false
          startWorld with
  | Done (Ok (Some data)) _ =>
      url data = sampleAddress ∧ expandedUrl data = sampleAddress
  | _ => False
  end.
Proof.
  destruct (fetchTikTokData DEFAULT_SETTINGS offlineEnv sampleAddress false
              startWorld) as [[[data|]|e] w'|] eqn:Hrun;
    try (vm_compute in Hrun; discriminate).
  exact (fetchTikTokData_one_address DEFAULT_SETTINGS offlineEnv sampleAddress
           false startWorld data w' Hrun).
Defined.

Lemma fetchTikTokData_mobile_without_id_witness :
  isMobile offlineMobileEnv = true
  ∧ extractVideoId sampleShortLink = None
  ∧ fetchTikTokData DEFAULT_SETTINGS offlineMobileEnv sampleShortLink true
      startWorld
    = handlePrivateVideo DEFAULT_SETTINGS offlineMobileEnv sampleShortLink None
        true (afterHead offlineMobileEnv sampleShortLink 10000 startWorld).
Proof.
  split; [reflexivity|]. split; [reflexivity|].
  exact (fetchTikTokData_mobile_without_id DEFAULT_SETTINGS offlineMobileEnv
           sampleShortLink true startWorld eq_refl eq_refl eq_refl).
Defined.

Lemma clockValid_envWithStatus code action : clockValid (envWithStatus code action).
Proof. exact clockValid_offlineEnv. Qed.

Lemma fetchTikTokData_status_403_alone_is_private_witness :
  getAt (envWithStatus 404 Duplicate) 0 = GetNotOk 404
  ∧ ∃ data w',
      fetchTikTokData DEFAULT_SETTINGS (envWithStatus 404 Duplicate)
        sampleAddress false startWorld = Done (Ok (Some data)) w'
      ∧ isPrivate data = false ∧ oembedFailed data = true
      ∧ description data = lit "TikTok Post" ∧ hashtags data = []
      ∧ embedHtml data
        = createObsidianCompatibleEmbed (extractVideoId sampleAddress)
            sampleAddress.
Proof.
  split; [reflexivity|].
  refine (proj2 (fetchTikTokData_status_403_alone_is_private DEFAULT_SETTINGS
           (envWithStatus 404 Duplicate) sampleAddress false startWorld
           sampleAddress 404%N (clockValid_envWithStatus _ _) eq_refl eq_refl
           eq_refl eq_refl _) _); [vm_compute|]; discriminate.
Defined.

Lemma extractVideoId_is_a_run_of_digits_witness :
  extractVideoId (lit "https://www.tiktok.com/@abc/video/7234567890123456789?lang=en")
  = Some (lit "7234567890123456789")
  ∧ forallb isDigit (lit "7234567890123456789") = true.
Proof.
  split; [reflexivity|].
  exact (proj1 (proj2 (extractVideoId_is_a_run_of_digits
    (lit "https://www.tiktok.com/@abc/video/7234567890123456789?lang=en")
    (lit "7234567890123456789") eq_refl))).
Defined.

Lemma canonical_address_is_read_back_witness :
  extractVideoId (lit "https://www.tiktok.com/@abc/video/7234567890123456789?lang=en")
  = Some (lit "7234567890123456789")
  ∧ extractAuthorFromUrl
      (lit "https://www.tiktok.com/@abc/video/7234567890123456789?lang=en")
    = lit "@abc".
Proof.
  refine (canonical_address_is_read_back (lit "abc")
            (lit "7234567890123456789") (lit "?lang=en") _ eq_refl _ eq_refl
            eq_refl); discriminate.
Defined.

Lemma createTikTokNote_creates_the_note_witness :
  vault startWorld !! notePath (outputFolder DEFAULT_SETTINGS)
                               (sampleFileName sampleData) = None
  ∧ ∃ w',
      createTikTokNote DEFAULT_SETTINGS offlineEnv sampleFileName
        sampleNoteTitle sampleNoteContent 0 (Some sampleData) false startWorld
      = Done (Ok {| n_success := true; n_duplicate := false;
                    n_fileName := Some (sampleFileName sampleData);
                    n_noteTitle := Some (sampleNoteTitle sampleData) |}) w'
      ∧ vault w' =
        <[notePath (outputFolder DEFAULT_SETTINGS) (sampleFileName sampleData)
          := File (sampleNoteContent sampleData)]>
          (<[outputFolder DEFAULT_SETTINGS := Folder]> (vault startWorld))
      ∧ events w' = events startWorld ++
          [Notice (lit "Created: " ++ sampleNoteTitle sampleData)].
Proof.
  split; [reflexivity|].
  exact (createTikTokNote_creates_the_note DEFAULT_SETTINGS offlineEnv
           sampleFileName sampleNoteTitle sampleNoteContent 0 sampleData false
           startWorld eq_refl eq_refl eq_refl).
Defined.

Lemma createTikTokNote_throws_when_folder_fails_witness :
  folderMissing DEFAULT_SETTINGS startWorld = true
  ∧ createTikTokNote DEFAULT_SETTINGS
      (envAnswering Duplicate (λ _, Some (newError (lit "disk full"))))
      sampleFileName sampleNoteTitle sampleNoteContent 0 (Some sampleData)
      true startWorld
    = Done (Throw (newError (lit "disk full"))) (nextTick startWorld).
Proof.
  split; [reflexivity|].
  exact (createTikTokNote_throws_when_folder_fails DEFAULT_SETTINGS
           (envAnswering Duplicate (λ _, Some (newError (lit "disk full"))))
           sampleFileName sampleNoteTitle sampleNoteContent 0 sampleData true
           startWorld (newError (lit "disk full")) eq_refl eq_refl).
Defined.

Lemma is_Some_sample_note :
  is_Some (vault worldWithNote
           !! notePath (outputFolder DEFAULT_SETTINGS)
                       (sampleFileName sampleData)).
Proof. eexists; vm_compute; reflexivity. Qed.

Lemma createTikTokNote_skip_changes_nothing_witness :
  promptAt (envAnswering SkipFile (λ _, None)) (tick worldWithNote) = SkipFile
  ∧ ∃ w',
      createTikTokNote DEFAULT_SETTINGS (envAnswering SkipFile (λ _, None))
        sampleFileName sampleNoteTitle sampleNoteContent 0 (Some sampleData)
        false worldWithNote
      = Done (Ok {| n_success := false; n_duplicate := false;
                    n_fileName := None; n_noteTitle := None |}) w'
      ∧ vault w' = vault worldWithNote
      ∧ events w' = events worldWithNote ++
          [PromptedDuplicate (sampleFileName sampleData)
                             (sampleNoteTitle sampleData);
           Notice (lit "File creation skipped")].
Proof.
  split; [reflexivity|].
  exact (createTikTokNote_skip_changes_nothing DEFAULT_SETTINGS
           (envAnswering SkipFile (λ _, None)) sampleFileName sampleNoteTitle
           sampleNoteContent 0 sampleData worldWithNote
           hierarchical_vaultWithNote is_Some_sample_note eq_refl).
Defined.

Lemma createTikTokNote_replace_overwrites_witness :
  promptAt (envAnswering Replace (λ _, None)) (tick worldWithNote) = Replace
  ∧ ∃ w',
      createTikTokNote DEFAULT_SETTINGS (envAnswering Replace (λ _, None))
        sampleFileName sampleNoteTitle sampleNoteContent 0 (Some sampleData)
        false worldWithNote
      = Done (Ok {| n_success := true; n_duplicate := false;
                    n_fileName := Some (sampleFileName sampleData);
                    n_noteTitle := Some (sampleNoteTitle sampleData) |}) w'
      ∧ vault w' =
        <[notePath (outputFolder DEFAULT_SETTINGS) (sampleFileName sampleData)
          := File (sampleNoteContent sampleData)]> (vault worldWithNote)
      ∧ events w' = events worldWithNote ++
          [PromptedDuplicate (sampleFileName sampleData)
                             (sampleNoteTitle sampleData);
           Notice (lit "Replaced: " ++ sampleNoteTitle sampleData)].
Proof.
  split; [reflexivity|].
  exact (createTikTokNote_replace_overwrites DEFAULT_SETTINGS
           (envAnswering Replace (λ _, None)) sampleFileName sampleNoteTitle
           sampleNoteContent 0 sampleData worldWithNote
           hierarchical_vaultWithNote is_Some_sample_note eq_refl eq_refl
           eq_refl).
Defined.

Lemma processTikTokUrl_skipped_private_reports_failure_witness :
  ∃ w2,
    processTikTokUrl (withPolicy Skip DEFAULT_SETTINGS)
      (envWithStatus 403 Duplicate) sampleFileName sampleNoteTitle
      sampleNoteContent 0 sampleAddress worldWithNote
    = Done (Ok tt) (logEvent (Notice (lit "Failed to process TikTok URL")) w2)
    ∧ vault w2 = vault worldWithNote.
Proof.
  let fetched := eval vm_compute in
    (fetchTikTokData (withPolicy Skip DEFAULT_SETTINGS)
       (envWithStatus 403 Duplicate) sampleAddress false
       (logEvent (Notice (lit "Fetching TikTok data...")) worldWithNote)) in
  match fetched with
  | Done (Ok None) ?w2 =>
      exists w2;
      refine (processTikTokUrl_skipped_private_reports_failure
                (withPolicy Skip DEFAULT_SETTINGS) (envWithStatus 403 Duplicate)
                sampleFileName sampleNoteTitle sampleNoteContent 0 sampleAddress
                worldWithNote sampleAddress worldWithNote w2 eq_refl _);
      vm_compute; reflexivity
  end.
Defined.

Lemma processBulkTikToks_one_result_per_url_witness :
  match processBulkTikToks timeoutOnce [lit "a"; lit "b"] 3 with
  | Some results =>
      map r_url results = [lit "b"; lit "a"]
      ∧ map r_url results ≡ₚ [lit "a"; lit "b"]
  | None => False
  end.
Proof.
  destruct (processBulkTikToks timeoutOnce [lit "a"; lit "b"] 3)
    as [results|] eqn:Hrun; [|vm_compute in Hrun; discriminate].
  split.
  - vm_compute in Hrun. injection Hrun as <-. reflexivity.
  - exact (processBulkTikToks_one_result_per_url timeoutOnce
             [lit "a"; lit "b"] 3 results Hrun).
Defined.

Lemma alwaysFails_never_times_out n address e :
  alwaysFails n address = Throw e → isProcessingTimeout e = false.
Proof. intros [= <-]. reflexivity. Qed.

Lemma processBulkTikToks_without_timeouts_witness :
  processBulkTikToks alwaysFails [lit "a"; lit "b"] 2
  = Some [ {| r_url := lit "a"; r_success := false;
              r_error := Some (lit "Folder already exists.");
              r_outcome := None |};
           {| r_url := lit "b"; r_success := false;
              r_error := Some (lit "Folder already exists.");
              r_outcome := None |} ].
Proof.
  exact (processBulkTikToks_without_timeouts alwaysFails [lit "a"; lit "b"]
           alwaysFails_never_times_out).
Defined.

Lemma mobileRace_settled n address o :
  mobileRace n address = Ok o →
  ∃ w0 w1,
    processTikTokUrlBulk DEFAULT_SETTINGS offlineMobileEnv sampleFileName
      sampleNoteTitle sampleNoteContent 0 address w0 = Done (Ok o) w1.
Proof.
  unfold mobileRace. intros H.
  destruct (processTikTokUrlBulk _ _ _ _ _ _ address startWorld)
    as [settled w1|] eqn:Hrun; [|discriminate].
  subst settled. exists startWorld, w1. exact Hrun.
Qed.

Lemma mobile_bulk_run_opens_details_witness :
  match processBulkTikToks mobileRace [sampleAddress; sampleShortLink] 2 with
  | Some results =>
      ∃ w',
        showBulkProcessingResults results startWorld
        = Done (Ok (Some (groupResults results))) w'
  | None => False
  end.
Proof.
  destruct (processBulkTikToks mobileRace [sampleAddress; sampleShortLink] 2)
    as [results|] eqn:Hrun; [|vm_compute in Hrun; discriminate].
  refine (mobile_bulk_run_opens_details DEFAULT_SETTINGS offlineMobileEnv
            sampleFileName sampleNoteTitle sampleNoteContent 0 mobileRace
            [sampleAddress; sampleShortLink] 2 results startWorld eq_refl
            mobileRace_settled _ Hrun).
  discriminate.
Defined.

Lemma fileNameWith_default_pattern_witness :
  plainValue (without isAtOrHash (textOr (author dollarData) (lit "unknown")))
  = true
  ∧ fileNameWith DEFAULT_TEMPLATE_SETTINGS (lit "2023-11-14") dollarData
    = lit "TikTok by abc on Win  now".
Proof.
  split; [reflexivity|].
  exact (proj1 (fileNameWith_default_pattern (lit "2023-11-14") dollarData
                  eq_refl)).
Defined.

Lemma noteTitleWith_default_template_witness :
  plainValue (textOr (description sampleData) (lit "Unknown")) = true
  ∧ noteTitleWith DEFAULT_TEMPLATE_SETTINGS (lit "2023-11-14") sampleData
    = lit "2023-11-14 Tiktok on TikTok Post by abc".
Proof.
  split; [reflexivity|].
  exact (noteTitleWith_default_template (lit "2023-11-14") sampleData
           eq_refl eq_refl eq_refl).
Defined.

Lemma noteTitleWith_halves_dollar_signs_witness :
  description dollarData = lit "Win " ++ lit "$$" ++ lit " now"
  ∧ noteTitleWith DEFAULT_TEMPLATE_SETTINGS (lit "2023-11-14") dollarData
    = lit "2023-11-14 Tiktok on Win $ now by abc".
Proof.
  split; [reflexivity|].
  exact (noteTitleWith_halves_dollar_signs (lit "2023-11-14") dollarData
           (lit "Win ") (lit " now") eq_refl eq_refl eq_refl eq_refl eq_refl).
Defined.

Lemma generateNoteContent_never_writes_expanded_url_witness :
  match fetchTikTokData DEFAULT_SETTINGS offlineEnv sampleAddress false
          startWorld with
  | Done (Ok (Some data)) _ =>
      generateNoteContent (withExpandedUrl true DEFAULT_TEMPLATE_SETTINGS)
        offlineEnv noUpperCase data startWorld
      = generateNoteContent (withExpandedUrl false DEFAULT_TEMPLATE_SETTINGS)
          offlineEnv noUpperCase data startWorld
  | _ => False
  end.
Proof.
  destruct (fetchTikTokData DEFAULT_SETTINGS offlineEnv sampleAddress false
              startWorld) as [[[data|]|e] w'|] eqn:Hrun;
    try (vm_compute in Hrun; discriminate).
  exact (generateNoteContent_never_writes_expanded_url
           DEFAULT_TEMPLATE_SETTINGS DEFAULT_SETTINGS offlineEnv noUpperCase
           sampleAddress false startWorld data w' Hrun startWorld).
Defined.

Lemma generators_are_functions_of_the_record_witness :
  match fetchTikTokData DEFAULT_SETTINGS offlineEnv sampleAddress false
          startWorld with
  | Done (Ok (Some data)) _ =>
      generateFileName DEFAULT_TEMPLATE_SETTINGS offlineEnv data startWorld
      = Done (Ok (lit "TikTok by abc on TikTok Post")) startWorld
  | _ => False
  end.
Proof.
  destruct (fetchTikTokData DEFAULT_SETTINGS offlineEnv sampleAddress false
              startWorld) as [[[data|]|e] w'|] eqn:Hrun;
    try (vm_compute in Hrun; discriminate).
  rewrite (proj1 (generators_are_functions_of_the_record
                    DEFAULT_TEMPLATE_SETTINGS DEFAULT_SETTINGS offlineEnv
                    noUpperCase sampleAddress false startWorld data w'
                    clockValid_offlineEnv Hrun startWorld)).
  vm_compute in Hrun. injection Hrun as <- _. reflexivity.
Defined.

Lemma cleanDescription_leaves_the_end_of_a_longer_hashtag_witness :
  hashtags catsData = extractHashtags offlineEnv (description catsData)
  ∧ cleanDescription noUpperCase catsData = lit "s".
Proof.
  split; [reflexivity|].
  refine (proj2 (cleanDescription_leaves_the_end_of_a_longer_hashtag
                   noUpperCase offlineEnv catsData (lit "#cat") (lit "s")
                   eq_refl _ eq_refl eq_refl eq_refl)).
  discriminate.
Defined.

Lemma processTikTokFromClipboard_bulk_enabled_witness :
  enableBulkProcessing DEFAULT_SETTINGS = true
  ∧ processTikTokFromClipboard DEFAULT_SETTINGS offlineEnv sampleFileName
      sampleNoteTitle sampleNoteContent 0 (Ok twoUrlsText) startWorld
    = Done (Ok tt)
        (logEvent (OpenedBulkModal [lit "https://www.tiktok.com/@a/video/1";
                                    lit "https://www.tiktok.com/@b/video/2"])
                  startWorld).
Proof.
  split; [reflexivity|].
  exact (processTikTokFromClipboard_bulk_enabled DEFAULT_SETTINGS offlineEnv
           sampleFileName sampleNoteTitle sampleNoteContent 0 twoUrlsText
           (lit "https://www.tiktok.com/@a/video/1")
           [lit "https://www.tiktok.com/@b/video/2"] startWorld eq_refl
           eq_refl).
Defined.

Lemma handleDuplicateAction_duplicate_asks_again_witness :
  ∃ w3,
    handleDuplicateAction DEFAULT_SETTINGS (envAnswering SkipFile (λ _, None))
      sampleFileName sampleNoteTitle sampleNoteContent true 0 sampleDuplicates
      sampleAddress Duplicate worldWithNote
    = Done (Ok []) w3
    ∧ vault w3 = vaultWithNote
    ∧ last (events w3) = Some (Notice (lit "Duplicate file created")).
Proof.
  pose (env := envAnswering SkipFile (λ _, None)).
  pose (w1 := logEvent (Notice (lit "Processing duplicate: duplicate"))
                       worldWithNote).
  destruct (fetchTikTokData DEFAULT_SETTINGS env sampleAddress false w1)
    as [[[data|]|e] w2|] eqn:Hfetch; try (vm_compute in Hfetch; discriminate).
  assert (Hw2 : vault w2 = vaultWithNote
                ∧ sampleFileName data = sampleFileName sampleData).
  { vm_compute in Hfetch. injection Hfetch as <- <-.
    repeat split; vm_compute; reflexivity. }
  destruct Hw2 as (Hvault & Hname).
  destruct (handleDuplicateAction_duplicate_asks_again DEFAULT_SETTINGS env
              sampleFileName sampleNoteTitle sampleNoteContent 0
              sampleDuplicates sampleAddress
              (recorded sampleAddress
                 (Ok {| o_success := false; o_duplicate := true;
                        o_fileName := Some (lit "TikTok by abc");
                        o_noteTitle := Some (lit "2023-11-14 Tiktok by abc");
                        o_oembedFailed := true; o_isSlideshow := false;
                        o_isPrivate := false |}))
              worldWithNote sampleAddress w1 data w2)
    as (w3 & Hrun & Hv & Hev).
  - reflexivity.
  - reflexivity.
  - exact Hfetch.
  - rewrite Hvault. exact hierarchical_vaultWithNote.
  - rewrite Hvault, Hname. eexists. vm_compute. reflexivity.
  - reflexivity.
  - exists w3. split; [exact Hrun|]. split; [congruence|].
    rewrite Hev, last_app. reflexivity.
Defined.

Lemma extractTikTokUrls_extends_to_the_stop_witness :
  forallb isUrlBodyChar (lit "@a/video/1,") = true
  ∧ extractTikTokUrls (lit "https://www.tiktok.com/@a/video/1, ")
    = [lit "https://www.tiktok.com/@a/video/1,"].
Proof.
  split; [reflexivity|].
  refine (extractTikTokUrls_extends_to_the_stop (lit "@a/video/1,") (lit " ")
            _ eq_refl eq_refl).
  discriminate.
Defined.
